(** * Tampermonkey developer skill: shell tools and userscript templates

    A shallow embedding of the executable parts of the skill bundle:

    - [validate-userscript.sh] and [generate-userscript.sh] (both embedded
      in SKILL.md), modelled as programs of a small shell monad with
      [set -e] semantics, a file system and a standard output;
    - [waitForElement] and [RouteHandler] from the userscript templates;
    - the bookmark store of the YouTube example in README.md.

    Texts are byte strings (the C locale): a character is an [ascii]. *)

From Stdlib Require Import ZArith Ascii String List Bool Lia Sorted Permutation.
From Stdlib Require Import DecimalString DecimalPos DecimalZ.
From stdpp Require Import gmap strings.

(** ** Characters and lines *)

Module Text.

Definition nl : ascii := "010"%char.

Definition is_lower (c : ascii) : bool :=
  (97 <=? nat_of_ascii c)%nat && (nat_of_ascii c <=? 122)%nat.
Definition is_upper (c : ascii) : bool :=
  (65 <=? nat_of_ascii c)%nat && (nat_of_ascii c <=? 90)%nat.
Definition is_digit (c : ascii) : bool :=
  (48 <=? nat_of_ascii c)%nat && (nat_of_ascii c <=? 57)%nat.

(** The characters of a regex word ([\w], and the two sides of [\b]). *)
Definition is_word (c : ascii) : bool :=
  is_lower c || is_upper c || is_digit c || Ascii.eqb c "_".

(** [toupper] and [tolower] on the bytes of ASCII.  What sed makes of a
    byte above 127 under [\u] and [\b] depends on the locale and is not
    modelled: the texts that are put in upper case are texts of ASCII
    ([Scope.plain_text]). *)
Definition toupper (c : ascii) : ascii :=
  if is_lower c then ascii_of_nat (nat_of_ascii c - 32) else c.
Definition tolower (c : ascii) : ascii :=
  if is_upper c then ascii_of_nat (nat_of_ascii c + 32) else c.

(** [\s] of GNU grep: the characters of [[:space:]]. *)
Definition is_space (c : ascii) : bool :=
  Ascii.eqb c " " || ((9 <=? nat_of_ascii c)%nat && (nat_of_ascii c <=? 13)%nat).

Fixpoint map_chars (f : ascii -> ascii) (s : string) : string :=
  match s with
  | EmptyString => EmptyString
  | String c s' => String (f c) (map_chars f s')
  end.

Fixpoint all_chars (p : ascii -> bool) (s : string) : bool :=
  match s with
  | EmptyString => true
  | String c s' => p c && all_chars p s'
  end.

Definition no_newline (s : string) : bool :=
  all_chars (fun c => negb (Ascii.eqb c nl)) s.

(** The lines of a text as the line-oriented tools (grep, sed) see them:
    a newline ends a line, and a last line need not be ended. *)
Fixpoint lines (s : string) : list string :=
  match s with
  | EmptyString => []
  | String c s' =>
      if Ascii.eqb c nl then EmptyString :: lines s'
      else match lines s' with
           | [] => [String c EmptyString]
           | l :: ls => String c l :: ls
           end
  end.

(** What a line-oriented filter writes: every line ended by a newline. *)
Fixpoint unlines (ls : list string) : string :=
  match ls with
  | [] => EmptyString
  | l :: ls' => l +:+ String nl (unlines ls')
  end.

End Text.

(** ** Regular expressions of grep, matched by derivatives *)

Module Regex.
Import Text.

Inductive regex : Type :=
| Void                              (* matches nothing *)
| Eps                               (* the empty string *)
| Cls (p : ascii -> bool)           (* one character of a class *)
| Cat (r1 r2 : regex)
| Alt (r1 r2 : regex)
| Star (r : regex).

Definition Chr (c : ascii) : regex := Cls (Ascii.eqb c).
(** [.], on a line of a text without NUL bytes ([Scope.no_nul]): grep
    matches no NUL byte with it. *)
Definition Any : regex := Cls (fun _ => true).

(** A string all of whose characters stand for themselves. *)
Fixpoint lit (s : string) : regex :=
  match s with
  | EmptyString => Eps
  | String c s' => Cat (Chr c) (lit s')
  end.

Fixpoint nullable (r : regex) : bool :=
  match r with
  | Void => false
  | Eps => true
  | Cls _ => false
  | Cat r1 r2 => nullable r1 && nullable r2
  | Alt r1 r2 => nullable r1 || nullable r2
  | Star _ => true
  end.

Definition cat (r1 r2 : regex) : regex :=
  match r1, r2 with
  | Void, _ => Void
  | _, Void => Void
  | Eps, _ => r2
  | _, _ => Cat r1 r2
  end.

Definition alt (r1 r2 : regex) : regex :=
  match r1, r2 with
  | Void, _ => r2
  | _, Void => r1
  | _, _ => Alt r1 r2
  end.

Fixpoint deriv (c : ascii) (r : regex) : regex :=
  match r with
  | Void => Void
  | Eps => Void
  | Cls p => if p c then Eps else Void
  | Cat r1 r2 =>
      if nullable r1 then alt (cat (deriv c r1) r2) (deriv c r2)
      else cat (deriv c r1) r2
  | Alt r1 r2 => alt (deriv c r1) (deriv c r2)
  | Star r1 => cat (deriv c r1) (Star r1)
  end.

(** Some prefix of [s] matches [r]. *)
Fixpoint match_here (r : regex) (s : string) : bool :=
  nullable r ||
  match s with
  | EmptyString => false
  | String c s' => match_here (deriv c r) s'
  end.

(** Some substring of [s] matches [r]: an unanchored search. *)
Fixpoint search (r : regex) (s : string) : bool :=
  match_here r s ||
  match s with
  | EmptyString => false
  | String _ s' => search r s'
  end.

(** A grep pattern: [bol] is a leading [^]. *)
Record pattern : Type := Pattern { bol : bool; body : regex }.

Definition selects (p : pattern) (line : string) : bool :=
  if bol p then match_here (body p) line else search (body p) line.

(** [grep -q p file]: some line is selected (exit status 0).  The lines
    are those that newlines end, as grep has them for a text without NUL
    bytes ([Scope.no_nul]); in a file with a NUL byte grep ends a line
    there as well. *)
Definition grep_q (p : pattern) (content : string) : bool :=
  existsb (selects p) (lines content).

(** [grep -c p file]: the number of selected lines. *)
Definition grep_c (p : pattern) (content : string) : Z :=
  Z.of_nat (List.length (List.filter (selects p) (lines content))).

End Regex.

(** ** A shell with [set -e], a file system and a standard output *)

Module Shell.

(** A line written to the standard output.  The colour escapes and the
    glyphs of the scripts are left out; what is kept is the kind of line:
    the red finding of a check, the yellow finding of a check, and
    everything else (headings, check marks, usage and summary texts). *)
Inductive out_line : Type :=
| Info (text : string)
| Error (text : string)
| Warning (text : string).

(** The state of a running script: its mutable variables, the file system
    (regular files by path) and what it has written so far. *)
Record shell (V : Type) : Type := Shell {
  vars : V;
  fs : gmap string string;
  stdout : list out_line
}.
Arguments Shell {V} _ _ _.
Arguments vars {V} _.
Arguments fs {V} _.
Arguments stdout {V} _.

(** A command either leaves the script running, with a value, or ends the
    process with an exit status ([exit n], or a failure under [set -e]). *)
Inductive outcome (V A : Type) : Type :=
| Running (a : A) (s : shell V)
| Exited (code : Z) (s : shell V).
Arguments Running {V A} _ _.
Arguments Exited {V A} _ _.

Definition sh (V A : Type) : Type := shell V -> outcome V A.

#[export] Instance sh_ret {V} : MRet (sh V) := fun A a s => Running a s.
#[export] Instance sh_bind {V} : MBind (sh V) := fun A B k c s =>
  match c s with
  | Running a s' => k a s'
  | Exited code s' => Exited code s'
  end.

Definition final {V A} (o : outcome V A) : shell V :=
  match o with Running _ s => s | Exited _ s => s end.

(** The exit status of the process: a script that runs off its end leaves
    the status of its last command, which is 0 for the scripts here. *)
Definition status {V A} (o : outcome V A) : Z :=
  match o with Running _ _ => 0%Z | Exited code _ => code end.

Definition echo {V} (l : out_line) : sh V unit := fun s =>
  Running tt (Shell (vars s) (fs s) (stdout s ++ [l])).

Definition exit_ {V A} (code : Z) : sh V A := fun s => Exited code s.

Definition get {V} : sh V V := fun s => Running (vars s) s.
Definition put {V} (v : V) : sh V unit := fun s =>
  Running tt (Shell v (fs s) (stdout s)).

(** [set -e]: a command in statement position that returns a status other
    than 0 ends the script with that status. *)
Definition errexit {V} (c : sh V Z) : sh V unit :=
  st ← c; if (st =? 0)%Z then mret tt else exit_ st.

(** [[ -f path ]] *)
Definition test_f {V} (path : string) : sh V bool := fun s =>
  Running (bool_decide (is_Some (fs s !! path))) s.

(** [grep -q pattern path] as a condition: true for exit status 0.  A path
    that is no file gives status 2, which a condition takes as false.
    This and the two commands below are grep on a path that it takes for
    the name of a file ([Scope.names_a_file]); a path that starts with a
    dash is taken for options. *)
Definition grep_q {V} (p : Regex.pattern) (path : string) : sh V bool := fun s =>
  Running (match fs s !! path with
           | Some content => Regex.grep_q p content
           | None => false
           end) s.

(** [grep pattern path] as a condition: the selected lines are written. *)
Definition grep_print {V} (p : Regex.pattern) (path : string) : sh V bool := fun s =>
  match fs s !! path with
  | Some content =>
      let sel := List.filter (Regex.selects p) (Text.lines content) in
      Running (Regex.grep_q p content)
              (Shell (vars s) (fs s) (stdout s ++ List.map Info sel))
  | None => Running false s
  end.

(** [$(grep -c pattern path || true)] *)
Definition grep_c {V} (p : Regex.pattern) (path : string) : sh V Z := fun s =>
  Running (match fs s !! path with
           | Some content => Regex.grep_c p content
           | None => 0%Z
           end) s.

(** [for x in xs; do body; done] *)
Fixpoint for_ {V A} (xs : list A) (body : A -> sh V unit) : sh V unit :=
  match xs with
  | [] => mret tt
  | x :: xs' => body x;; for_ xs' body
  end.

(** [if c; then body; fi] with no else branch. *)
Definition when {V} (c : bool) (body : sh V unit) : sh V unit :=
  if c then body else mret tt.

End Shell.

(** ** validate-userscript.sh *)

Module Validator.
Import Text Regex Shell.

(** [ERRORS] and [WARNINGS], the two counters of the script. *)
Record counters : Type := Counters { ERRORS : Z; WARNINGS : Z }.

(** [((ERRORS++))]: the arithmetic command returns status 1 when the value
    of its expression, the counter before the increment, is 0. *)
Definition incr_ERRORS : sh counters Z :=
  v ← get;
  put (Counters (ERRORS v + 1) (WARNINGS v));;
  mret (if (ERRORS v =? 0)%Z then 1%Z else 0%Z).

(** [((WARNINGS++))] *)
Definition incr_WARNINGS : sh counters Z :=
  v ← get;
  put (Counters (ERRORS v) (WARNINGS v + 1));;
  mret (if (WARNINGS v =? 0)%Z then 1%Z else 0%Z).

Definition dq : ascii := "034"%char.

Definition required_fields : list string := ["@name"; "@version"; "@match"].

Definition gm_functions : list string :=
  ["GM_setValue"; "GM_getValue"; "GM_xmlhttpRequest"; "GM_addStyle";
   "GM_notification"; "GM_setClipboard"; "GM_openInTab"].

(** The patterns, in the order of the script.  The interpolated names have
    no character that is special in a basic regular expression. *)

(** ["^// $field"] *)
Definition p_field (field : string) : pattern :=
  Pattern true (lit ("// " +:+ field)).
(** ["$func"] *)
Definition p_func (func : string) : pattern := Pattern false (lit func).
(** [grant_line="@grant        $func"] *)
Definition grant_line (func : string) : string := "@grant        " +:+ func.
Definition p_grant (func : string) : pattern :=
  Pattern false (lit (grant_line func)).
Definition p_unsafeWindow : pattern := Pattern false (lit "unsafeWindow").
(** ["@grant.*unsafeWindow"] *)
Definition p_grant_unsafeWindow : pattern :=
  Pattern false (Cat (lit "@grant") (Cat (Star Any) (lit "unsafeWindow"))).
(** [-E 'for.*querySelector|while.*querySelector'] *)
Definition p_loop_query : pattern :=
  Pattern false
    (Alt (Cat (lit "for") (Cat (Star Any) (lit "querySelector")))
         (Cat (lit "while") (Cat (Star Any) (lit "querySelector")))).
Definition p_setInterval : pattern := Pattern false (lit "setInterval").
Definition p_clearInterval : pattern := Pattern false (lit "clearInterval").
Definition p_addEventListener : pattern := Pattern false (lit "addEventListener").
Definition p_removeEventListener : pattern :=
  Pattern false (lit "removeEventListener").
(** ["eval("]: a parenthesis stands for itself in a basic expression. *)
Definition p_eval : pattern := Pattern false (lit "eval(").
(** [-E '\.innerHTML\s*=.*[\+\$]']: inside the brackets the backslash is a
    member of the set. *)
Definition p_innerHTML : pattern :=
  Pattern false
    (Cat (lit ".innerHTML")
      (Cat (Star (Cls is_space))
        (Cat (Chr "=")
          (Cat (Star Any)
            (Cls (fun c => Ascii.eqb c "\" || Ascii.eqb c "+" || Ascii.eqb c "$")))))).
(** ["document.write"]: the dot matches any character. *)
Definition p_document_write : pattern :=
  Pattern false (Cat (lit "document") (Cat Any (lit "write"))).
Definition p_strict_single : pattern := Pattern false (lit "'use strict'").
Definition p_strict_double : pattern :=
  Pattern false (lit (String dq ("use strict" +:+ String dq EmptyString))).
Definition p_iife_function : pattern := Pattern false (lit "(function()").
Definition p_iife_arrow : pattern := Pattern false (lit "(() => {").
(** ["console.log"] *)
Definition p_console_log : pattern :=
  Pattern false (Cat (lit "console") (Cat Any (lit "log"))).

Definition missing_msg (field : string) : string :=
  "Missing required field: " +:+ field.
Definition nogrant_msg (func : string) : string :=
  "Using " +:+ func +:+ " without @grant declaration".

(** A counter as the shell expands it: its decimal digits. *)
Definition show (z : Z) : string := NilZero.string_of_int (Z.to_int z).

(** The script, with [set -e] in force from its first line. *)
Definition validate_userscript (SCRIPT_FILE : string) : sh counters unit :=
  when (String.eqb SCRIPT_FILE "")
    (echo (Info "Error: No script file specified");;
     echo (Info "Usage: bash validate-userscript.sh <script-file>");;
     exit_ 1);;
  is_file ← test_f SCRIPT_FILE;
  when (negb is_file)
    (echo (Info ("Error: File not found: " +:+ SCRIPT_FILE));;
     exit_ 1);;
  echo (Info "=== Validating Userscript ===");;
  echo (Info ("File: " +:+ SCRIPT_FILE));;
  echo (Info "");;
  (* Check 1: required metadata *)
  echo (Info "[1] Checking required metadata...");;
  for_ required_fields (fun field =>
    found ← grep_q (p_field field) SCRIPT_FILE;
    if negb found then
      echo (Error (missing_msg field));;
      errexit incr_ERRORS
    else
      echo (Info ("Found " +:+ field)));;
  (* Check 2: grant declarations *)
  echo (Info "");;
  echo (Info "[2] Checking @grant declarations...");;
  for_ gm_functions (fun func =>
    used ← grep_q (p_func func) SCRIPT_FILE;
    when used
      (granted ← grep_q (p_grant func) SCRIPT_FILE;
       when (negb granted)
         (echo (Error (nogrant_msg func));;
          errexit incr_ERRORS)));;
  uw ← grep_q p_unsafeWindow SCRIPT_FILE;
  when uw
    (g ← grep_q p_grant_unsafeWindow SCRIPT_FILE;
     when (negb g)
       (echo (Warning "Using unsafeWindow without @grant declaration");;
        errexit incr_WARNINGS));;
  echo (Info "Grant declarations check complete");;
  (* Check 3: performance anti-patterns *)
  echo (Info "");;
  echo (Info "[3] Checking for performance anti-patterns...");;
  lq ← grep_print p_loop_query SCRIPT_FILE;
  when lq
    (echo (Warning "querySelector in loop detected - consider caching results");;
     errexit incr_WARNINGS);;
  si ← grep_q p_setInterval SCRIPT_FILE;
  ci ← (if si then grep_q p_clearInterval SCRIPT_FILE else mret false);
  when (si && negb ci)
    (echo (Warning "setInterval used without clearInterval - potential memory leak");;
     errexit incr_WARNINGS);;
  ae ← grep_q p_addEventListener SCRIPT_FILE;
  re ← (if ae then grep_q p_removeEventListener SCRIPT_FILE else mret false);
  when (ae && negb re)
    (echo (Warning "addEventListener used without cleanup - check if removeEventListener needed");;
     errexit incr_WARNINGS);;
  echo (Info "Performance check complete");;
  (* Check 4: security issues *)
  echo (Info "");;
  echo (Info "[4] Checking for security issues...");;
  ev ← grep_q p_eval SCRIPT_FILE;
  when ev
    (echo (Error "Using eval() - security risk!");;
     errexit incr_ERRORS);;
  ih ← grep_print p_innerHTML SCRIPT_FILE;
  when ih
    (echo (Warning "Using innerHTML with variables - potential XSS risk");;
     errexit incr_WARNINGS);;
  dw ← grep_q p_document_write SCRIPT_FILE;
  when dw
    (echo (Warning "Using document.write - can cause issues in modern browsers");;
     errexit incr_WARNINGS);;
  echo (Info "Security check complete");;
  (* Check 5: best practices *)
  echo (Info "");;
  echo (Info "[5] Checking best practices...");;
  s1 ← grep_q p_strict_single SCRIPT_FILE;
  s2 ← (if s1 then mret true else grep_q p_strict_double SCRIPT_FILE);
  when (negb s1 && negb s2)
    (echo (Warning "Missing 'use strict' declaration");;
     errexit incr_WARNINGS);;
  i1 ← grep_q p_iife_function SCRIPT_FILE;
  i2 ← (if i1 then mret true else grep_q p_iife_arrow SCRIPT_FILE);
  when (negb i1 && negb i2)
    (echo (Warning "Not wrapped in IIFE - may pollute global scope");;
     errexit incr_WARNINGS);;
  log_count ← grep_c p_console_log SCRIPT_FILE;
  when (5 <? log_count)%Z
    (echo (Warning ("Found " +:+ show log_count +:+
                    " console.log statements - consider removing or reducing"));;
     errexit incr_WARNINGS);;
  echo (Info "Best practices check complete");;
  (* Summary *)
  echo (Info "");;
  echo (Info "=== Validation Summary ===");;
  echo (Info "");;
  v ← get;
  if (ERRORS v =? 0)%Z && (WARNINGS v =? 0)%Z then
    echo (Info "No issues found! Script looks good.");;
    exit_ 0
  else if (ERRORS v =? 0)%Z then
    echo (Info (show (WARNINGS v) +:+ " warning(s) found"));;
    echo (Info "Consider addressing warnings for better code quality.");;
    exit_ 0
  else
    echo (Info (show (ERRORS v) +:+ " error(s) found"));;
    echo (Info (show (WARNINGS v) +:+ " warning(s) found"));;
    echo (Info "");;
    echo (Info "Please fix errors before deploying your userscript.");;
    exit_ 1.

(** One invocation [bash validate-userscript.sh path] on a file system. *)
Definition run (files : gmap string string) (path : string)
  : outcome counters unit :=
  validate_userscript path (Shell (Counters 0 0) files []).

Definition exit_status files path : Z := status (run files path).
Definition output files path : list out_line := stdout (final (run files path)).
Definition error_count files path : Z := ERRORS (vars (final (run files path))).
Definition warning_count files path : Z := WARNINGS (vars (final (run files path))).

(** The checks of the script as conditions on the text of the file, in the
    order of the script: what each check finds when it is reached. *)
Definition finding_if (c : bool) (l : out_line) : list out_line :=
  if c then [l] else [].

Definition check_field (content field : string) : list out_line :=
  finding_if (negb (Regex.grep_q (p_field field) content))
             (Error (missing_msg field)).

Definition check_grant (content func : string) : list out_line :=
  finding_if (Regex.grep_q (p_func func) content
              && negb (Regex.grep_q (p_grant func) content))
             (Error (nogrant_msg func)).

Definition findings (content : string) : list out_line :=
  let q p := Regex.grep_q p content in
  flat_map (check_field content) required_fields
  ++ flat_map (check_grant content) gm_functions
  ++ finding_if (q p_unsafeWindow && negb (q p_grant_unsafeWindow))
       (Warning "Using unsafeWindow without @grant declaration")
  ++ finding_if (q p_loop_query)
       (Warning "querySelector in loop detected - consider caching results")
  ++ finding_if (q p_setInterval && negb (q p_clearInterval))
       (Warning "setInterval used without clearInterval - potential memory leak")
  ++ finding_if (q p_addEventListener && negb (q p_removeEventListener))
       (Warning "addEventListener used without cleanup - check if removeEventListener needed")
  ++ finding_if (q p_eval) (Error "Using eval() - security risk!")
  ++ finding_if (q p_innerHTML)
       (Warning "Using innerHTML with variables - potential XSS risk")
  ++ finding_if (q p_document_write)
       (Warning "Using document.write - can cause issues in modern browsers")
  ++ finding_if (negb (q p_strict_single) && negb (q p_strict_double))
       (Warning "Missing 'use strict' declaration")
  ++ finding_if (negb (q p_iife_function) && negb (q p_iife_arrow))
       (Warning "Not wrapped in IIFE - may pollute global scope")
  ++ finding_if (5 <? Regex.grep_c p_console_log content)%Z
       (Warning ("Found " +:+ show (Regex.grep_c p_console_log content) +:+
                 " console.log statements - consider removing or reducing")).

(** The findings among the written lines. *)
Definition is_error (l : out_line) : bool :=
  match l with Error _ => true | _ => false end.
Definition is_warning (l : out_line) : bool :=
  match l with Warning _ => true | _ => false end.
Definition is_finding (l : out_line) : bool := is_error l || is_warning l.
Definition reported files path : list out_line :=
  List.filter is_finding (output files path).
Definition reported_errors files path : list out_line :=
  List.filter is_error (output files path).
Definition reported_warnings files path : list out_line :=
  List.filter is_warning (output files path).

End Validator.

(** ** generate-userscript.sh *)

Module Generator.
Import Text Shell.

(** *** The text pipelines of the script *)

(** [echo "$x"]: bash's echo takes an argument made of a dash and letters
    among n, e, E for options; with n it writes nothing, and otherwise an
    empty line.  Any other argument is written, ended by a newline. *)
Definition is_echo_flag (c : ascii) : bool :=
  Ascii.eqb c "n" || Ascii.eqb c "e" || Ascii.eqb c "E".

Definition is_echo_option (x : string) : bool :=
  match x with
  | String "-" (String c rest) => all_chars is_echo_flag (String c rest)
  | _ => false
  end.

Fixpoint has_char (a : ascii) (s : string) : bool :=
  match s with
  | EmptyString => false
  | String c s' => Ascii.eqb a c || has_char a s'
  end.

Definition echo_out (x : string) : string :=
  if is_echo_option x then
    (if has_char "n" x then EmptyString else String nl EmptyString)
  else x +:+ String nl EmptyString.

(** [sed script] as a filter: the script is applied to every line.  Its
    input here always comes from [echo], so every line is ended. *)
Definition sed_filter (f : string -> string) (input : string) : string :=
  unlines (List.map f (lines input)).

(** [$( ... )]: the output of the pipeline without its trailing newlines. *)
Fixpoint strip_trailing_newlines (s : string) : string :=
  match s with
  | EmptyString => EmptyString
  | String c s' =>
      match strip_trailing_newlines s' with
      | EmptyString => if Ascii.eqb c nl then EmptyString else String c EmptyString
      | t => String c t
      end
  end.

(** [s/-/ /g] *)
Definition hyphens_to_spaces (line : string) : string :=
  map_chars (fun c => if Ascii.eqb c "-" then " "%char else c) line.

(** [s/\b\(.\)/\u\1/g]: every character that stands right after a word
    boundary is replaced by its upper case.  A boundary lies between a word
    character and a character that is none (or an end of the line); the
    match takes the one character after it, and the search goes on from the
    next.  [prev] tells whether the character before is a word character. *)
Fixpoint upcase_after_boundary (prev : bool) (line : string) : string :=
  match line with
  | EmptyString => EmptyString
  | String c rest =>
      String (if xorb prev (is_word c) then toupper c else c)
             (upcase_after_boundary (is_word c) rest)
  end.

(** [SCRIPT_TITLE=$(echo "$SCRIPT_NAME" | sed 's/-/ /g' | sed 's/\b\(.\)/\u\1/g')] *)
Definition SCRIPT_TITLE (SCRIPT_NAME : string) : string :=
  strip_trailing_newlines
    (sed_filter (upcase_after_boundary false)
      (sed_filter hyphens_to_spaces (echo_out SCRIPT_NAME))).

(** The longest prefix of characters other than [/], and what follows. *)
Fixpoint span_not_slash (s : string) : string * string :=
  match s with
  | EmptyString => (EmptyString, EmptyString)
  | String c s' =>
      if Ascii.eqb c "/" then (EmptyString, s)
      else let (h, r) := span_not_slash s' in (String c h, r)
  end.

(** A match of [https?://([^/]+).*] that starts at the head of [s]: the
    text of the group, which takes all it can. *)
Definition match_http_host (s : string) : option string :=
  let after_scheme :=
    match s with
    | String "h" (String "t" (String "t" (String "p"
        (String "s" (String ":" (String "/" (String "/" r))))))) => Some r
    | String "h" (String "t" (String "t" (String "p"
        (String ":" (String "/" (String "/" r)))))) => Some r
    | _ => None
    end in
  match after_scheme with
  | Some r =>
      match fst (span_not_slash r) with
      | EmptyString => None
      | host => Some host
      end
  | None => None
  end.

(** [sed -E 's|https?://([^/]+).*|\1|']: the leftmost match, which runs to
    the end of the line, is replaced by its group; a line with no match is
    left as it is. *)
Fixpoint keep_http_host (line : string) : string :=
  match match_http_host line with
  | Some host => host
  | None =>
      match line with
      | EmptyString => EmptyString
      | String c rest => String c (keep_http_host rest)
      end
  end.

(** [sed 's/\*/example.com/']: the first star of the line. *)
Fixpoint first_star_to_example (line : string) : string :=
  match line with
  | EmptyString => EmptyString
  | String c rest =>
      if Ascii.eqb c "*" then "example.com" +:+ rest
      else String c (first_star_to_example rest)
  end.

(** [DOMAIN=$(echo "$TARGET_URL" | sed -E 's|https?://([^/]+).*|\1|' | sed 's/\*/example.com/')] *)
Definition DOMAIN (TARGET_URL : string) : string :=
  strip_trailing_newlines
    (sed_filter first_star_to_example
      (sed_filter keep_http_host (echo_out TARGET_URL))).

(** *** The script *)

(** What the invoker provides besides the three arguments: the directory of
    the templates (found from the place of the script by [pwd], an absolute
    path), the system type, and the standard input, which the script keeps
    reading from. *)
Record environment : Type := Environment {
  TEMPLATES_DIR : string;
  OSTYPE : string;
  stdin : string
}.

(** [starts_with p s]: the test [[ "$s" == "p"* ]]. *)
Fixpoint starts_with (p s : string) : bool :=
  match p, s with
  | EmptyString, _ => true
  | String a p', String b s' => Ascii.eqb a b && starts_with p' s'
  | String _ _, EmptyString => false
  end.

Section Script.

(** The two programs the script runs on files are parameters.  [sed script
    text] is what sed makes of a text under a script, or [None] where sed
    fails (a script it cannot read).  [can_write path] tells whether a file
    can be created or replaced at a path. *)
Variable sed : string -> string -> option string.
Variable can_write : string -> bool.

(** The variable of the script that changes: what is left to read. *)
Definition input := string.

(** [read -p "Overwrite? (y/N): " -n 1 -r]: one character into [REPLY], or
    none when a newline comes first; status 1 at the end of the input.
    This is [read] on an input whose first byte is a byte of ASCII other
    than NUL ([Scope.plain_reply]): bash passes over NUL bytes, and reads
    the bytes of a longer character together. *)
Definition read_n1 : sh input (Z * string) :=
  rest ← get;
  match rest with
  | EmptyString => mret (1%Z, EmptyString)
  | String c rest' =>
      put rest';;
      mret (0%Z, if Ascii.eqb c nl then EmptyString else String c EmptyString)
  end.

(** [cp src dst], for a destination that cp takes for the name of a file
    ([Scope.names_a_file]) and at which there is a regular file or
    nothing: no directory and no symbolic link. *)
Definition cp (src dst : string) : sh input Z := fun s =>
  match fs s !! src with
  | Some content =>
      if can_write dst && negb (String.eqb src dst)
      then Running 0%Z (Shell (vars s) (<[dst := content]> (fs s)) (stdout s))
      else Running 1%Z s
  | None => Running 1%Z s
  end.

(** [sed -i script path]: the file is replaced by what sed makes of it.
    This is sed under a script that edits its text and does no more; the
    scripts of the generator are such when no bar stands in the name and
    in the URL that are put into them ([Scope.plain_call]), for it takes a
    bar to end the replacement and give a flag that writes a file. *)
Definition sed_i (script path : string) : sh input Z := fun s =>
  match fs s !! path with
  | Some content =>
      match sed script content with
      | Some content' =>
          Running 0%Z (Shell (vars s) (<[path := content']> (fs s)) (stdout s))
      | None => Running 1%Z s
      end
  | None => Running 2%Z s
  end.

Definition usage : list out_line :=
  [Info "Error: Missing required arguments"; Info "";
   Info "Usage: bash generate-userscript.sh <script-name> <target-url> [template]";
   Info ""; Info "Arguments:";
   Info "  script-name  : Name of the userscript (e.g., 'youtube-enhancer')";
   Info "  target-url   : Target URL pattern (e.g., 'https://www.youtube.com/*')";
   Info "  template     : Template to use (basic|advanced|spa) [default: basic]";
   Info ""; Info "Examples:";
   Info "  bash generate-userscript.sh my-script 'https://example.com/*'";
   Info "  bash generate-userscript.sh my-script 'https://example.com/*' advanced"].

(** The six substitutions, the same on both kinds of system. *)
Definition substitutions (title url domain OUTPUT_FILE : string) : sh input unit :=
  errexit (sed_i ("s|@name.*|@name         " +:+ title +:+ "|") OUTPUT_FILE);;
  errexit (sed_i ("s|@match.*|@match        " +:+ url +:+ "|") OUTPUT_FILE);;
  errexit (sed_i ("s|@icon.*|@icon         https://www.google.com/s2/favicons?sz=64\&domain="
                  +:+ domain +:+ "|") OUTPUT_FILE);;
  errexit (sed_i ("s|My Userscript|" +:+ title +:+ "|g") OUTPUT_FILE);;
  errexit (sed_i ("s|Advanced Userscript Template|" +:+ title +:+ "|g") OUTPUT_FILE);;
  errexit (sed_i ("s|SPA-Compatible Template|" +:+ title +:+ "|g") OUTPUT_FILE).

(** The script, with [set -e]; [$1], [$2] and [$3] are empty when not
    given. *)
Definition generate_userscript (env : environment) (arg1 arg2 arg3 : string)
  : sh input unit :=
  let SCRIPT_NAME := arg1 in
  let TARGET_URL := arg2 in
  let TEMPLATE := if String.eqb arg3 "" then "basic" else arg3 in
  when (String.eqb SCRIPT_NAME "" || String.eqb TARGET_URL "")
    (for_ usage echo;; exit_ 1);;
  TEMPLATE_FILE ←
    (if String.eqb TEMPLATE "basic" then
       mret (TEMPLATES_DIR env +:+ "/basic-template.user.js")
     else if String.eqb TEMPLATE "advanced" then
       mret (TEMPLATES_DIR env +:+ "/advanced-template.user.js")
     else if String.eqb TEMPLATE "spa" then
       mret (TEMPLATES_DIR env +:+ "/spa-compatible.user.js")
     else
       echo (Info ("Error: Invalid template '" +:+ TEMPLATE +:+ "'"));;
       echo (Info "Available templates: basic, advanced, spa");;
       exit_ 1);
  is_file ← test_f TEMPLATE_FILE;
  when (negb is_file)
    (echo (Info ("Error: Template file not found: " +:+ TEMPLATE_FILE));;
     exit_ 1);;
  let OUTPUT_FILE := SCRIPT_NAME +:+ ".user.js" in
  present ← test_f OUTPUT_FILE;
  when present
    (echo (Info ("Warning: " +:+ OUTPUT_FILE +:+ " already exists"));;
     r ← read_n1;
     errexit (mret (fst r));;
     echo (Info "");;
     when (negb (String.eqb (snd r) "y" || String.eqb (snd r) "Y"))
       (echo (Info "Aborted.");;
        exit_ 0));;
  let domain := DOMAIN TARGET_URL in
  echo (Info "Generating userscript...");;
  let title := SCRIPT_TITLE SCRIPT_NAME in
  errexit (cp TEMPLATE_FILE OUTPUT_FILE);;
  (if starts_with "darwin" (OSTYPE env)
   then substitutions title TARGET_URL domain OUTPUT_FILE
   else substitutions title TARGET_URL domain OUTPUT_FILE);;
  echo (Info ("Successfully generated: " +:+ OUTPUT_FILE));;
  echo (Info "");;
  echo (Info ("Template used: " +:+ TEMPLATE));;
  echo (Info ("Script name: " +:+ title));;
  echo (Info ("Target URL: " +:+ TARGET_URL));;
  echo (Info "");;
  echo (Info "Next steps:");;
  echo (Info ("1. Edit " +:+ OUTPUT_FILE +:+ " to add your custom logic"));;
  echo (Info "2. Install in Tampermonkey");;
  echo (Info ("3. Test on " +:+ TARGET_URL));;
  echo (Info "");;
  echo (Info "To validate your script:");;
  echo (Info ("  bash scripts/validate-userscript.sh " +:+ OUTPUT_FILE)).

(** One invocation on a file system.  The paths of the file system are the
    paths as the process names them: a relative path names a file from the
    working directory of the invoker. *)
Definition run (env : environment) (files : gmap string string)
    (name url kind : string) : outcome input unit :=
  generate_userscript env name url kind (Shell (stdin env) files []).


End Script.

End Generator.

(** ** A sed for the substitutions of the generator

    The fragment of sed that the six in-place commands of the generator
    use when the interpolated texts are plain: scripts [s|pattern|text|]
    and [s|pattern|text|g], a pattern of plain characters, [.] and [x*],
    and a replacement where [&] is the match and a backslash quotes [&],
    the backslash and the bar.  Any other script is refused. *)

Module MiniSed.
Import Text Regex.

Fixpoint take (n : nat) (s : string) : string :=
  match n, s with
  | S n', String c s' => String c (take n' s')
  | _, _ => EmptyString
  end.

Fixpoint drop (n : nat) (s : string) : string :=
  match n, s with
  | S n', String _ s' => drop n' s'
  | _, _ => s
  end.

Definition cons_head (c : ascii) (fs : list string) : list string :=
  match fs with
  | [] => [String c EmptyString]
  | f :: fs' => String c f :: fs'
  end.

(** The fields between the bars that no backslash quotes. *)
Fixpoint fields (s : string) : list string :=
  match s with
  | EmptyString => [EmptyString]
  | String c s' =>
      if Ascii.eqb c "|" then EmptyString :: fields s'
      else if Ascii.eqb c "\" then
        match s' with
        | String d s'' => cons_head c (cons_head d (fields s''))
        | EmptyString => [String c EmptyString]
        end
      else cons_head c (fields s')
  end.

Definition is_special (c : ascii) : bool :=
  Ascii.eqb c "[" || Ascii.eqb c "]" || Ascii.eqb c "^" || Ascii.eqb c "$"
  || Ascii.eqb c "*" || Ascii.eqb c "\".

Fixpoint parse_pattern (s : string) : option regex :=
  match s with
  | EmptyString => Some Eps
  | String c s' =>
      if is_special c then None
      else
        let atom := if Ascii.eqb c "." then Any else Chr c in
        match s' with
        | String "*" s'' =>
            match parse_pattern s'' with
            | Some r => Some (Cat (Star atom) r)
            | None => None
            end
        | _ =>
            match parse_pattern s' with
            | Some r => Some (Cat atom r)
            | None => None
            end
        end
  end.

(** The replacement text for a match [whole]. *)
Fixpoint expand (repl whole : string) : option string :=
  match repl with
  | EmptyString => Some EmptyString
  | String c r' =>
      if Ascii.eqb c "&" then
        match expand r' whole with
        | Some t => Some (whole +:+ t)
        | None => None
        end
      else if Ascii.eqb c "\" then
        match r' with
        | String d r'' =>
            if Ascii.eqb d "&" || Ascii.eqb d "\" || Ascii.eqb d "|" then
              match expand r'' whole with
              | Some t => Some (String d t)
              | None => None
              end
            else None
        | EmptyString => None
        end
      else if Ascii.eqb c nl then None
      else
        match expand r' whole with
        | Some t => Some (String c t)
        | None => None
        end
  end.

(** The length of the longest prefix of [s] that matches [r]. *)
Fixpoint longest (r : regex) (s : string) (n : nat) (best : option nat)
  : option nat :=
  let best' := if nullable r then Some n else best in
  match s with
  | EmptyString => best'
  | String c s' => longest (deriv c r) s' (S n) best'
  end.

(** The leftmost longest match of a line is replaced, and with [g] every
    further one after it. *)
Fixpoint subst_line (fuel : nat) (r : regex) (repl : string) (g : bool)
    (line : string) : option string :=
  match fuel with
  | O => Some line
  | S fuel' =>
      match longest r line 0 None with
      | Some (S n) =>
          match expand repl (take (S n) line) with
          | Some t =>
              if g then
                match subst_line fuel' r repl g (drop (S n) line) with
                | Some rest => Some (t +:+ rest)
                | None => None
                end
              else Some (t +:+ drop (S n) line)
          | None => None
          end
      | _ =>
          match line with
          | EmptyString => Some EmptyString
          | String c rest =>
              match subst_line fuel' r repl g rest with
              | Some rest' => Some (String c rest')
              | None => None
              end
          end
      end
  end.

Fixpoint map_lines (f : string -> option string) (ls : list string)
  : option (list string) :=
  match ls with
  | [] => Some []
  | l :: ls' =>
      match f l, map_lines f ls' with
      | Some l', Some ls'' => Some (l' :: ls'')
      | _, _ => None
      end
  end.

Definition sed (script text : string) : option string :=
  match script with
  | String "s" (String "|" body) =>
      match fields body with
      | [pat; repl; flags] =>
          match parse_pattern pat with
          | Some r =>
              if nullable r then None
              else if negb (String.eqb flags "" || String.eqb flags "g") then None
              else
                match map_lines
                        (fun l => subst_line (S (String.length l)) r repl
                                             (String.eqb flags "g") l)
                        (lines text) with
                | Some ls => Some (unlines ls)
                | None => None
                end
          | None => None
          end
      | _ => None
      end
  | _ => None
  end.

End MiniSed.

(** ** Sample inputs *)

Module Samples.
Import Text.

(** A script with all its metadata that no check objects to. *)
Definition tidy_script : string :=
  unlines ["// ==UserScript==";
           "// @name         Tidy";
           "// @version      1.0.0";
           "// @match        https://example.com/*";
           "// @grant        none";
           "// ==/UserScript==";
           "(function() {";
           "    'use strict';";
           "})();"].

(** The same metadata, with neither the strict mode marker nor the
    wrapper: no check counts an error, two count a warning. *)
Definition bare_script : string :=
  unlines ["// ==UserScript==";
           "// @name         Bare";
           "// @version      1.0.0";
           "// @match        https://example.com/*";
           "// ==/UserScript=="].

(** A script with no metadata at all. *)
Definition headless_script : string :=
  unlines ["(function() {";
           "    'use strict';";
           "})();"].

(** Two calls that need a grant, and no grant. *)
Definition ungranted_script : string :=
  unlines ["// ==UserScript==";
           "// @name         Store";
           "// @version      1.0.0";
           "// @match        https://example.com/*";
           "// ==/UserScript==";
           "(function() {";
           "    'use strict';";
           "    GM_setValue('k', GM_getValue('k', 0) + 1);";
           "})();"].

(** The head of templates/basic-template.user.js. *)
Definition basic_template : string :=
  unlines ["// ==UserScript==";
           "// @name         My Userscript";
           "// @namespace    http://tampermonkey.net/";
           "// @version      1.0.0";
           "// @description  Brief description of what this script does";
           "// @author       Your Name";
           "// @match        https://example.com/*";
           "// @icon         https://www.google.com/s2/favicons?sz=64&domain=example.com";
           "// @grant        none";
           "// @run-at       document-end";
           "// ==/UserScript==";
           "";
           "(function() {";
           "    'use strict';";
           "";
           "    // Your code here";
           "    console.log('[My Userscript] Script loaded successfully');";
           "})();"].

Definition skill_files : gmap string string :=
  {[ "/skill/templates/basic-template.user.js" := basic_template ]}.

Definition linux : Generator.environment :=
  Generator.Environment "/skill/templates" "linux-gnu" "".

End Samples.

(** ** waitForElement (templates/spa-compatible.user.js, Utils.waitForElement
       of templates/advanced-template.user.js) *)

Module Wait.

(** A node of the document, by identity. *)
Definition element := nat.

(** The promise that [waitForElement] returns. *)
Inductive promise : Type :=
| Pending
| Fulfilled (e : element)
| Rejected (message : string).

(** [resolve] and [reject] settle a pending promise and do nothing to a
    settled one. *)
Definition resolve (e : element) (p : promise) : promise :=
  match p with Pending => Fulfilled e | _ => p end.
Definition reject (message : string) (p : promise) : promise :=
  match p with Pending => Rejected message | _ => p end.

(** The two templates differ in the message of the rejection. *)
Inductive template : Type :=
| SpaCompatible
| AdvancedTemplate.

Definition timeout_message (t : template) (selector : string) : string :=
  match t with
  | SpaCompatible => "Timeout: " +:+ selector
  | AdvancedTemplate => "Timeout waiting for: " +:+ selector
  end.

(** What can be seen of one call: the promise, whether the observer is
    connected, and how many times the timeout branch has run (it
    disconnects the observer and rejects). *)
Record waiter : Type := Waiter {
  variant : template;
  selector : string;
  timeout : Z;
  startTime : Z;
  observing : bool;
  state : promise;
  timeouts : nat
}.

(** A mutation notification delivered to the callback: the value of
    [Date.now()] and of [document.querySelector(selector)] at that time. *)
Record notification : Type := Notification {
  now : Z;
  found : option element
}.

(** The executor of the promise: [start] is [Date.now()] and [present] is
    [document.querySelector(selector)] at the call. *)
Definition waitForElement (t : template) (sel : string) (tmo : Z)
    (start : Z) (present : option element) : waiter :=
  match present with
  | Some e => Waiter t sel tmo start false (resolve e Pending) 0
  | None => Waiter t sel tmo start true Pending 0
  end.

(** The callback of the observer. *)
Definition callback (w : waiter) (n : notification) : waiter :=
  match found n with
  | Some e =>
      Waiter (variant w) (selector w) (timeout w) (startTime w) false
             (resolve e (state w)) (timeouts w)
  | None =>
      if (timeout w <? now n - startTime w)%Z then
        Waiter (variant w) (selector w) (timeout w) (startTime w) false
               (reject (timeout_message (variant w) (selector w)) (state w))
               (S (timeouts w))
      else w
  end.

(** A notification reaches the callback while the observer is connected. *)
Definition deliver (w : waiter) (n : notification) : waiter :=
  if observing w then callback w n else w.

Definition run (w : waiter) (ns : list notification) : waiter :=
  List.fold_left deliver ns w.

(** The selector is never present: not at the call, and at no
    notification. *)
Definition never_present (ns : list notification) : Prop :=
  Forall (fun n => found n = None) ns.

(** Some notification comes after the timeout has elapsed. *)
Definition late (tmo start : Z) (n : notification) : Prop :=
  (tmo < now n - start)%Z.

End Wait.

(** ** RouteHandler (templates/spa-compatible.user.js) *)

Module Routes.
Import Text.

(** The values found in the array of a match: a string, or [undefined]
    for a group that took no part. *)
Inductive value : Type :=
| Undefined
| Str (s : string).

(** *** From a route pattern to the source of a regular expression *)

(** A character of [[^\s/]].  White space is the white space of ASCII. *)
Definition is_param_char (c : ascii) : bool :=
  negb (is_space c) && negb (Ascii.eqb c "/").

(** [.replace(/:[^\s/]+/g, '([^/]+)')]: a colon and the longest run of
    characters after it, when there is one, give way to a group.
    [in_param] holds while such a run is being passed over. *)
Fixpoint replace_params (in_param : bool) (s : string) : string :=
  match s with
  | EmptyString => EmptyString
  | String c s' =>
      if in_param && is_param_char c then replace_params true s'
      else if Ascii.eqb c ":" &&
              match s' with
              | String d _ => is_param_char d
              | EmptyString => false
              end
      then "([^/]+)" +:+ replace_params true s'
      else String c (replace_params false s')
  end.

(** [.replace(/\*/g, '.*')] *)
Fixpoint replace_stars (s : string) : string :=
  match s with
  | EmptyString => EmptyString
  | String c s' =>
      if Ascii.eqb c "*" then ".*" +:+ replace_stars s'
      else String c (replace_stars s')
  end.

(** [`^${regexPattern}$`] *)
Definition regex_source (route_pattern : string) : string :=
  "^" +:+ replace_stars (replace_params false route_pattern) +:+ "$".

(** *** The route table, over the regular expressions of the host *)

(** A call returns, or throws (the SyntaxError of [new RegExp]). *)
Inductive result (A : Type) : Type :=
| Return (a : A)
| Throw.
Arguments Return {A} _.
Arguments Throw {A}.

(** The engine of the host.  [compile source] is [new RegExp(source)], or
    [None] where it throws a SyntaxError.  [exec p s] is the first match of
    [p] in [s]: the matched text, then the captured groups.  [all_matches p
    s] lists the texts of the successive matches of [p] in [s]. *)
Class Engine : Type := {
  Prog : Type;
  compile : string -> option Prog;
  exec : Prog -> string -> option (list value);
  all_matches : Prog -> string -> list string
}.

Section Host.
Context {engine : Engine}.

(** A RegExp object: what it matches, and its [g] flag.  (No object here
    is sticky.) *)
Record RegExp : Type := MkRegExp { prog : Prog; global : bool }.

(** [new RegExp(source)]: no flag. *)
Definition new_RegExp (source : string) : option RegExp :=
  match compile source with
  | Some p => Some (MkRegExp p false)
  | None => None
  end.

(** [s.match(regex)]: with the [g] flag, the array of all the matched
    texts, or [null] when there is none; without it, what [exec] gives. *)
Definition String_match (s : string) (regex : RegExp) : option (list value) :=
  if global regex then
    match all_matches (prog regex) s with
    | [] => None
    | ms => Some (List.map Str ms)
    end
  else exec (prog regex) s.

(** [array.slice(1)] *)
Definition slice1 {A} (array : list A) : list A := List.tl array.

(** The handlers, by name. *)
Variable Handler : Type.

Inductive route_pattern : Type :=
| PRegExp (regex : RegExp)          (* route.pattern instanceof RegExp *)
| PString (text : string).

Record route : Type := Route { pattern : route_pattern; handler : Handler }.

(** [new RouteHandler()] and [add(pattern, handler)] *)
Definition new_RouteHandler : list route := [].
Definition add (p : route_pattern) (h : Handler) (routes : list route)
  : list route :=
  routes ++ [Route p h].

Record matched : Type := Matched { m_handler : Handler; params : list value }.

(** The regular expression of a route. *)
Definition regex_of (p : route_pattern) : option RegExp :=
  match p with
  | PRegExp regex => Some regex
  | PString text => new_RegExp (regex_source text)
  end.

(** [match(url)] *)
Fixpoint match_ (routes : list route) (url : string) : result (option matched) :=
  match routes with
  | [] => Return None
  | r :: rest =>
      match regex_of (pattern r) with
      | None => Throw
      | Some regex =>
          match String_match url regex with
          | Some m => Return (Some (Matched (handler r) (slice1 m)))
          | None => match_ rest url
          end
      end
  end.

(** What [handle] does besides returning. *)
Inductive effect : Type :=
| Log (message url : string)
| Call (h : Handler) (arguments : list value).

(** [handle(url)] *)
Definition handle (routes : list route) (url : string)
  : result (bool * list effect) :=
  match match_ routes url with
  | Throw => Throw
  | Return (Some res) =>
      Return (true, [Log "Route matched:" url; Call (m_handler res) (params res)])
  | Return None => Return (false, [])
  end.

(** The handlers that a list of effects called. *)
Definition called (es : list effect) : list Handler :=
  flat_map (fun e => match e with Call h _ => [h] | Log _ _ => [] end) es.

(** [url] matches the pattern of a route: [url.match(regex)] is an array. *)
Definition matches (r : route) (url : string) : Prop :=
  exists regex m, regex_of (pattern r) = Some regex
                  /\ String_match url regex = Some m.

(** The captured groups of the pattern of a route on [url]. *)
Definition captured (r : route) (url : string) (groups : list value) : Prop :=
  exists regex whole, regex_of (pattern r) = Some regex
                      /\ exec (prog regex) url = Some (whole :: groups).

End Host.

Arguments Route {engine Handler} _ _.
Arguments pattern {engine Handler} _.
Arguments handler {engine Handler} _.
Arguments Matched {Handler} _ _.
Arguments m_handler {Handler} _.
Arguments params {Handler} _.
Arguments Log {Handler} _ _.
Arguments Call {Handler} _ _.
Arguments new_RouteHandler {engine Handler}.
Arguments add {engine Handler} _ _ _.
Arguments match_ {engine Handler} _ _.
Arguments handle {engine Handler} _ _.
Arguments called {Handler} _.
Arguments matches {engine Handler} _ _.
Arguments captured {engine Handler} _ _ _.

End Routes.

(** ** A regular-expression engine for the route patterns

    The fragment of the regular expressions of the host that the route
    patterns of the template need: plain and quoted characters, [.],
    [[^/]], groups, [*] and [+] (greedy), [^] and [$].  A source text
    outside the fragment is refused. *)

Module MiniRegExp.
Import Text Routes.

Inductive rx : Type :=
| RxEmpty
| RxChar (c : ascii)
| RxAny                         (* [.]: any character but a line end *)
| RxNot (c : ascii)             (* [[^c]] *)
| RxBol                         (* [^] *)
| RxEol                         (* [$] *)
| RxSeq (a b : rx)
| RxStar (a : rx)
| RxGroup (i : nat) (a : rx).   (* the group opened by parenthesis [i] *)

Fixpoint seq_of (atoms : list rx) : rx :=
  match atoms with
  | [] => RxEmpty
  | [a] => a
  | a :: rest => RxSeq a (seq_of rest)
  end.

Definition is_anchor (a : rx) : bool :=
  match a with RxBol | RxEol => true | _ => false end.

Definition unsupported (c : ascii) : bool :=
  Ascii.eqb c "?" || Ascii.eqb c "{" || Ascii.eqb c "}" || Ascii.eqb c "|"
  || Ascii.eqb c "]".

(** The parser: [cur] holds the atoms of the group being read, last
    first; [stack] the groups around it; [next] numbers the parentheses. *)
Fixpoint parse (s : string) (next : nat) (cur : list rx)
    (stack : list (nat * list rx)) : option rx :=
  match s with
  | EmptyString =>
      match stack with
      | [] => Some (seq_of (rev cur))
      | _ => None
      end
  | String c s' =>
      if Ascii.eqb c "(" then parse s' (S next) [] ((next, cur) :: stack)
      else if Ascii.eqb c ")" then
        match stack with
        | (i, outer) :: stack' =>
            parse s' next (RxGroup i (seq_of (rev cur)) :: outer) stack'
        | [] => None
        end
      else if Ascii.eqb c "*" then
        match cur with
        | a :: cur' =>
            if is_anchor a then None else parse s' next (RxStar a :: cur') stack
        | [] => None
        end
      else if Ascii.eqb c "+" then
        match cur with
        | a :: cur' =>
            if is_anchor a then None
            else parse s' next (RxSeq a (RxStar a) :: cur') stack
        | [] => None
        end
      else if Ascii.eqb c "[" then
        match s' with
        | String "^" (String "/" (String "]" s'')) =>
            parse s'' next (RxNot "/" :: cur) stack
        | String "^" (String "\" (String "/" (String "]" s''))) =>
            parse s'' next (RxNot "/" :: cur) stack
        | _ => None
        end
      else if Ascii.eqb c "\" then
        match s' with
        | String d s'' =>
            if is_word d then None else parse s'' next (RxChar d :: cur) stack
        | EmptyString => None
        end
      else if Ascii.eqb c "^" then parse s' next (RxBol :: cur) stack
      else if Ascii.eqb c "$" then parse s' next (RxEol :: cur) stack
      else if Ascii.eqb c "." then parse s' next (RxAny :: cur) stack
      else if unsupported c then None
      else parse s' next (RxChar c :: cur) stack
  end.

Definition rx_compile (source : string) : option rx := parse source 0 [] [].

Fixpoint groups (r : rx) : nat :=
  match r with
  | RxSeq a b => Nat.max (groups a) (groups b)
  | RxStar a => groups a
  | RxGroup i a => Nat.max (S i) (groups a)
  | _ => 0
  end.

(** A place in the subject: how many characters lie before it, and the
    characters from it on. *)
Definition place : Type := nat * string.

Fixpoint set_nth {A} (i : nat) (x : A) (l : list A) : list A :=
  match i, l with
  | O, _ :: l' => x :: l'
  | S i', y :: l' => y :: set_nth i' x l'
  | _, [] => []
  end.

(** The backtracking matcher: [k] is what remains to be matched. *)
Fixpoint run {R} (r : rx) (p : place) (caps : list value)
    (k : place -> list value -> option R) : option R :=
  match r with
  | RxEmpty => k p caps
  | RxChar c =>
      match snd p with
      | String d rest => if Ascii.eqb c d then k (S (fst p), rest) caps else None
      | EmptyString => None
      end
  | RxAny =>
      match snd p with
      | String d rest =>
          if Ascii.eqb d nl || Ascii.eqb d "013" then None
          else k (S (fst p), rest) caps
      | EmptyString => None
      end
  | RxNot c =>
      match snd p with
      | String d rest => if Ascii.eqb c d then None else k (S (fst p), rest) caps
      | EmptyString => None
      end
  | RxBol => if Nat.eqb (fst p) 0 then k p caps else None
  | RxEol => match snd p with EmptyString => k p caps | _ => None end
  | RxSeq a b => run a p caps (fun p' caps' => run b p' caps' k)
  | RxGroup i a =>
      run a p caps (fun p' caps' =>
        k p' (set_nth i (Str (MiniSed.take (fst p' - fst p) (snd p))) caps'))
  | RxStar a =>
      (fix loop (fuel : nat) (p : place) (caps : list value) : option R :=
         match fuel with
         | O => k p caps
         | S fuel' =>
             match run a p caps (fun p' caps' =>
                     if Nat.ltb (fst p) (fst p') then loop fuel' p' caps'
                     else None) with
             | Some x => Some x
             | None => k p caps
             end
         end) (String.length (snd p)) p caps
  end.

(** The first match at or after a place: where it starts and ends, and
    its array. *)
Fixpoint find (r : rx) (p : place) (fuel : nat)
  : option (place * place * list value) :=
  match run r p (List.repeat Undefined (groups r))
            (fun p' caps => Some (p', caps)) with
  | Some (p', caps) =>
      Some (p, p', Str (MiniSed.take (fst p' - fst p) (snd p)) :: caps)
  | None =>
      match fuel, snd p with
      | S fuel', String _ rest => find r (S (fst p), rest) fuel'
      | _, _ => None
      end
  end.

Definition rx_exec (r : rx) (s : string) : option (list value) :=
  match find r (0, s) (String.length s) with
  | Some (_, _, array) => Some array
  | None => None
  end.

(** The matches one after the other; after an empty match the search
    goes on one character further. *)
Fixpoint collect (r : rx) (p : place) (fuel : nat) : list string :=
  match fuel with
  | O => []
  | S fuel' =>
      match find r p (String.length (snd p)) with
      | Some (p1, p2, Str whole :: _) =>
          whole ::
          (if Nat.ltb (fst p1) (fst p2) then collect r p2 fuel'
           else match snd p2 with
                | String _ rest => collect r (S (fst p2), rest) fuel'
                | EmptyString => []
                end)
      | _ => []
      end
  end.

Definition rx_all_matches (r : rx) (s : string) : list string :=
  collect r (0, s) (S (String.length s)).

#[export] Instance rx_engine : Engine := {|
  Prog := rx;
  compile := rx_compile;
  exec := rx_exec;
  all_matches := rx_all_matches
|}.

(** A RegExp literal, [/source/] or [/source/g]. *)
Definition regexp (source : string) (g : bool) : route_pattern :=
  match rx_compile source with
  | Some p => PRegExp (MkRegExp p g)
  | None => PString source
  end.

(** The route table of the template over this engine. *)
Inductive template_handler : Type :=
| HomePage
| UserPage
| PostComments
| SearchPage.

Definition router : list (route template_handler) :=
  add (regexp "^\/search\?.*" false) SearchPage
    (add (PString "/posts/:postId/comments") PostComments
      (add (PString "/user/:id") UserPage
        (add (PString "/home") HomePage new_RouteHandler))).

End MiniRegExp.

(** ** The bookmark store of the YouTube example (README.md) *)

Module Bookmarks.
Import Text.

Record bookmark : Type := Bookmark { time : Z; note : string }.

(** *** JSON.stringify and JSON.parse on lists of bookmarks *)

Definition dq : ascii := "034"%char.
Definition bs : ascii := "092"%char.

Definition hex_digit (n : nat) : ascii :=
  if (n <? 10)%nat then ascii_of_nat (48 + n) else ascii_of_nat (87 + n).

(** A character inside a JSON string. *)
Definition escape_char (c : ascii) : string :=
  let n := nat_of_ascii c in
  if Ascii.eqb c dq then String bs (String dq EmptyString)
  else if Ascii.eqb c bs then String bs (String bs EmptyString)
  else if Nat.eqb n 8 then String bs "b"
  else if Nat.eqb n 9 then String bs "t"
  else if Nat.eqb n 10 then String bs "n"
  else if Nat.eqb n 12 then String bs "f"
  else if Nat.eqb n 13 then String bs "r"
  else if (n <? 32)%nat then
    String bs ("u00" +:+ String (hex_digit (n / 16)) (String (hex_digit (n mod 16)) EmptyString))
  else String c EmptyString.

Fixpoint escape (s : string) : string :=
  match s with
  | EmptyString => EmptyString
  | String c s' => escape_char c +:+ escape s'
  end.

Definition quote (s : string) : string :=
  String dq (escape s +:+ String dq EmptyString).

(** An integer as JSON writes it: its decimal digits. *)
Definition number (z : Z) : string := NilZero.string_of_int (Z.to_int z).

Definition stringify_bookmark (b : bookmark) : string :=
  "{" +:+ quote "time" +:+ ":" +:+ number (time b) +:+ ","
      +:+ quote "note" +:+ ":" +:+ quote (note b) +:+ "}".

Fixpoint join_commas (items : list string) : string :=
  match items with
  | [] => EmptyString
  | [x] => x
  | x :: rest => x +:+ "," +:+ join_commas rest
  end.

(** [JSON.stringify(bookmarks)] *)
Definition JSON_stringify (bookmarks : list bookmark) : string :=
  "[" +:+ join_commas (List.map stringify_bookmark bookmarks) +:+ "]".

(** The parser reads the texts that [JSON.stringify] writes for a list of
    bookmarks, which are the only texts the script stores; on any other
    text it gives [None], as where [JSON.parse] throws. *)

(** [expect p s]: [s] without its prefix [p]. *)
Fixpoint expect (p s : string) : option string :=
  match p, s with
  | EmptyString, _ => Some s
  | String a p', String b s' => if Ascii.eqb a b then expect p' s' else None
  | String _ _, EmptyString => None
  end.

Definition digit_of (c : ascii) : option (Decimal.uint -> Decimal.uint) :=
  match c with
  | "0"%char => Some Decimal.D0 | "1"%char => Some Decimal.D1
  | "2"%char => Some Decimal.D2 | "3"%char => Some Decimal.D3
  | "4"%char => Some Decimal.D4 | "5"%char => Some Decimal.D5
  | "6"%char => Some Decimal.D6 | "7"%char => Some Decimal.D7
  | "8"%char => Some Decimal.D8 | "9"%char => Some Decimal.D9
  | _ => None
  end.

Fixpoint read_digits (s : string) : Decimal.uint * string :=
  match s with
  | EmptyString => (Decimal.Nil, EmptyString)
  | String c s' =>
      match digit_of c with
      | Some d => let (u, r) := read_digits s' in (d u, r)
      | None => (Decimal.Nil, s)
      end
  end.

Definition parse_number (s : string) : option (Z * string) :=
  match s with
  | String "-" s' =>
      match read_digits s' with
      | (Decimal.Nil, _) => None
      | (u, r) => Some (Z.of_int (Decimal.Neg u), r)
      end
  | _ =>
      match read_digits s with
      | (Decimal.Nil, _) => None
      | (u, r) => Some (Z.of_int (Decimal.Pos u), r)
      end
  end.

Definition hex_value (c : ascii) : option nat :=
  let n := nat_of_ascii c in
  if is_digit c then Some (n - 48)
  else if (97 <=? n)%nat && (n <=? 102)%nat then Some (n - 87)
  else if (65 <=? n)%nat && (n <=? 70)%nat then Some (n - 55)
  else None.

(** The characters of a string up to its closing quote, and what comes
    after the quote. *)
Fixpoint read_string_body (s : string) : option (string * string) :=
  let keep c rest :=
    match read_string_body rest with
    | Some (t, r) => Some (String c t, r)
    | None => None
    end in
  match s with
  | EmptyString => None
  | String c s' =>
      if Ascii.eqb c dq then Some (EmptyString, s')
      else if Ascii.eqb c bs then
        match s' with
        | String e s'' =>
            if Ascii.eqb e dq then keep dq s''
            else if Ascii.eqb e bs then keep bs s''
            else if Ascii.eqb e "/" then keep "/"%char s''
            else if Ascii.eqb e "b" then keep "008"%char s''
            else if Ascii.eqb e "t" then keep "009"%char s''
            else if Ascii.eqb e "n" then keep "010"%char s''
            else if Ascii.eqb e "f" then keep "012"%char s''
            else if Ascii.eqb e "r" then keep "013"%char s''
            else if Ascii.eqb e "u" then
              match s'' with
              | String "0" (String "0" (String h (String l s3))) =>
                  match hex_value h, hex_value l with
                  | Some x, Some y =>
                      if (16 * x + y <? 128)%nat
                      then keep (ascii_of_nat (16 * x + y)) s3
                      else None
                  | _, _ => None
                  end
              | _ => None
              end
            else None
        | EmptyString => None
        end
      else if (nat_of_ascii c <? 32)%nat then None
      else keep c s'
  end.

Definition parse_string (s : string) : option (string * string) :=
  match s with
  | String c s' => if Ascii.eqb c dq then read_string_body s' else None
  | EmptyString => None
  end.

Definition parse_bookmark (s : string) : option (bookmark * string) :=
  s1 ← expect ("{" +:+ quote "time" +:+ ":") s;
  '(t, s2) ← parse_number s1;
  s3 ← expect ("," +:+ quote "note" +:+ ":") s2;
  '(n, s4) ← parse_string s3;
  s5 ← expect "}" s4;
  Some (Bookmark t n, s5).

(** The elements after the opening bracket, up to the closing one. *)
Fixpoint parse_elements (fuel : nat) (s : string) : option (list bookmark * string) :=
  match fuel with
  | O => None
  | S fuel' =>
      '(b, s1) ← parse_bookmark s;
      match s1 with
      | String "," s2 =>
          '(rest, s3) ← parse_elements fuel' s2;
          Some (b :: rest, s3)
      | String "]" s2 => Some ([b], s2)
      | _ => None
      end
  end.

(** [JSON.parse(text)] *)
Definition JSON_parse (text : string) : option (list bookmark) :=
  match text with
  | String "[" (String "]" EmptyString) => Some []
  | String "[" s =>
      match parse_elements (String.length s) s with
      | Some (l, EmptyString) => Some l
      | _ => None
      end
  | _ => None
  end.

(** *** The script *)

(** The storage of the script manager: values by key. *)
Abbreviation storage := (gmap string string).

(** [GM_getValue(key, defaultValue)] and [GM_setValue(key, value)] *)
Definition GM_getValue (st : storage) (key default : string) : string :=
  match st !! key with
  | Some v => v
  | None => default
  end.
Definition GM_setValue (st : storage) (key value : string) : storage :=
  <[key := value]> st.

(** [getVideoId()] is the parameter [v] of the address of the page, or
    [null]; [getStorageKey()] puts it into a template. *)
Definition getStorageKey (videoId : option string) : string :=
  "bookmarks_" +:+ match videoId with Some v => v | None => "null" end.

(** [getBookmarks()]: [None] where [JSON.parse] throws. *)
Definition getBookmarks (st : storage) (videoId : option string)
  : option (list bookmark) :=
  JSON_parse (GM_getValue st (getStorageKey videoId) "[]").

(** [saveBookmarks(bookmarks)] *)
Definition saveBookmarks (st : storage) (videoId : option string)
    (bookmarks : list bookmark) : storage :=
  GM_setValue st (getStorageKey videoId) (JSON_stringify bookmarks).

(** [bookmarks.sort((a, b) => a.time - b.time)]: the sort of the host is
    stable; this is the stable insertion sort. *)
Fixpoint insert_by_time (x : bookmark) (l : list bookmark) : list bookmark :=
  match l with
  | [] => [x]
  | y :: l' =>
      if (time x <=? time y)%Z then x :: y :: l'
      else y :: insert_by_time x l'
  end.
Fixpoint sort_by_time (l : list bookmark) : list bookmark :=
  match l with
  | [] => []
  | x :: l' => insert_by_time x (sort_by_time l')
  end.

(** [addBookmark()]: [now] is [getCurrentTime()], the whole seconds of
    the video.  An exception of [getBookmarks] leaves the store as it
    is. *)
Definition addBookmark (st : storage) (videoId : option string) (now : Z)
  : storage :=
  match getBookmarks st videoId with
  | None => st
  | Some bookmarks =>
      if existsb (fun b => (time b =? now)%Z) bookmarks then st
      else saveBookmarks st videoId
             (sort_by_time (bookmarks ++ [Bookmark now EmptyString]))
  end.

(** [deleteBookmark(time)] *)
Definition deleteBookmark (st : storage) (videoId : option string) (t : Z)
  : storage :=
  match getBookmarks st videoId with
  | None => st
  | Some bookmarks =>
      saveBookmarks st videoId
        (List.filter (fun b => negb (time b =? t)%Z) bookmarks)
  end.

(** What the user does on a page: the page tells the video. *)
Inductive action : Type :=
| Add (videoId : option string) (now : Z)
| Delete (videoId : option string) (t : Z).

Definition step (st : storage) (a : action) : storage :=
  match a with
  | Add v now => addBookmark st v now
  | Delete v t => deleteBookmark st v t
  end.

(** The store after a history of actions, from the empty store of a new
    installation. *)
Definition after (history : list action) : storage :=
  List.fold_left step history ∅.

(** The invariant of one entry of the store. *)
Definition well_kept (text : string) : Prop :=
  exists bookmarks,
    text = JSON_stringify bookmarks
    /\ JSON_parse text = Some bookmarks
    /\ Sorted Z.le (List.map time bookmarks)
    /\ List.NoDup (List.map time bookmarks).

End Bookmarks.

(** ** The title and the icon host as the specification words them *)

Module Specified.
Import Text.

(** "lower-case the name" *)
Definition lower_case (name : string) : string := map_chars tolower name.

(** "replace separators with spaces": the separator of a script name is
    the hyphen. *)
Definition separators_to_spaces (name : string) : string :=
  map_chars (fun c => if Ascii.eqb c "-" then " "%char else c) name.

(** "upper-case the first letter of each word": a character is changed
    when it is a word character and the one before it is none. *)
Fixpoint capitalize_words (inside : bool) (s : string) : string :=
  match s with
  | EmptyString => EmptyString
  | String c rest =>
      String (if is_word c && negb inside then toupper c else c)
             (capitalize_words (is_word c) rest)
  end.

Definition title (name : string) : string :=
  capitalize_words false (separators_to_spaces (lower_case name)).

(** "strip scheme": what follows the first [://], when there is one. *)
Fixpoint after_scheme (url : string) : option string :=
  match url with
  | String ":" (String "/" (String "/" rest)) => Some rest
  | String _ url' => after_scheme url'
  | EmptyString => None
  end.
Definition strip_scheme (url : string) : string :=
  match after_scheme url with
  | Some rest => rest
  | None => url
  end.

(** "take the substring up to the first /" *)
Fixpoint up_to_slash (s : string) : string :=
  match s with
  | EmptyString => EmptyString
  | String c s' => if Ascii.eqb c "/" then EmptyString else String c (up_to_slash s')
  end.

(** "replace a literal wildcard character with a fixed default host" *)
Fixpoint wildcard_to_default (s : string) : string :=
  match s with
  | EmptyString => EmptyString
  | String c s' =>
      if Ascii.eqb c "*" then "example.com" +:+ s'
      else String c (wildcard_to_default s')
  end.

Definition icon_host (url : string) : string :=
  wildcard_to_default (up_to_slash (strip_scheme url)).

End Specified.

(** ** The run of the validator on a file that is there *)

Module ValidatorLogic.
Import Shell Validator.

(** The counters after the first finding. *)
Definition tally (f : out_line) : counters :=
  match f with
  | Error _ => Counters 1 0
  | Warning _ => Counters 0 1
  | Info _ => Counters 0 0
  end.

(** No check has found anything yet. *)
Definition clean (files : gmap string string) (s : shell counters) : Prop :=
  vars s = Counters 0 0 /\ fs s = files
  /\ List.filter is_finding (stdout s) = [].

(** The script ended on the finding [f]. *)
Definition aborted (files : gmap string string) (f : out_line)
    (s : shell counters) : Prop :=
  vars s = tally f /\ fs s = files
  /\ List.filter is_finding (stdout s) = [f].

(** A part [c] of the script goes with the list [F] of what its checks
    find in the file: from a clean state it ends the script with status 1
    on the first of them, and when there is none its outcome is [normal]. *)
Definition obeys {A} (files : gmap string string)
    (normal : outcome counters A -> Prop)
    (c : sh counters A) (F : list out_line) : Prop :=
  forall s, clean files s ->
    match F with
    | [] => normal (c s)
    | f :: _ => exists s', c s = Exited 1 s' /\ aborted files f s'
    end.

Definition goes_on (files : gmap string string)
    (o : outcome counters unit) : Prop :=
  exists s', o = Running tt s' /\ clean files s'.
Definition ends_well (files : gmap string string)
    (o : outcome counters unit) : Prop :=
  exists s', o = Exited 0 s' /\ clean files s'.

(** The text of a file with one more line at its head. *)
Definition with_line (line content : string) : string :=
  line +:+ String Text.nl content.

(** The declaration line of a grant, as the metadata block writes it. *)
Definition grant_declaration (func : string) : string :=
  "// " +:+ grant_line func.

End ValidatorLogic.

(** ** Sample route tables and notifications *)

Module RouteSamples.
Import Routes MiniRegExp.

Inductive two_handlers : Type := HandlerA | HandlerB.

(** [/^\/user\/([^\/]+)$/g] and ['/user/:id'] *)
Definition user_regexp_g : route_pattern := regexp "^\/user\/([^\/]+)$" true.

Definition global_first : list (route two_handlers) :=
  add (PString "/user/:id") HandlerB (add user_regexp_g HandlerA new_RouteHandler).

Definition plain_first : list (route two_handlers) :=
  add (PString "/user/*") HandlerB
    (add (PString "/user/:id") HandlerA new_RouteHandler).

End RouteSamples.

(** ** What a part of the generator does to the files *)

Module GeneratorLogic.
Import Shell Generator.




(** A host: no slash and no newline in it. *)
Definition host_chars (host : string) : bool :=
  Text.all_chars
    (fun c => negb (Ascii.eqb c "/") && negb (Ascii.eqb c Text.nl)) host.

End GeneratorLogic.

(** ** The invariant of the bookmark store *)

Module BookmarkLogic.
Import Bookmarks.

(** Every entry of the store is well kept. *)
Definition all_well_kept (st : storage) : Prop :=
  forall key text, st !! key = Some text -> well_kept text.

(** The video of the page on which an action takes place. *)
Definition video_of (a : action) : option string :=
  match a with
  | Add v _ => v
  | Delete v _ => v
  end.

(** A number ends where a text goes on with no digit. *)
Definition no_digit_head (s : string) : bool :=
  match s with
  | EmptyString => true
  | String c _ =>
      match digit_of c with
      | Some _ => false
      | None => true
      end
  end.

(** What reading a string gives when one more character [c] stands before
    what is read. *)
Definition keep_char (c : ascii) (o : option (string * string))
  : option (string * string) :=
  match o with
  | Some (t, r) => Some (String c t, r)
  | None => None
  end.

End BookmarkLogic.

(** ** The inputs on which the models stand for the tools *)

Module Scope.

(** A byte of ASCII other than NUL. *)
Definition is_plain (c : ascii) : bool :=
  (0 <? nat_of_ascii c)%nat && (nat_of_ascii c <? 128)%nat.

(** A text of such bytes: what a tool makes of it is the same in every
    locale. *)
Definition plain_text (s : string) : bool := Text.all_chars is_plain s.

(** A text without NUL bytes. *)
Definition no_nul (s : string) : bool :=
  Text.all_chars (fun c => negb (Ascii.eqb c "000")) s.

(** A path that a tool takes for the name of a file: one that starts with
    a dash is taken for options. *)
Definition names_a_file (path : string) : bool :=
  negb (Generator.starts_with "-" path).


(** An input at whose head [read -n 1] finds one byte. *)
Definition plain_reply (input : string) : bool :=
  match input with
  | EmptyString => true
  | String c _ => is_plain c
  end.

(** A call of the generator that the model stands for: a name and a URL
    of ASCII with no bar in them, a name that [cp] and [sed] take for the
    name of a file, such an input, and the directory of the templates
    given by an absolute path. *)
Definition plain_call (env : Generator.environment) (name url : string)
  : bool :=
  plain_text name && plain_text url && names_a_file name
  && negb (Generator.has_char "|" name) && negb (Generator.has_char "|" url)
  && plain_reply (Generator.stdin env)
  && Generator.starts_with "/" (Generator.TEMPLATES_DIR env).

End Scope.

(** ** The cases of generate-userscript.sh *)

Module GeneratorCases.
Import Shell Generator.

(** The [case] on [$TEMPLATE], with the default of [${3:-basic}]: the file
    of a template, or none for a word that names no template. *)
Definition template_file (env : environment) (arg3 : string) : option string :=
  let TEMPLATE := if String.eqb arg3 "" then "basic" else arg3 in
  if String.eqb TEMPLATE "basic" then
    Some (TEMPLATES_DIR env +:+ "/basic-template.user.js")
  else if String.eqb TEMPLATE "advanced" then
    Some (TEMPLATES_DIR env +:+ "/advanced-template.user.js")
  else if String.eqb TEMPLATE "spa" then
    Some (TEMPLATES_DIR env +:+ "/spa-compatible.user.js")
  else None.

(** The scripts of the six [sed -i] commands, in their order. *)
Definition sed_scripts (title url domain : string) : list string :=
  ["s|@name.*|@name         " +:+ title +:+ "|";
   "s|@match.*|@match        " +:+ url +:+ "|";
   "s|@icon.*|@icon         https://www.google.com/s2/favicons?sz=64\&domain="
     +:+ domain +:+ "|";
   "s|My Userscript|" +:+ title +:+ "|g";
   "s|Advanced Userscript Template|" +:+ title +:+ "|g";
   "s|SPA-Compatible Template|" +:+ title +:+ "|g"].

(** A text passed through sed under each script in turn. *)
Fixpoint sed_each (sed : string -> string -> option string)
    (scripts : list string) (text : string) : option string :=
  match scripts with
  | [] => Some text
  | script :: rest =>
      match sed script text with
      | Some text' => sed_each sed rest text'
      | None => None
      end
  end.

(** The script goes on past the question about an output file that is
    there already: there is no such file, or the first character of the
    input is [y] or [Y]. *)
Definition confirmed (env : environment) (files : gmap string string)
    (name : string) : bool :=
  match files !! (name +:+ ".user.js") with
  | None => true
  | Some _ =>
      match stdin env with
      | String c _ => Ascii.eqb c "y" || Ascii.eqb c "Y"
      | EmptyString => false
      end
  end.



(** A part of the script that only writes to the standard output. *)
Definition quiet (c : sh input unit) : Prop :=
  forall s, exists out, c s = Running tt (Shell (vars s) (fs s) out).

End GeneratorCases.

(** ** initPage (templates/spa-compatible.user.js) *)

Module Page.
Import Routes.

Section Host.
Context {engine : Engine}.
Variable Handler : Type.

(** What one run of [initPage] does: lines of [log], what [router.handle]
    does, and the line of [console.error] in the [catch].  The handlers of
    the routes are [async] functions: a call of one returns a promise, and
    what goes wrong inside it is not seen by the [try] of [initPage]. *)
Inductive trace : Type :=
| Logged (arguments : list string)
| Routed (e : effect Handler)
| ConsoleError (arguments : list string).

(** [defaultPageLogic()] *)
Definition defaultPageLogic : list trace :=
  [Logged ["Default page logic executed"]].

(** [initPage()], with [pathname] for [location.pathname]. *)
Definition initPage (routes : list (route Handler)) (pathname : string)
  : list trace :=
  Logged ["Initializing page:"; pathname] ::
  match handle routes pathname with
  | Return (handled, effects) =>
      List.map Routed effects ++
      (if handled then []
       else Logged ["No specific route handler, running default logic"]
            :: defaultPageLogic)
  | Throw => [ConsoleError ["Error initializing page:"]]
  end.

(** The pattern of a route is well formed and does not match [url]. *)
Definition misses (r : route Handler) (url : string) : Prop :=
  exists regex, regex_of (pattern r) = Some regex
                /\ String_match url regex = None.

(** The pattern of a route is a string that gives no regular
    expression. *)
Definition malformed (r : route Handler) : Prop :=
  regex_of (pattern r) = None.

End Host.

Arguments Logged {Handler} _.
Arguments Routed {Handler} _.
Arguments ConsoleError {Handler} _.
Arguments defaultPageLogic {Handler}.
Arguments initPage {engine Handler} _ _.
Arguments misses {engine Handler} _ _.
Arguments malformed {engine Handler} _.

End Page.

(** ** onLocationChange (templates/spa-compatible.user.js; Pattern 5 of
       SKILL.md has the observer alone) *)

Module Navigation.

(** What reaches the two listeners, with [location.href] as it is when
    the listener runs: a notification of the MutationObserver, or a
    [popstate] event of the window. *)
Inductive event : Type :=
| Mutation (href : string)
| Popstate (href : string).

Definition href_of (e : event) : string :=
  match e with Mutation href => href | Popstate href => href end.

Inductive effect : Type :=
| Log (message url : string)
| Callback (url : string).

(** The variable [lastUrl], which the two listeners share, and what they
    have done so far. *)
Record detector : Type := Detector {
  lastUrl : string;
  effects : list effect
}.

(** [let lastUrl = location.href] *)
Definition start (href : string) : detector := Detector href [].

(** One listener runs. *)
Definition on_event (d : detector) (e : event) : detector :=
  match e with
  | Mutation currentUrl =>
      if negb (String.eqb currentUrl (lastUrl d)) then
        Detector currentUrl
          (effects d ++ [Log "Navigation detected:" currentUrl;
                         Callback currentUrl])
      else d
  | Popstate currentUrl =>
      if negb (String.eqb currentUrl (lastUrl d)) then
        Detector currentUrl
          (effects d ++ [Log "Navigation detected (popstate):" currentUrl;
                         Callback currentUrl])
      else d
  end.

Definition run (d : detector) (es : list event) : detector :=
  List.fold_left on_event es d.

(** The URLs the callback was called with, in order. *)
Definition callbacks (d : detector) : list string :=
  flat_map (fun e => match e with Callback url => [url] | Log _ _ => [] end)
           (effects d).

End Navigation.

(** ** Where the location changes *)

Module NavigationLogic.

(** The URLs of a list that differ from the one before them, [prev]
    standing before the first. *)
Fixpoint changes (prev : string) (urls : list string) : list string :=
  match urls with
  | [] => []
  | url :: rest =>
      if String.eqb url prev then changes url rest
      else url :: changes url rest
  end.

(** No URL of the list is the one before it. *)
Fixpoint adjacent_differ (prev : string) (urls : list string) : Prop :=
  match urls with
  | [] => True
  | url :: rest => url <> prev /\ adjacent_differ url rest
  end.

End NavigationLogic.

(** ** formatTime, init and makeDraggable (the example of README.md) *)

Module TimeLabel.
Import Bookmarks.

(** [s.padStart(n, c)] for a one-character [c]. *)
Fixpoint repeat_char (n : nat) (c : ascii) : string :=
  match n with
  | O => EmptyString
  | S n' => String c (repeat_char n' c)
  end.
Definition padStart (n : nat) (c : ascii) (s : string) : string :=
  repeat_char (n - String.length s) c +:+ s.

(** The largest whole number below which every whole number is a number
    of the host, exactly. *)
Definition MAX_SAFE_INTEGER : Z := 9007199254740991.

(** [formatTime(seconds)] on a whole number of seconds: [Math.floor] of
    the quotient rounds down, [%] takes the sign of the dividend, and a
    number is written in decimal digits.  This is what the host computes
    for the whole numbers up to [MAX_SAFE_INTEGER] in size. *)
Definition formatTime (seconds : Z) : string :=
  let mins := (seconds / 60)%Z in
  let secs := Z.rem seconds 60 in
  number mins +:+ ":" +:+ padStart 2 "0" (number secs).

(** The value of a text of two decimal digits. *)
Definition two_digits (s : string) : option Z :=
  match s with
  | String a (String b EmptyString) =>
      if Text.is_digit a && Text.is_digit b
      then Some (Z.of_nat ((nat_of_ascii a - 48) * 10 + (nat_of_ascii b - 48)))
      else None
  | _ => None
  end.

End TimeLabel.

Module VideoPoll.

(** What can be seen of [init]: whether the interval of [setInterval] is
    live, how many times the user interface was set up (the button, the
    panel and the list), and the lines of [log]. *)
Record poller : Type := Poller {
  interval : bool;
  setups : nat;
  logged : list (list string)
}.

(** [init()], with [videoId] for [getVideoId()]; [null] and the empty
    text are falsy. *)
Definition init (videoId : option string) : poller :=
  match videoId with
  | Some v =>
      if String.eqb v "" then Poller false 0 [["Not on a video page"]]
      else Poller true 0 [["Initializing for video:"; v]]
  | None => Poller false 0 [["Not on a video page"]]
  end.

(** The callback of the interval, with what
    [document.querySelector('video')] finds at that time. *)
Definition callback (p : poller) (video : bool) : poller :=
  if video then Poller false (S (setups p)) (logged p ++ [["Ready!"]])
  else p.

(** The host runs the callback every 500 ms while the interval is live. *)
Definition tick (p : poller) (video : bool) : poller :=
  if interval p then callback p video else p.

Definition run (p : poller) (ticks : list bool) : poller :=
  List.fold_left tick ticks p.

(** The page is the page of a video: the address has a parameter [v]
    that is not empty. *)
Definition on_video_page (videoId : option string) : Prop :=
  exists v, videoId = Some v /\ v <> EmptyString.

End VideoPoll.

Module Draggable.

(** The events that reach the three listeners: [mousedown] on the handle,
    with the pointer and with [element.offsetLeft] and [element.offsetTop]
    as they are then; [mousemove] and [mouseup] on the document.  The
    coordinates are whole numbers of pixels. *)
Inductive event : Type :=
| Mousedown (clientX clientY offsetLeft offsetTop : Z)
| Mousemove (clientX clientY : Z)
| Mouseup.

(** The variables of the closure and what the listeners have written to
    the style of the element; [None] stands for a property the listeners
    have not written. *)
Record dragger : Type := Dragger {
  isDragging : bool;
  initialX : Z;
  initialY : Z;
  left : option Z;              (* [element.style.left], in px *)
  top : option Z;               (* [element.style.top], in px *)
  right_auto : bool;            (* [element.style.right = 'auto'] *)
  prevented : nat               (* calls of [e.preventDefault()] *)
}.

(** [makeDraggable(element, handle)]; [initialX] and [initialY] are
    undefined until the first [mousedown] and not read before it. *)
Definition makeDraggable : dragger := Dragger false 0 0 None None false 0.

Definition on_event (d : dragger) (e : event) : dragger :=
  match e with
  | Mousedown clientX clientY offsetLeft offsetTop =>
      Dragger true (clientX - offsetLeft)%Z (clientY - offsetTop)%Z
              (left d) (top d) (right_auto d) (prevented d)
  | Mousemove clientX clientY =>
      if isDragging d then
        Dragger true (initialX d) (initialY d)
                (Some (clientX - initialX d)%Z) (Some (clientY - initialY d)%Z)
                true (S (prevented d))
      else d
  | Mouseup =>
      Dragger false (initialX d) (initialY d)
              (left d) (top d) (right_auto d) (prevented d)
  end.

Definition run (d : dragger) (es : list event) : dragger :=
  List.fold_left on_event es d.

Definition is_move (e : event) : bool :=
  match e with Mousemove _ _ => true | _ => false end.

End Draggable.

(** ** Settings (templates/advanced-template.user.js; ScriptSettings of
       SKILL.md) *)

Module Settings.

Section Values.

(** The values that are stored and given as defaults: any value but
    [undefined], which is [None] here. *)
Variable V : Type.

(** What a property that is not the object's own is found to be on its
    prototype ([toString], [constructor] and the like). *)
Variable inherited : string -> option V.

(** [GM_getValue(key)], with no default: [undefined] for a key that has
    no value. *)
Definition GM_getValue (st : gmap string V) (key : string) : option V :=
  st !! key.

(** [this.defaults[key]] *)
Definition default_of (defaults : gmap string V) (key : string) : option V :=
  match defaults !! key with
  | Some d => Some d
  | None => inherited key
  end.

(** [get(key)] *)
Definition get (defaults st : gmap string V) (key : string) : option V :=
  match GM_getValue st key with
  | Some value => Some value
  | None => default_of defaults key
  end.

(** [set(key, value)] *)
Definition set (st : gmap string V) (key : string) (value : V)
  : gmap string V :=
  <[key := value]> st.

(** [getAll()]: one property for each key of the defaults (the prototype
    of a plain object has no property that [for ... in] lists). *)
Definition getAll (defaults st : gmap string V) : gmap string (option V) :=
  map_imap (fun key _ => Some (get defaults st key)) defaults.

End Values.

End Settings.

(** ** debounce (templates/advanced-template.user.js, SKILL.md) *)

Module Debounce.

(** The largest delay of a timer: the largest signed integer of 32 bits. *)
Definition MAX_DELAY : Z := 2147483647.

Section Args.

(** The arguments of a call of the debounced function, and the delay in
    milliseconds.  [setTimeout] takes a delay from 0 to [MAX_DELAY] as it
    is; the properties are stated for such a delay. *)
Variable A : Type.
Variable wait : Z.

(** A call of the debounced function at a time, and the host running the
    callback of a timer at a time. *)
Inductive event : Type :=
| Call (now : Z) (args : A)
| Fire (now : Z) (id : nat).

(** The variable [timeout] of the closure; the timers of the closure that
    are set and neither cleared nor run, with the time they are due at and
    the arguments they hold; the id that the next [setTimeout] returns;
    and the calls of [func], with their times. *)
Record debounced : Type := Debounced {
  timeout : option nat;
  timers : gmap nat (Z * A);
  next_id : nat;
  invoked : list (Z * A)
}.

(** [debounce(func, wait)] *)
Definition debounce : debounced := Debounced None ∅ 0 [].

(** [clearTimeout(timeout)]: nothing for [undefined] and for the id of a
    timer that has run. *)
Definition clearTimeout (id : option nat) (ts : gmap nat (Z * A))
  : gmap nat (Z * A) :=
  match id with
  | Some i => delete i ts
  | None => ts
  end.

Definition on_event (d : debounced) (e : event) : debounced :=
  match e with
  | Call now args =>
      Debounced (Some (next_id d))
                (<[next_id d := ((now + wait)%Z, args)]>
                   (clearTimeout (timeout d) (timers d)))
                (S (next_id d)) (invoked d)
  | Fire now id =>
      match timers d !! id with
      | Some (due, args) =>
          if (due <=? now)%Z then
            Debounced (timeout d) (delete id (timers d)) (next_id d)
                      (invoked d ++ [(now, args)])
          else d
      | None => d
      end
  end.

Definition run (d : debounced) (es : list event) : debounced :=
  List.fold_left on_event es d.

Definition is_fire (e : event) : bool :=
  match e with Fire _ _ => true | Call _ _ => false end.

End Args.

Arguments Call {A} _ _.
Arguments Fire {A} _ _.
Arguments Debounced {A} _ _ _ _.
Arguments timeout {A} _.
Arguments timers {A} _.
Arguments next_id {A} _.
Arguments invoked {A} _.
Arguments debounce {A}.
Arguments on_event {A} _ _ _.
Arguments run {A} _ _ _.
Arguments is_fire {A} _.

End Debounce.

(** ** The invariant of a debounced function *)

Module DebounceLogic.
Import Debounce.

(** The closure after the events [es]: a timer that is live is the one
    [timeout] names, it holds the arguments of a call and is due [wait]
    after it; [func] was called with the arguments of a call, [wait] or
    more after it. *)
Definition kept {A} (wait : Z) (es : list (event A)) (d : debounced A) : Prop :=
  (forall id x, timers d !! id = Some x -> timeout d = Some id)
  /\ (forall id due a, timers d !! id = Some (due, a) ->
        exists c, In (Call c a) es /\ due = (c + wait)%Z)
  /\ Forall (fun '(t, a) => exists c, In (Call c a) es /\ (c + wait <= t)%Z)
            (invoked d).

End DebounceLogic.

(** * Properties *)

(** ** The models on small inputs *)

Module Examples.
Import Text Shell.

Example lines_unended : lines ("a" +:+ String nl "b") = ["a"; "b"].
Proof. reflexivity. Qed.

Example lines_ended : lines ("a" +:+ String nl "") = ["a"].
Proof. reflexivity. Qed.

Example namespace_counts_as_name :
  Regex.selects (Validator.p_field "@name") "// @namespace    x" = true.
Proof. reflexivity. Qed.

Example indented_field_does_not_count :
  Regex.selects (Validator.p_field "@name") "  // @name x" = false.
Proof. reflexivity. Qed.

Example tidy_script_passes :
  Validator.exit_status {[ "tidy.user.js" := Samples.tidy_script ]} "tidy.user.js" = 0%Z
  /\ Validator.reported {[ "tidy.user.js" := Samples.tidy_script ]} "tidy.user.js" = [].
Proof. vm_compute. split; reflexivity. Qed.

Example missing_file_fails :
  Validator.exit_status ∅ "nowhere.user.js" = 1%Z.
Proof. reflexivity. Qed.

Example title_dark_mode : Generator.SCRIPT_TITLE "dark-mode" = "Dark Mode".
Proof. reflexivity. Qed.

Example title_after_dot : Generator.SCRIPT_TITLE "foo.bar" = "Foo.Bar".
Proof. reflexivity. Qed.

Example title_of_echo_option : Generator.SCRIPT_TITLE "-n" = "".
Proof. reflexivity. Qed.

Example domain_youtube :
  Generator.DOMAIN "https://www.youtube.com/*" = "www.youtube.com".
Proof. reflexivity. Qed.

Example domain_wildcard_host :
  Generator.DOMAIN "https://*.github.com/*" = "example.com.github.com".
Proof. reflexivity. Qed.

Example domain_without_scheme :
  Generator.DOMAIN "example.com/foo" = "example.com/foo".
Proof. reflexivity. Qed.

Example generated_metadata :
  let o := Generator.run MiniSed.sed (fun _ => true) Samples.linux
             Samples.skill_files "dark-mode" "https://github.com/*" "" in
  status o = 0%Z
  /\ (lines <$> (fs (final o) !! "dark-mode.user.js")) ≫= (.!! 1%nat)
     = Some "// @name         Dark Mode"
  /\ (lines <$> (fs (final o) !! "dark-mode.user.js")) ≫= (.!! 6%nat)
     = Some "// @match        https://github.com/*"
  /\ (lines <$> (fs (final o) !! "dark-mode.user.js")) ≫= (.!! 7%nat)
     = Some "// @icon         https://www.google.com/s2/favicons?sz=64&domain=github.com".
Proof. vm_compute. repeat split. Qed.

Example unknown_template_fails :
  status (Generator.run MiniSed.sed (fun _ => true) Samples.linux
            Samples.skill_files "dark-mode" "https://github.com/*" "fancy")
  = 1%Z.
Proof. reflexivity. Qed.

Example found_at_once :
  Wait.state (Wait.waitForElement Wait.SpaCompatible "#app" 10000 0 (Some 7))
  = Wait.Fulfilled 7.
Proof. reflexivity. Qed.

Example found_later :
  Wait.state
    (Wait.run (Wait.waitForElement Wait.SpaCompatible "#app" 10000 0 None)
       [Wait.Notification 20 None; Wait.Notification 50 (Some 7);
        Wait.Notification 20000 None])
  = Wait.Fulfilled 7.
Proof. reflexivity. Qed.

Example source_of_user_route :
  Routes.regex_source "/user/:id" = "^/user/([^/]+)$".
Proof. reflexivity. Qed.

Example source_of_star_route :
  Routes.regex_source "/files/*" = "^/files/.*$".
Proof. reflexivity. Qed.

Example template_routes :
  List.map (Routes.match_ MiniRegExp.router)
           ["/home"; "/user/42"; "/posts/7/comments"; "/search?q=1"; "/nope"]
  = [Routes.Return (Some (Routes.Matched MiniRegExp.HomePage []));
     Routes.Return (Some (Routes.Matched MiniRegExp.UserPage [Routes.Str "42"]));
     Routes.Return (Some (Routes.Matched MiniRegExp.PostComments [Routes.Str "7"]));
     Routes.Return (Some (Routes.Matched MiniRegExp.SearchPage []));
     Routes.Return None].
Proof. vm_compute. reflexivity. Qed.

Example all_matches_of_global :
  MiniRegExp.rx_all_matches (default MiniRegExp.RxEmpty (MiniRegExp.rx_compile "a*")) "baac"
  = [""; "aa"; ""; ""].
Proof. reflexivity. Qed.

Example bookmarks_of_a_history :
  Bookmarks.getBookmarks
    (Bookmarks.after
       [Bookmarks.Add (Some "dQw4") 30; Bookmarks.Add (Some "dQw4") 10;
        Bookmarks.Add (Some "dQw4") 30; Bookmarks.Add (Some "dQw4") 20;
        Bookmarks.Delete (Some "dQw4") 10])
    (Some "dQw4")
  = Some [Bookmarks.Bookmark 20 ""; Bookmarks.Bookmark 30 ""].
Proof. vm_compute. reflexivity. Qed.

Example json_text_length :
  String.length (Bookmarks.JSON_stringify [Bookmarks.Bookmark 5 ""]) = 22.
Proof. reflexivity. Qed.

End Examples.

(** ** The validator *)

Module ValidatorFacts.
Import Text Regex Shell Validator ValidatorLogic.

Lemma filter_finding_Info (ls : list string) :
  List.filter is_finding (List.map Info ls) = [].
Proof. induction ls; simpl; auto. Qed.

Section Run.
Variable files : gmap string string.
Variables path content : string.
Hypothesis Hfile : files !! path = Some content.

Lemma clean_echo_info s t :
  clean files s -> clean files (Shell (vars s) (fs s) (stdout s ++ [Info t])).
Proof.
  intros (Hv & Hf & Ho). repeat split; simpl; auto.
  rewrite List.filter_app, Ho. reflexivity.
Qed.

Lemma obeys_seq {A} (normal : outcome counters A -> Prop)
    (c : sh counters unit) (k : sh counters A) F1 F2 :
  obeys files (goes_on files) c F1 -> obeys files normal k F2 ->
  obeys files normal (c ;; k) (F1 ++ F2).
Proof.
  intros Hc Hk s Hs. specialize (Hc s Hs). unfold mbind, sh_bind.
  destruct F1 as [|f F1]; simpl.
  - destruct Hc as (s' & -> & Hs'). apply Hk, Hs'.
  - destruct Hc as (s' & -> & Hs'). eauto.
Qed.

Lemma obeys_info {A} (normal : outcome counters A -> Prop) t
    (k : sh counters A) F :
  obeys files normal k F -> obeys files normal (echo (Info t) ;; k) F.
Proof.
  intros Hk s Hs. unfold mbind, sh_bind, echo. apply Hk, clean_echo_info, Hs.
Qed.

Lemma obeys_when_false {A} (normal : outcome counters A -> Prop) body
    (k : sh counters A) F :
  obeys files normal k F -> obeys files normal (when false body ;; k) F.
Proof. intros Hk s Hs. apply Hk, Hs. Qed.

Lemma obeys_test_f {A} (normal : outcome counters A -> Prop)
    (k : bool -> sh counters A) F :
  obeys files normal (k true) F -> obeys files normal (test_f path ≫= k) F.
Proof.
  intros Hk s Hs. unfold mbind, sh_bind, test_f.
  replace (fs s) with files by (symmetry; apply Hs).
  rewrite bool_decide_eq_true_2 by (rewrite Hfile; eauto). apply Hk, Hs.
Qed.

Lemma obeys_grep_q {A} (normal : outcome counters A -> Prop) p
    (k : bool -> sh counters A) F :
  obeys files normal (k (Regex.grep_q p content)) F ->
  obeys files normal (Shell.grep_q p path ≫= k) F.
Proof.
  intros Hk s Hs. unfold mbind, sh_bind, Shell.grep_q.
  destruct Hs as (Hv & Hf & Ho). rewrite Hf, Hfile. apply Hk. repeat split; auto.
Qed.

Lemma obeys_grep_q_if {A} (normal : outcome counters A -> Prop) (b d : bool) p
    (k : bool -> sh counters A) F :
  obeys files normal (k (if b then Regex.grep_q p content else d)) F ->
  obeys files normal ((if b then Shell.grep_q p path else mret d) ≫= k) F.
Proof.
  destruct b; [apply obeys_grep_q|]. intros Hk s Hs. apply Hk, Hs.
Qed.

Lemma obeys_grep_q_unless {A} (normal : outcome counters A -> Prop) (b d : bool) p
    (k : bool -> sh counters A) F :
  obeys files normal (k (if b then d else Regex.grep_q p content)) F ->
  obeys files normal ((if b then mret d else Shell.grep_q p path) ≫= k) F.
Proof.
  destruct b; [|apply obeys_grep_q]. intros Hk s Hs. apply Hk, Hs.
Qed.

Lemma obeys_grep_print {A} (normal : outcome counters A -> Prop) p
    (k : bool -> sh counters A) F :
  obeys files normal (k (Regex.grep_q p content)) F ->
  obeys files normal (Shell.grep_print p path ≫= k) F.
Proof.
  intros Hk s Hs. unfold mbind, sh_bind, Shell.grep_print.
  destruct Hs as (Hv & Hf & Ho). rewrite Hf, Hfile. apply Hk.
  repeat split; simpl; auto.
  rewrite List.filter_app, Ho, filter_finding_Info. reflexivity.
Qed.

Lemma obeys_grep_c {A} (normal : outcome counters A -> Prop) p
    (k : Z -> sh counters A) F :
  obeys files normal (k (Regex.grep_c p content)) F ->
  obeys files normal (Shell.grep_c p path ≫= k) F.
Proof.
  intros Hk s Hs. unfold mbind, sh_bind, Shell.grep_c.
  destruct Hs as (Hv & Hf & Ho). rewrite Hf, Hfile. apply Hk. repeat split; auto.
Qed.

(** The heart of the matter: under [set -e] the first increment of a
    counter, from 0, ends the script with status 1. *)
Lemma obeys_error (c : bool) msg :
  obeys files (goes_on files)
        (when c (echo (Error msg);; errexit incr_ERRORS))
        (finding_if c (Error msg)).
Proof.
  intros s (Hv & Hf & Ho). destruct c; simpl.
  - unfold mbind, sh_bind, echo, errexit, incr_ERRORS, mbind, sh_bind,
      get, put, mret, sh_ret, exit_.
    simpl. rewrite Hv. simpl. eexists. split; [reflexivity|].
    repeat split; simpl; auto. rewrite List.filter_app, Ho. reflexivity.
  - eexists. split; [reflexivity|]. repeat split; auto.
Qed.

Lemma obeys_warning (c : bool) msg :
  obeys files (goes_on files)
        (when c (echo (Warning msg);; errexit incr_WARNINGS))
        (finding_if c (Warning msg)).
Proof.
  intros s (Hv & Hf & Ho). destruct c; simpl.
  - unfold mbind, sh_bind, echo, errexit, incr_WARNINGS, mbind, sh_bind,
      get, put, mret, sh_ret, exit_.
    simpl. rewrite Hv. simpl. eexists. split; [reflexivity|].
    repeat split; simpl; auto. rewrite List.filter_app, Ho. reflexivity.
  - eexists. split; [reflexivity|]. repeat split; auto.
Qed.

Lemma obeys_for {A} (xs : list A) body (G : A -> list out_line) :
  (forall x, obeys files (goes_on files) (body x) (G x)) ->
  obeys files (goes_on files) (for_ xs body) (flat_map G xs).
Proof.
  intros Hb. induction xs as [|x xs IH]; simpl.
  - intros s Hs. eexists. split; [reflexivity|auto].
  - apply obeys_seq; auto.
Qed.

Lemma obeys_field field :
  obeys files (goes_on files)
    (found ← Shell.grep_q (p_field field) path;
     if negb found then echo (Error (missing_msg field));; errexit incr_ERRORS
     else echo (Info ("Found " +:+ field)))
    (check_field content field).
Proof.
  apply obeys_grep_q. unfold check_field.
  destruct (Regex.grep_q (p_field field) content); simpl.
  - intros s Hs. eexists. split; [reflexivity|]. apply clean_echo_info, Hs.
  - apply (obeys_error true).
Qed.

Lemma obeys_grant func :
  obeys files (goes_on files)
    (used ← Shell.grep_q (p_func func) path;
     when used
       (granted ← Shell.grep_q (p_grant func) path;
        when (negb granted)
          (echo (Error (nogrant_msg func));; errexit incr_ERRORS)))
    (check_grant content func).
Proof.
  apply obeys_grep_q. unfold check_grant.
  destruct (Regex.grep_q (p_func func) content); simpl.
  - apply obeys_grep_q. apply obeys_error.
  - intros s Hs. eexists. split; [reflexivity|auto].
Qed.

Lemma and_if_false (b q : bool) :
  b && negb (if b then q else false) = b && negb q.
Proof. destruct b; reflexivity. Qed.

Lemma nand_if_true (b q : bool) :
  negb b && negb (if b then true else q) = negb b && negb q.
Proof. destruct b; reflexivity. Qed.

(** The whole script on a file that is there: it stops at the first thing
    that any check finds, and reaches its summary only when there is
    nothing to find. *)
Lemma validate_obeys :
  path <> "" ->
  obeys files (ends_well files) (validate_userscript path) (findings content).
Proof.
  intros Hne. unfold validate_userscript, findings.
  destruct (String.eqb_spec path ""); [contradiction|].
  apply obeys_when_false. apply obeys_test_f. apply obeys_when_false.
  do 4 apply obeys_info.
  apply obeys_seq. { apply obeys_for. apply obeys_field. }
  do 2 apply obeys_info.
  apply obeys_seq. { apply obeys_for. apply obeys_grant. }
  apply obeys_grep_q.
  apply obeys_seq.
  { destruct (Regex.grep_q p_unsafeWindow content); simpl.
    - apply obeys_grep_q. apply obeys_warning.
    - intros s Hs. eexists. split; [reflexivity|auto]. }
  do 3 apply obeys_info.
  apply obeys_grep_print. apply obeys_seq; [apply obeys_warning|].
  apply obeys_grep_q. apply obeys_grep_q_if. rewrite and_if_false.
  apply obeys_seq; [apply obeys_warning|].
  apply obeys_grep_q. apply obeys_grep_q_if. rewrite and_if_false.
  apply obeys_seq; [apply obeys_warning|].
  do 3 apply obeys_info.
  apply obeys_grep_q. apply obeys_seq; [apply obeys_error|].
  apply obeys_grep_print. apply obeys_seq; [apply obeys_warning|].
  apply obeys_grep_q. apply obeys_seq; [apply obeys_warning|].
  do 3 apply obeys_info.
  apply obeys_grep_q. apply obeys_grep_q_unless. rewrite nand_if_true.
  apply obeys_seq; [apply obeys_warning|].
  apply obeys_grep_q. apply obeys_grep_q_unless. rewrite nand_if_true.
  apply obeys_seq; [apply obeys_warning|].
  apply obeys_grep_c.
  rewrite <- (app_nil_r (finding_if _ _)).
  apply obeys_seq; [apply obeys_warning|].
  do 4 apply obeys_info.
  intros s Hs. unfold mbind, sh_bind, get.
  destruct Hs as (Hv & Hf & Ho). rewrite Hv. simpl.
  unfold echo, exit_. simpl. eexists. split; [reflexivity|].
  repeat split; simpl; auto. rewrite List.filter_app, Ho. reflexivity.
Qed.

Lemma run_found :
  path <> "" ->
  match findings content with
  | [] => exists s, run files path = Exited 0 s /\ clean files s
  | f :: _ => exists s, run files path = Exited 1 s /\ aborted files f s
  end.
Proof.
  intros Hne. pose proof (validate_obeys Hne) as H.
  specialize (H (Shell (Counters 0 0) files [])).
  unfold run. destruct (findings content); apply H; repeat split.
Qed.

(** The exit status is 0 exactly when no check finds anything, warnings
    included. *)
Lemma exit_status_found :
  path <> "" ->
  exit_status files path = 0%Z <-> findings content = [].
Proof.
  intros Hne. pose proof (run_found Hne) as H. unfold exit_status.
  destruct (findings content) as [|f F].
  - destruct H as (s & -> & _). simpl. tauto.
  - destruct H as (s & -> & _). simpl. split; discriminate.
Qed.

(** Of all that the checks find, the first alone is reported. *)
Lemma reported_found :
  path <> "" ->
  reported files path = List.firstn 1 (findings content).
Proof.
  intros Hne. pose proof (run_found Hne) as H. unfold reported, output.
  destruct (findings content) as [|f F].
  - destruct H as (s & -> & Hs). apply Hs.
  - destruct H as (s & -> & Hs). apply Hs.
Qed.

End Run.

(** A usage error and a missing file end the script before any check. *)
Lemma run_no_file files path :
  path = "" \/ files !! path = None ->
  exists s, run files path = Exited 1 s /\ fs s = files
            /\ vars s = Counters 0 0 /\ List.filter is_finding (stdout s) = [].
Proof.
  intros H. unfold run, validate_userscript.
  destruct (String.eqb_spec path "") as [->|Hne].
  - eexists. split; [reflexivity|]. repeat split.
  - destruct H as [H|H]; [contradiction|].
    unfold mbind, sh_bind, when, test_f, mret, sh_ret. simpl.
    rewrite bool_decide_eq_false_2 by (rewrite H; intros [? ?]; discriminate).
    simpl. eexists. split; [reflexivity|]. repeat split.
Qed.

(** The validator leaves the file system as it found it. *)
Lemma run_keeps_files files path : fs (final (run files path)) = files.
Proof.
  destruct (String.eqb_spec path "") as [->|Hne].
  - destruct (run_no_file files "" (or_introl eq_refl)) as (s & -> & Hf & _).
    exact Hf.
  - destruct (files !! path) as [content|] eqn:E.
    + pose proof (run_found files path content E Hne) as H.
      destruct (findings content); destruct H as (s & -> & Hs); apply Hs.
    + destruct (run_no_file files path (or_intror E)) as (s & -> & Hf & _).
      exact Hf.
Qed.

(** Any finding, an error or a warning, makes the exit status 1. *)
Lemma exit_status_finding files path content :
  files !! path = Some content -> path <> "" ->
  findings content <> [] -> exit_status files path = 1%Z.
Proof.
  intros Hf Hne Hfind. pose proof (run_found files path content Hf Hne) as H.
  unfold exit_status. destruct (findings content); [contradiction|].
  destruct H as (s & -> & _). reflexivity.
Qed.

(** A file that lacks a required field fails, with an error reported. *)
Lemma missing_field_fails files path content field :
  files !! path = Some content -> path <> "" ->
  In field required_fields ->
  Regex.grep_q (p_field field) content = false ->
  exit_status files path = 1%Z
  /\ exists f, reported_errors files path = [Error (missing_msg f)].
Proof.
  intros Hf Hne Hin Hmiss.
  assert (exists f rest, findings content = Error (missing_msg f) :: rest)
    as (f & rest & E).
  { unfold findings, required_fields, check_field in *. simpl flat_map.
    simpl in Hin.
    destruct (Regex.grep_q (p_field "@name") content) eqn:E1;
      [|simpl; eauto].
    destruct (Regex.grep_q (p_field "@version") content) eqn:E2;
      [|simpl; eauto].
    destruct (Regex.grep_q (p_field "@match") content) eqn:E3;
      [|simpl; eauto].
    destruct Hin as [<-|[<-|[<-|[]]]]; congruence. }
  split.
  - apply (exit_status_finding files path content); auto. rewrite E. discriminate.
  - exists f. unfold reported_errors.
    pose proof (reported_found files path content Hf Hne) as R.
    unfold reported in R. rewrite E in R. simpl in R.
    assert (forall l, List.filter is_error l
                      = List.filter is_error (List.filter is_finding l)) as Hl.
    { induction l as [|[]]; simpl; congruence. }
    rewrite Hl, R. reflexivity.
Qed.

Lemma lines_cons line content :
  no_newline line = true ->
  lines (line +:+ String nl content) = line :: lines content.
Proof.
  induction line as [|c line IH]; simpl; intros H.
  - reflexivity.
  - apply andb_prop in H as [Hc Hl]. apply negb_true_iff in Hc.
    rewrite Hc, (IH Hl). reflexivity.
Qed.

Lemma grep_q_with_line p line content :
  no_newline line = true ->
  Regex.grep_q p (with_line line content)
  = Regex.selects p line || Regex.grep_q p content.
Proof.
  intros H. unfold Regex.grep_q, with_line. rewrite (lines_cons _ _ H).
  reflexivity.
Qed.

Lemma In_finding_if (x l : out_line) (c : bool) :
  In x (finding_if c l) -> c = true /\ x = l.
Proof. destruct c; simpl; intuition. Qed.

(** The error about a grant is among the findings only when the
    declaration that the script looks for is not in the file. *)
Lemma nogrant_finding content func :
  In func gm_functions ->
  In (Error (nogrant_msg func)) (findings content) ->
  Regex.grep_q (p_grant func) content = false.
Proof.
  intros Hf Hin. unfold findings in Hin.
  apply in_app_or in Hin as [Hin|Hin].
  { apply in_flat_map in Hin as (f & _ & Hin).
    apply In_finding_if in Hin as [_ Hin]. discriminate Hin. }
  apply in_app_or in Hin as [Hin|Hin].
  { apply in_flat_map in Hin as (g & Hg & Hin).
    apply In_finding_if in Hin as [Hc Hin].
    assert (func = g) as <-.
    { simpl in Hf, Hg. decompose [or] Hf; decompose [or] Hg; subst;
        try contradiction; try reflexivity; discriminate Hin. }
    apply andb_prop in Hc as [_ Hc]. apply negb_true_iff in Hc. exact Hc. }
  repeat (apply in_app_or in Hin; destruct Hin as [Hin|Hin]);
    apply In_finding_if in Hin as [_ Hin]; simpl in Hf;
    decompose [or] Hf; subst; try contradiction; discriminate Hin.
Qed.

(** With the declaration line of a grant in the file, the validator does
    not write the error about that grant. *)
Lemma grant_declared_no_error files path content func :
  In func gm_functions -> path <> "" ->
  files !! path = Some (with_line (grant_declaration func) content) ->
  ~ In (Error (nogrant_msg func)) (output files path).
Proof.
  intros Hf Hne Hfile Hin.
  assert (In (Error (nogrant_msg func)) (reported files path)) as Hr.
  { unfold reported. apply filter_In. split; [exact Hin|reflexivity]. }
  rewrite (reported_found files path _ Hfile Hne) in Hr.
  assert (In (Error (nogrant_msg func))
             (findings (with_line (grant_declaration func) content))) as Hall.
  { destruct (findings _); simpl in Hr; [contradiction|].
    destruct Hr as [Hr|[]]. left. exact Hr. }
  apply (nogrant_finding _ _ Hf) in Hall.
  rewrite grep_q_with_line in Hall.
  - apply orb_false_iff in Hall as [Hsel _].
    simpl in Hf. decompose [or] Hf; subst; try contradiction;
      vm_compute in Hsel; discriminate Hsel.
  - simpl in Hf. decompose [or] Hf; subst; try contradiction; reflexivity.
Qed.

(** C1 (the code differs).  A file that yields no error finding and some
    warning findings is to give exit status 0.  On the sample script with
    complete metadata and neither a strict mode marker nor a wrapper, no
    check counts an error, and the validator ends with status 1 at its
    first warning: under [set -e] the increment of the warning counter from
    0 ends the script. *)
Theorem warnings_only_exit_status :
  let files : gmap string string := {[ "bare.user.js" := Samples.bare_script ]} in
  List.filter is_error (findings Samples.bare_script) = []
  /\ reported_errors files "bare.user.js" = []
  /\ error_count files "bare.user.js" = 0%Z
  /\ reported_warnings files "bare.user.js"
     = [Warning "Missing 'use strict' declaration"]
  /\ exit_status files "bare.user.js" = 1%Z.
Proof. vm_compute. repeat split. Qed.

(** C2 (the code differs).  A file that lacks required fields is to yield
    one error for each of them.  The sample script lacks all three of
    [@name], [@version] and [@match], and the validator reports the first
    alone before it ends with status 1. *)
Theorem missing_fields_one_error :
  let files : gmap string string :=
    {[ "headless.user.js" := Samples.headless_script ]} in
  Forall (fun field =>
            Regex.grep_q (p_field field) Samples.headless_script = false)
         required_fields
  /\ reported_errors files "headless.user.js" = [Error (missing_msg "@name")]
  /\ error_count files "headless.user.js" = 1%Z
  /\ exit_status files "headless.user.js" = 1%Z.
Proof.
  split; [|vm_compute; repeat split].
  repeat constructor.
Qed.

(** C3 (the code differs).  Every recognized call without its grant is to
    yield an error for that call.  The sample script uses [GM_setValue]
    and [GM_getValue] with no grant; the validator reports the first and
    ends there, so that no error is written for [GM_getValue]. *)
Theorem ungranted_calls_one_error :
  let files : gmap string string :=
    {[ "store.user.js" := Samples.ungranted_script ]} in
  Regex.grep_q (p_func "GM_getValue") Samples.ungranted_script = true
  /\ Regex.grep_q (p_grant "GM_getValue") Samples.ungranted_script = false
  /\ reported_errors files "store.user.js" = [Error (nogrant_msg "GM_setValue")]
  /\ ~ In (Error (nogrant_msg "GM_getValue")) (output files "store.user.js")
  /\ exit_status files "store.user.js" = 1%Z.
Proof.
  repeat split; try (vm_compute; reflexivity).
  intros H. vm_compute in H.
  repeat (destruct H as [H|H]; [discriminate H|]). exact H.
Qed.

(** C8.  The validator changes no file, and a second run on the file
    system that the first left gives the same counts of errors and of
    warnings, the same output and the same exit status. *)
Theorem validation_idempotent (files : gmap string string) (path : string) :
  let left := fs (final (run files path)) in
  left = files
  /\ error_count left path = error_count files path
  /\ warning_count left path = warning_count files path
  /\ output left path = output files path
  /\ exit_status left path = exit_status files path.
Proof.
  simpl. rewrite run_keeps_files. repeat split.
Qed.

End ValidatorFacts.

(** ** The generator *)

Module GeneratorFacts.
Import Text Shell Generator GeneratorLogic.

(** *** The title *)

Lemma lines_single s : no_newline s = true -> lines (s +:+ String nl "") = [s].
Proof. intros H. rewrite (ValidatorFacts.lines_cons _ _ H). reflexivity. Qed.

Lemma sed_filter_line f s :
  no_newline s = true ->
  sed_filter f (s +:+ String nl "") = f s +:+ String nl "".
Proof. intros H. unfold sed_filter. rewrite (lines_single _ H). reflexivity. Qed.

Lemma strip_trailing_newline s :
  no_newline s = true -> strip_trailing_newlines (s +:+ String nl "") = s.
Proof.
  induction s as [|c s IH]; simpl; intros H; [reflexivity|].
  apply andb_prop in H as [Hc Hs]. rewrite (IH Hs).
  apply negb_true_iff in Hc. rewrite Hc. destruct s; reflexivity.
Qed.

Lemma toupper_newline c : Ascii.eqb (toupper c) nl = Ascii.eqb c nl.
Proof. destruct c as [[] [] [] [] [] [] [] []]; reflexivity. Qed.

Lemma toupper_not_word c : is_word c = false -> toupper c = c.
Proof. destruct c as [[] [] [] [] [] [] [] []]; simpl; intros H; try reflexivity; discriminate H. Qed.

Lemma tolower_not_upper c : is_upper c = false -> tolower c = c.
Proof. unfold tolower. intros ->. reflexivity. Qed.

Lemma no_newline_hyphens s :
  no_newline (hyphens_to_spaces s) = no_newline s.
Proof.
  unfold no_newline, hyphens_to_spaces.
  induction s as [|c s IH]; simpl; [reflexivity|].
  rewrite IH. f_equal.
  destruct (Ascii.eqb_spec c "-") as [->|]; reflexivity.
Qed.

Lemma no_newline_upcase prev s :
  no_newline (upcase_after_boundary prev s) = no_newline s.
Proof.
  unfold no_newline.
  revert prev. induction s as [|c s IH]; intros prev; simpl; [reflexivity|].
  rewrite IH. f_equal.
  destruct (xorb prev (is_word c)); [rewrite toupper_newline|]; reflexivity.
Qed.

(** The scan of [s/\b\(.\)/\u\1/g] changes the first letter of each word
    and nothing else: after the end of a word stands a character that is
    its own upper case. *)
Lemma upcase_capitalizes prev s :
  upcase_after_boundary prev s = Specified.capitalize_words prev s.
Proof.
  revert prev. induction s as [|c s IH]; intros prev; simpl; [reflexivity|].
  rewrite IH. f_equal.
  destruct prev, (is_word c) eqn:W; simpl; try reflexivity.
  apply toupper_not_word, W.
Qed.

Lemma lower_case_id s :
  all_chars (fun c => negb (is_upper c)) s = true -> Specified.lower_case s = s.
Proof.
  induction s as [|c s IH]; simpl; intros H; [reflexivity|].
  apply andb_prop in H as [Hc Hs]. apply negb_true_iff in Hc.
  unfold Specified.lower_case in *. simpl.
  rewrite (tolower_not_upper _ Hc), (IH Hs). reflexivity.
Qed.

(** C5, as the code has it.  For a script name of ASCII without a newline
    that [echo] does not take for an option, the title is the name with
    its hyphens replaced by spaces and the first letter of each word in
    upper case; the other letters stay as they are.  For a name with no
    capital letter this is the title as the specification words it. *)
Theorem script_title_capitalizes (name : string) :
  Scope.plain_text name = true ->
  no_newline name = true ->
  is_echo_option name = false ->
  SCRIPT_TITLE name
  = Specified.capitalize_words false (Specified.separators_to_spaces name)
  /\ (all_chars (fun c => negb (is_upper c)) name = true ->
      SCRIPT_TITLE name = Specified.title name).
Proof.
  intros _ Hnl Hopt.
  assert (SCRIPT_TITLE name
          = Specified.capitalize_words false (Specified.separators_to_spaces name))
    as E.
  { unfold SCRIPT_TITLE, echo_out. rewrite Hopt.
    rewrite (sed_filter_line _ _ Hnl).
    rewrite sed_filter_line by (rewrite no_newline_hyphens; exact Hnl).
    rewrite strip_trailing_newline
      by (rewrite no_newline_upcase, no_newline_hyphens; exact Hnl).
    apply upcase_capitalizes. }
  split; [exact E|].
  intros Hlow. rewrite E. unfold Specified.title.
  rewrite (lower_case_id _ Hlow). reflexivity.
Qed.

Lemma script_title_capitalizes_witness :
  SCRIPT_TITLE "dark-mode" = "Dark Mode"
  /\ SCRIPT_TITLE "dark-mode" = Specified.title "dark-mode".
Proof.
  destruct (script_title_capitalizes "dark-mode" eq_refl eq_refl eq_refl)
    as [H1 H2].
  split; [exact H1 | exact (H2 eq_refl)].
Defined.

(** C5, as stated, fails: the name is not put in lower case first. *)
Lemma script_title_keeps_capitals :
  SCRIPT_TITLE "DARK-mode" = "DARK Mode"
  /\ Specified.title "DARK-mode" = "Dark Mode"
  /\ SCRIPT_TITLE "DARK-mode" <> Specified.title "DARK-mode".
Proof. repeat split. discriminate. Qed.

(** *** The icon host *)

Lemma host_no_newline host : host_chars host = true -> no_newline host = true.
Proof.
  unfold host_chars, no_newline.
  induction host as [|c host IH]; simpl; [reflexivity|].
  intros H. apply andb_prop in H as [Hc Hh]. apply andb_prop in Hc as [_ Hc].
  rewrite Hc, (IH Hh). reflexivity.
Qed.

Lemma no_newline_app a b :
  no_newline a = true -> no_newline b = true -> no_newline (a +:+ b) = true.
Proof.
  unfold no_newline. induction a as [|c a IH]; simpl; intros Ha Hb; [exact Hb|].
  apply andb_prop in Ha as [Hc Ha]. rewrite Hc, (IH Ha Hb). reflexivity.
Qed.

Lemma span_host host rest :
  host_chars host = true ->
  rest = "" \/ (exists r, rest = String "/" r) ->
  fst (span_not_slash (host +:+ rest)) = host.
Proof.
  unfold host_chars. intros Hh Hr.
  induction host as [|c host IH]; simpl.
  - destruct Hr as [->|[r ->]]; reflexivity.
  - simpl in Hh. apply andb_prop in Hh as [Hc Hh]. apply andb_prop in Hc as [Hc _].
    apply negb_true_iff in Hc. rewrite Hc.
    specialize (IH Hh). destruct (span_not_slash (host +:+ rest)). simpl in *.
    rewrite IH. reflexivity.
Qed.

Lemma up_to_slash_host host rest :
  host_chars host = true ->
  rest = "" \/ (exists r, rest = String "/" r) ->
  Specified.up_to_slash (host +:+ rest) = host.
Proof.
  unfold host_chars. intros Hh Hr.
  induction host as [|c host IH]; simpl.
  - destruct Hr as [->|[r ->]]; reflexivity.
  - simpl in Hh. apply andb_prop in Hh as [Hc Hh]. apply andb_prop in Hc as [Hc _].
    apply negb_true_iff in Hc. rewrite Hc, (IH Hh). reflexivity.
Qed.

Lemma wildcard_first_star s :
  Specified.wildcard_to_default s = first_star_to_example s.
Proof. induction s as [|c s IH]; simpl; [|rewrite IH]; reflexivity. Qed.

Lemma no_newline_first_star s :
  no_newline s = true -> no_newline (first_star_to_example s) = true.
Proof.
  unfold no_newline. induction s as [|c s IH]; simpl; intros H; [reflexivity|].
  apply andb_prop in H as [Hc Hs].
  destruct (Ascii.eqb c "*"); simpl.
  - exact Hs.
  - rewrite Hc, (IH Hs). reflexivity.
Qed.

Lemma match_http_host_scheme scheme r :
  scheme = "http://" \/ scheme = "https://" ->
  match_http_host (scheme +:+ r)
  = match fst (span_not_slash r) with
    | EmptyString => None
    | host => Some host
    end.
Proof. intros [-> | ->]; reflexivity. Qed.

Lemma keep_http_host_eq line :
  keep_http_host line
  = match match_http_host line with
    | Some host => host
    | None =>
        match line with
        | EmptyString => EmptyString
        | String c rest => String c (keep_http_host rest)
        end
    end.
Proof. destruct line; reflexivity. Qed.

Lemma keep_http_host_url scheme host rest :
  scheme = "http://" \/ scheme = "https://" ->
  host <> "" -> host_chars host = true ->
  rest = "" \/ (exists r, rest = String "/" r) ->
  keep_http_host (scheme +:+ host +:+ rest) = host.
Proof.
  intros Hs Hne Hh Hr.
  assert (match_http_host (scheme +:+ host +:+ rest) = Some host) as E.
  { rewrite (match_http_host_scheme _ _ Hs), (span_host host rest Hh Hr).
    destruct host; [contradiction|reflexivity]. }
  rewrite keep_http_host_eq, E. reflexivity.
Qed.

(** C6, as the code has it.  For a target URL made of [http://] or
    [https://], a host that is not empty, and either nothing more or a
    path that starts with a slash, the icon domain is the host with its
    first star replaced by example.com, which is the icon host as the
    specification words it. *)
Theorem domain_of_http_url (scheme host rest : string) :
  scheme = "http://" \/ scheme = "https://" ->
  host <> "" -> host_chars host = true ->
  rest = "" \/ (exists r, rest = String "/" r) ->
  no_newline rest = true ->
  DOMAIN (scheme +:+ host +:+ rest) = first_star_to_example host
  /\ DOMAIN (scheme +:+ host +:+ rest)
     = Specified.icon_host (scheme +:+ host +:+ rest).
Proof.
  intros Hs Hne Hh Hr Hnl.
  assert (no_newline (scheme +:+ host +:+ rest) = true) as Hurl.
  { apply no_newline_app; [destruct Hs as [-> | ->]; reflexivity|].
    apply no_newline_app; [apply host_no_newline, Hh|exact Hnl]. }
  assert (DOMAIN (scheme +:+ host +:+ rest) = first_star_to_example host) as E.
  { unfold DOMAIN, echo_out.
    replace (is_echo_option (scheme +:+ host +:+ rest)) with false
      by (destruct Hs as [-> | ->]; reflexivity).
    rewrite (sed_filter_line _ _ Hurl).
    rewrite (keep_http_host_url _ _ _ Hs Hne Hh Hr).
    rewrite sed_filter_line by (apply host_no_newline, Hh).
    apply strip_trailing_newline, no_newline_first_star, host_no_newline, Hh. }
  split; [exact E|].
  rewrite E. unfold Specified.icon_host.
  replace (Specified.strip_scheme (scheme +:+ host +:+ rest)) with (host +:+ rest)
    by (destruct Hs as [-> | ->]; reflexivity).
  rewrite (up_to_slash_host _ _ Hh Hr). symmetry. apply wildcard_first_star.
Qed.

Lemma domain_of_http_url_witness :
  DOMAIN "https://*.github.com/*" = "example.com.github.com"
  /\ DOMAIN "https://*.github.com/*" = Specified.icon_host "https://*.github.com/*".
Proof.
  apply (domain_of_http_url "https://" "*.github.com" "/*").
  - right. reflexivity.
  - discriminate.
  - reflexivity.
  - right. exists "*". reflexivity.
  - reflexivity.
Defined.

(** C6, as stated, fails: a scheme other than http and https is not
    stripped, and then the path is kept as well. *)
Lemma domain_keeps_other_schemes :
  DOMAIN "*://example.com/*" = "example.com://example.com/*"
  /\ Specified.icon_host "*://example.com/*" = "example.com"
  /\ DOMAIN "*://example.com/*" <> Specified.icon_host "*://example.com/*".
Proof. repeat split. discriminate. Qed.

(** *** The output file *)

Section Files.
Variable sed : string -> string -> option string.
Variable can_write : string -> bool.















End Files.





End GeneratorFacts.

(** ** waitForElement *)

Module WaitFacts.
Import Wait.

(** A disconnected observer hears nothing more. *)
Lemma run_disconnected ns w : observing w = false -> run w ns = w.
Proof.
  revert w. induction ns as [|n ns IH]; intros w H; [reflexivity|].
  change (run w (n :: ns)) with (run (deliver w n) ns).
  assert (deliver w n = w) as -> by (unfold deliver; rewrite H; reflexivity).
  apply IH, H.
Qed.

(** While the selector is absent, a connected observer either has met no
    late notification and is still waiting, or has timed out at the first
    late one, once. *)
Lemma run_waiting ns : forall w,
  never_present ns ->
  observing w = true -> state w = Pending -> timeouts w = 0 ->
  (~ Exists (late (timeout w) (startTime w)) ns
   /\ run w ns = w)
  \/ (Exists (late (timeout w) (startTime w)) ns
      /\ run w ns
         = Waiter (variant w) (selector w) (timeout w) (startTime w) false
                  (Rejected (timeout_message (variant w) (selector w))) 1).
Proof.
  induction ns as [|n ns IH]; intros w Hnp Ho Hs Ht.
  - left. split; [intros H; inversion H|reflexivity].
  - inversion Hnp as [|? ? Hn Hns]; subst.
    change (run w (n :: ns)) with (run (deliver w n) ns).
    unfold deliver. rewrite Ho. unfold callback. rewrite Hn.
    destruct (Z.ltb_spec (timeout w) (now n - startTime w)) as [Hlate|Hearly].
    + right. split; [left; exact Hlate|].
      rewrite run_disconnected by reflexivity. rewrite Hs, Ht. reflexivity.
    + destruct (IH w Hns Ho Hs Ht) as [[Hno Hrun]|[Hyes Hrun]].
      * left. split; [|exact Hrun].
        intros H. inversion H; subst; [unfold late in *; lia|contradiction].
      * right. split; [right; exact Hyes|exact Hrun].
Qed.

(** C4, as the code has it.  For a selector that is never present and any
    notifications, the promise is never fulfilled, and the timeout outcome
    (the observer disconnected and the promise rejected) comes at most
    once: once when some notification arrives after the timeout has
    elapsed, and not at all when none does, for the timeout is looked at
    only in the callback of the observer. *)
Theorem timeout_at_most_once (t : template) (sel : string) (tmo start : Z)
    (ns : list notification) :
  never_present ns ->
  let w := run (waitForElement t sel tmo start None) ns in
  (forall e, state w <> Fulfilled e)
  /\ timeouts w <= 1
  /\ (timeouts w = 1 <-> Exists (late tmo start) ns)
  /\ (timeouts w = 1 ->
      observing w = false /\ state w = Rejected (timeout_message t sel))
  /\ (timeouts w = 0 -> observing w = true /\ state w = Pending).
Proof.
  intros Hnp.
  destruct (run_waiting ns (waitForElement t sel tmo start None) Hnp
              eq_refl eq_refl eq_refl) as [[Hno Hrun]|[Hyes Hrun]];
    simpl in *; rewrite Hrun; simpl.
  - repeat split; try discriminate; try lia; try contradiction.
  - repeat split; try discriminate; try lia; auto.
Qed.

Lemma timeout_at_most_once_witness :
  let w := run (waitForElement SpaCompatible "#app" 10000 0 None)
               [Notification 4000 None; Notification 12000 None;
                Notification 15000 None] in
  timeouts w = 1 /\ observing w = false.
Proof.
  pose proof (timeout_at_most_once SpaCompatible "#app" 10000 0
                [Notification 4000 None; Notification 12000 None;
                 Notification 15000 None]
                ltac:(repeat constructor)) as H.
  simpl in H. split; [reflexivity|]. apply H. reflexivity.
Defined.

(** C4, as stated, fails: with no notification after the timeout there is
    no timeout outcome, and the promise stays pending with the observer
    connected. *)
Lemma no_late_notification_no_timeout :
  let ns := [Notification 4000 None] in
  let w := run (waitForElement AdvancedTemplate "#app" 10000 0 None) ns in
  never_present ns
  /\ timeouts w = 0 /\ timeouts w <> 1
  /\ state w = Pending /\ observing w = true.
Proof. simpl. repeat split; try discriminate. repeat constructor. Qed.

End WaitFacts.

(** ** The route table *)

Module RouteFacts.
Import Routes.

Section Host.
Context {engine : Engine}.
Variable Handler : Type.

(** A route whose pattern matches ends the search. *)
Lemma match_head (r : route Handler) rest url regex m :
  regex_of (pattern r) = Some regex ->
  String_match url regex = Some m ->
  match_ (r :: rest) url = Return (Some (Matched (handler r) (slice1 m))).
Proof. intros Hr Hm. simpl. rewrite Hr, Hm. reflexivity. Qed.

(** A pattern given as a string has no [g] flag. *)
Lemma string_pattern_not_global text regex :
  regex_of (PString text) = Some regex -> global regex = false.
Proof.
  simpl. unfold new_RegExp. destruct (compile _); [|discriminate].
  intros [= <-]. reflexivity.
Qed.

(** C7, as the code has it.  With routes registered in the order A, B and
    a URL that the pattern of A matches, [match] selects the handler of A
    and [handle] calls it, and no other, whether or not B matches too.  Its
    arguments are the elements after the first of the array of the match:
    for a pattern without the [g] flag, as every pattern given as a string
    is, these are the captured groups of the pattern of A. *)
Theorem first_route_wins (A B : route Handler) (url : string)
    (regex : RegExp) (m : list value) :
  regex_of (pattern A) = Some regex ->
  String_match url regex = Some m ->
  let routes := add (pattern B) (handler B)
                  (add (pattern A) (handler A) new_RouteHandler) in
  match_ routes url = Return (Some (Matched (handler A) (slice1 m)))
  /\ handle routes url
     = Return (true, [Log "Route matched:" url; Call (handler A) (slice1 m)])
  /\ (forall effects, handle routes url = Return (true, effects) ->
      called effects = [handler A])
  /\ (global regex = false ->
      forall whole groups, m = whole :: groups ->
      slice1 m = groups /\ captured A url groups)
  /\ (forall text, pattern A = PString text -> global regex = false).
Proof.
  intros Hr Hm routes.
  assert (match_ routes url = Return (Some (Matched (handler A) (slice1 m))))
    as Hmatch.
  { unfold routes, add, new_RouteHandler. simpl app.
    change (Route (pattern A) (handler A)) with
      (Route (pattern A) (handler (Route (pattern A) (handler A)))).
    apply (match_head (Route (pattern A) (handler A)) _ url regex m); assumption. }
  assert (handle routes url
          = Return (true, [Log "Route matched:" url; Call (handler A) (slice1 m)]))
    as Hhandle.
  { unfold handle. rewrite Hmatch. reflexivity. }
  split; [exact Hmatch|]. split; [exact Hhandle|]. split; [|split].
  - intros effects He. rewrite Hhandle in He. injection He as <-. reflexivity.
  - intros Hg whole groups ->. split; [reflexivity|].
    exists regex, whole. split; [exact Hr|].
    unfold String_match in Hm. rewrite Hg in Hm. exact Hm.
  - intros text Ht. rewrite Ht in Hr.
    apply (string_pattern_not_global text regex Hr).
Qed.

End Host.

Import MiniRegExp RouteSamples.

Lemma first_route_wins_witness :
  handle plain_first "/user/42"
  = Return (true, [Log "Route matched:" "/user/42"; Call HandlerA [Str "42"]]).
Proof.
  exact (proj1 (proj2
    (first_route_wins two_handlers
       (Route (PString "/user/:id") HandlerA)
       (Route (PString "/user/*") HandlerB)
       "/user/42"
       (MkRegExp (default RxEmpty (rx_compile "^/user/([^/]+)$")) false)
       [Str "/user/42"; Str "42"]
       eq_refl eq_refl))).
Defined.

(** C7, as stated, fails for a pattern with the [g] flag: the URL matches
    both routes and the group of the first captures [42], yet the handler
    of the first route is called with no argument, for with that flag the
    array of the match lists the whole matches, of which there is one. *)
Lemma global_pattern_loses_groups :
  (exists p, user_regexp_g = PRegExp (MkRegExp p true))
  /\ matches (Route user_regexp_g HandlerA) "/user/42"
  /\ matches (Route (PString "/user/:id") HandlerB) "/user/42"
  /\ captured (Route user_regexp_g HandlerA) "/user/42" [Str "42"]
  /\ handle global_first "/user/42"
     = Return (true, [Log "Route matched:" "/user/42"; Call HandlerA []])
  /\ handle global_first "/user/42"
     <> Return (true, [Log "Route matched:" "/user/42"; Call HandlerA [Str "42"]]).
Proof.
  repeat split.
  - eexists. reflexivity.
  - eexists _, _. split; reflexivity.
  - eexists _, _. split; reflexivity.
  - eexists _, _. split; reflexivity.
  - discriminate.
Qed.

End RouteFacts.

(** ** The bookmark store *)

Module BookmarkFacts.
Import Bookmarks BookmarkLogic.

(** *** JSON.parse after JSON.stringify *)

Local Arguments String.append !_ _ /.

Lemma append_assoc (a b c : string) : (a +:+ b) +:+ c = a +:+ (b +:+ c).
Proof. induction a as [|x a IH]; simpl; [|rewrite IH]; reflexivity. Qed.

Lemma length_append (a b : string) :
  String.length (a +:+ b) = String.length a + String.length b.
Proof. induction a as [|x a IH]; simpl; [|rewrite IH]; reflexivity. Qed.

Lemma expect_append p r : expect p (p +:+ r) = Some r.
Proof.
  induction p as [|c p IH]; simpl; [reflexivity|].
  rewrite Ascii.eqb_refl. exact IH.
Qed.

Lemma read_digits_uint u r :
  no_digit_head r = true ->
  read_digits (NilEmpty.string_of_uint u +:+ r) = (u, r).
Proof.
  intros Hr. induction u; simpl; try (rewrite IHu; reflexivity).
  destruct r as [|c r]; [reflexivity|]. simpl in *.
  destruct (digit_of c); [discriminate|reflexivity].
Qed.

Lemma parse_number_pos u r :
  u <> Decimal.Nil -> no_digit_head r = true ->
  parse_number (NilEmpty.string_of_uint u +:+ r)
  = Some (Z.of_int (Decimal.Pos u), r).
Proof.
  intros Hu Hr.
  destruct u as [|u|u|u|u|u|u|u|u|u|u]; [contradiction|..];
    unfold parse_number; simpl;
    (destruct u;
     [destruct r as [|c r]; [reflexivity|]; simpl in *;
      destruct (digit_of c); [discriminate|reflexivity]
     |simpl; match goal with
             | |- context [read_digits (NilEmpty.string_of_uint ?v +:+ r)] =>
                 rewrite (read_digits_uint v r Hr)
             end; reflexivity ..]).
Qed.

Lemma parse_number_neg u r :
  u <> Decimal.Nil -> no_digit_head r = true ->
  parse_number (String "-" (NilEmpty.string_of_uint u +:+ r))
  = Some (Z.of_int (Decimal.Neg u), r).
Proof.
  intros Hu Hr. unfold parse_number.
  rewrite (read_digits_uint u r Hr). destruct u; [contradiction|reflexivity..].
Qed.

Lemma parse_number_number z r :
  no_digit_head r = true ->
  parse_number (number z +:+ r) = Some (z, r).
Proof.
  intros Hr. unfold number.
  rewrite <- (DecimalZ.of_to z) at 2.
  destruct z as [|p|p]; simpl Z.to_int.
  - apply (parse_number_pos (Decimal.D0 Decimal.Nil) r); [discriminate|exact Hr].
  - pose proof (DecimalPos.Unsigned.to_uint_nonnil p) as Hn.
    unfold NilZero.string_of_int, NilZero.string_of_uint.
    destruct (Pos.to_uint p) eqn:E; [contradiction|..];
      apply parse_number_pos; auto; discriminate.
  - pose proof (DecimalPos.Unsigned.to_uint_nonnil p) as Hn.
    unfold NilZero.string_of_int, NilZero.string_of_uint.
    destruct (Pos.to_uint p) eqn:E; [contradiction|..];
      apply parse_number_neg; auto; discriminate.
Qed.

Lemma read_escaped_char c rest :
  read_string_body (escape_char c +:+ rest)
  = keep_char c (read_string_body rest).
Proof.
  destruct c as [[] [] [] [] [] [] [] []]; reflexivity.
Qed.

Lemma read_escaped s r :
  read_string_body (escape s +:+ String dq r) = Some (s, r).
Proof.
  induction s as [|c s IH]; simpl.
  - reflexivity.
  - rewrite append_assoc, read_escaped_char, IH. reflexivity.
Qed.

Lemma parse_string_quote s r : parse_string (quote s +:+ r) = Some (s, r).
Proof.
  unfold quote, parse_string. simpl. rewrite append_assoc. apply read_escaped.
Qed.

Lemma stringify_bookmark_parts t n r :
  stringify_bookmark (Bookmark t n) +:+ r
  = ("{" +:+ quote "time" +:+ ":") +:+ number t
    +:+ ("," +:+ quote "note" +:+ ":") +:+ quote n +:+ "}" +:+ r.
Proof.
  unfold stringify_bookmark. cbn [time note]. rewrite !append_assoc. reflexivity.
Qed.

Lemma parse_bookmark_stringify b r :
  parse_bookmark (stringify_bookmark b +:+ r) = Some (b, r).
Proof.
  destruct b as [t n]. rewrite stringify_bookmark_parts. unfold parse_bookmark.
  rewrite expect_append. cbn [mbind option_bind].
  rewrite parse_number_number by reflexivity. cbn [mbind option_bind].
  rewrite expect_append. cbn [mbind option_bind].
  rewrite parse_string_quote. cbn [mbind option_bind].
  rewrite expect_append. reflexivity.
Qed.

Lemma parse_elements_step fuel s :
  parse_elements (S fuel) s
  = '(b, s1) ← parse_bookmark s;
    match s1 with
    | String "," s2 =>
        '(rest, s3) ← parse_elements fuel s2;
        Some (b :: rest, s3)
    | String "]" s2 => Some ([b], s2)
    | _ => None
    end.
Proof. reflexivity. Qed.

Lemma parse_elements_stringify l : forall b fuel r,
  length l < fuel ->
  parse_elements fuel
    (join_commas (List.map stringify_bookmark (b :: l)) +:+ String "]" r)
  = Some (b :: l, r).
Proof.
  induction l as [|b' l IH]; intros b fuel r Hf;
    (destruct fuel as [|fuel]; [inversion Hf|]); rewrite parse_elements_step.
  - change (join_commas (List.map stringify_bookmark [b]))
      with (stringify_bookmark b).
    rewrite parse_bookmark_stringify. reflexivity.
  - change (join_commas (List.map stringify_bookmark (b :: b' :: l)))
      with (stringify_bookmark b +:+ "," +:+
            join_commas (List.map stringify_bookmark (b' :: l))).
    rewrite !append_assoc.
    rewrite parse_bookmark_stringify. cbn [mbind option_bind].
    change ("," +:+ ?x) with (String "," x).
    cbv beta iota.
    rewrite IH by (simpl in Hf; lia). reflexivity.
Qed.

Lemma stringify_bookmark_head b :
  exists s, stringify_bookmark b = String "{" s.
Proof. eexists. reflexivity. Qed.

Lemma join_commas_length l :
  length l <= String.length (join_commas (List.map stringify_bookmark l)).
Proof.
  induction l as [|b l IH]; [simpl; lia|].
  destruct (stringify_bookmark_head b) as [s Hs].
  destruct l as [|b' l].
  - change (join_commas (List.map stringify_bookmark [b]))
      with (stringify_bookmark b).
    rewrite Hs. simpl. lia.
  - change (join_commas (List.map stringify_bookmark (b :: b' :: l)))
      with (stringify_bookmark b +:+ "," +:+
            join_commas (List.map stringify_bookmark (b' :: l))).
    rewrite !length_append, Hs.
    change (String.length ",") with 1.
    change (String.length (String "{" s)) with (S (String.length s)).
    change (length (b :: b' :: l)) with (S (length (b' :: l))). lia.
Qed.

(** What [JSON.stringify] writes, [JSON.parse] reads back. *)
Lemma parse_stringify l : JSON_parse (JSON_stringify l) = Some l.
Proof.
  destruct l as [|b l]; [reflexivity|].
  unfold JSON_stringify.
  pose proof (join_commas_length (b :: l)) as Hlen.
  assert (exists s, join_commas (List.map stringify_bookmark (b :: l)) = String "{" s)
    as [s Hs].
  { destruct l; eexists; reflexivity. }
  assert (length l
          < String.length (join_commas (List.map stringify_bookmark (b :: l)) +:+ "]"))
    as Hfuel.
  { rewrite length_append. change (String.length "]") with 1.
    change (length (b :: l)) with (S (length l)) in Hlen. lia. }
  pose proof (parse_elements_stringify l b _ "" Hfuel) as Hp.
  rewrite Hs in *.
  change ("[" +:+ String "{" s +:+ "]") with (String "[" (String "{" (s +:+ "]"))).
  change (String "{" s +:+ "]") with (String "{" (s +:+ "]")) in Hp.
  unfold JSON_parse. rewrite Hp. reflexivity.
Qed.

(** *** Sorting and filtering *)

Lemma insert_perm x l : Permutation (x :: l) (insert_by_time x l).
Proof.
  induction l as [|y l IH]; simpl; [reflexivity|].
  destruct (time x <=? time y)%Z; [reflexivity|].
  rewrite perm_swap. constructor. exact IH.
Qed.

Lemma sort_perm l : Permutation l (sort_by_time l).
Proof.
  induction l as [|x l IH]; simpl; [reflexivity|].
  rewrite <- insert_perm. constructor. exact IH.
Qed.

Lemma insert_sorted x l :
  Sorted Z.le (List.map time l) ->
  Sorted Z.le (List.map time (insert_by_time x l)).
Proof.
  induction l as [|y l IH]; simpl; intros Hs.
  - repeat constructor.
  - destruct (Z.leb_spec (time x) (time y)) as [Hle|Hgt]; simpl.
    + constructor; [exact Hs|]. constructor. exact Hle.
    + inversion Hs as [|? ? Hs' Hhd]; subst.
      constructor; [apply IH, Hs'|].
      destruct l as [|z l]; simpl.
      * constructor. lia.
      * destruct (time x <=? time z)%Z; simpl; constructor;
          [lia|inversion Hhd; assumption].
Qed.

Lemma sort_sorted l : Sorted Z.le (List.map time (sort_by_time l)).
Proof.
  induction l as [|x l IH]; simpl; [constructor|].
  apply insert_sorted, IH.
Qed.

Lemma filter_strongly_sorted (p : bookmark -> bool) l :
  StronglySorted Z.le (List.map time l) ->
  StronglySorted Z.le (List.map time (List.filter p l)).
Proof.
  induction l as [|x l IH]; simpl; intros Hs; [constructor|].
  inversion Hs as [|? ? Hs' Hall]; subst.
  destruct (p x); simpl; [|apply IH, Hs'].
  constructor; [apply IH, Hs'|].
  rewrite List.Forall_forall in *. intros t Ht. apply Hall.
  apply in_map_iff in Ht as (b & <- & Hb).
  apply in_map. apply filter_In in Hb. apply Hb.
Qed.

Lemma filter_sorted (p : bookmark -> bool) l :
  Sorted Z.le (List.map time l) ->
  Sorted Z.le (List.map time (List.filter p l)).
Proof.
  intros Hs. apply StronglySorted_Sorted, filter_strongly_sorted.
  apply Sorted_StronglySorted; [|exact Hs].
  intros a b c. apply Z.le_trans.
Qed.

Lemma filter_nodup (p : bookmark -> bool) l :
  List.NoDup (List.map time l) -> List.NoDup (List.map time (List.filter p l)).
Proof.
  induction l as [|x l IH]; simpl; intros Hn; [constructor|].
  inversion Hn as [|? ? Hx Hn']; subst.
  destruct (p x); simpl; [|apply IH, Hn'].
  constructor; [|apply IH, Hn'].
  intros Hin. apply Hx. apply in_map_iff in Hin as (b & Hb & Hin).
  apply in_map_iff. exists b. split; [exact Hb|].
  apply filter_In in Hin. apply Hin.
Qed.

Lemma existsb_time now l :
  existsb (fun b => (time b =? now)%Z) l = true <-> In now (List.map time l).
Proof.
  rewrite existsb_exists, in_map_iff. split.
  - intros (b & Hb & He). apply Z.eqb_eq in He. eauto.
  - intros (b & He & Hb). exists b. split; [exact Hb|]. apply Z.eqb_eq, He.
Qed.

(** *** The invariant *)

Lemma stringify_well_kept l :
  Sorted Z.le (List.map time l) -> List.NoDup (List.map time l) ->
  well_kept (JSON_stringify l).
Proof.
  intros Hs Hn. exists l. repeat split; auto. apply parse_stringify.
Qed.

(** In a well kept store [getBookmarks] gives a sorted list without two
    equal times, and never throws. *)
Lemma getBookmarks_well_kept st v :
  all_well_kept st ->
  exists l, getBookmarks st v = Some l
            /\ Sorted Z.le (List.map time l) /\ List.NoDup (List.map time l).
Proof.
  intros Hst. unfold getBookmarks, GM_getValue.
  destruct (st !! getStorageKey v) as [text|] eqn:E.
  - destruct (Hst _ _ E) as (l & _ & Hp & Hs & Hn). eauto.
  - exists []. repeat split; constructor.
Qed.

Lemma saveBookmarks_well_kept st v l :
  all_well_kept st ->
  Sorted Z.le (List.map time l) -> List.NoDup (List.map time l) ->
  all_well_kept (saveBookmarks st v l).
Proof.
  intros Hst Hs Hn key text. unfold saveBookmarks, GM_setValue.
  destruct (decide (getStorageKey v = key)) as [<-|Hne].
  - rewrite lookup_insert_eq. intros [= <-]. apply stringify_well_kept; auto.
  - rewrite lookup_insert_ne by exact Hne. apply Hst.
Qed.

Lemma addBookmark_well_kept st v now :
  all_well_kept st -> all_well_kept (addBookmark st v now).
Proof.
  intros Hst. unfold addBookmark.
  destruct (getBookmarks_well_kept st v Hst) as (l & -> & Hs & Hn).
  destruct (existsb _ l) eqn:E; [exact Hst|].
  apply saveBookmarks_well_kept; [exact Hst|apply sort_sorted|].
  apply (Permutation_NoDup (l := List.map time (l ++ [Bookmark now ""]))).
  - apply Permutation_map, sort_perm.
  - rewrite map_app. simpl.
    apply (Permutation_NoDup (l := now :: List.map time l)).
    + apply Permutation_cons_append.
    + constructor; [|exact Hn].
      intros Hin. apply existsb_time in Hin. congruence.
Qed.

Lemma deleteBookmark_well_kept st v t :
  all_well_kept st -> all_well_kept (deleteBookmark st v t).
Proof.
  intros Hst. unfold deleteBookmark.
  destruct (getBookmarks_well_kept st v Hst) as (l & -> & Hs & Hn).
  apply saveBookmarks_well_kept;
    [exact Hst|apply filter_sorted, Hs|apply filter_nodup, Hn].
Qed.

Lemma step_well_kept st a : all_well_kept st -> all_well_kept (step st a).
Proof.
  destruct a; [apply addBookmark_well_kept|apply deleteBookmark_well_kept].
Qed.

Lemma fold_well_kept history : forall st,
  all_well_kept st -> all_well_kept (List.fold_left step history st).
Proof.
  induction history as [|a history IH]; intros st Hst; simpl; [exact Hst|].
  apply IH, step_well_kept, Hst.
Qed.

Lemma after_well_kept history : all_well_kept (after history).
Proof.
  apply fold_well_kept. intros key text H. rewrite lookup_empty in H.
  discriminate H.
Qed.

(** After an action the entry of its video is in the store. *)
Lemma step_entry st a :
  all_well_kept st -> is_Some (step st a !! getStorageKey (video_of a)).
Proof.
  intros Hst. destruct a as [v now|v t]; simpl.
  - unfold addBookmark.
    destruct (getBookmarks_well_kept st v Hst) as (l & Hl & _). rewrite Hl.
    destruct (existsb _ l) eqn:E.
    + unfold getBookmarks, GM_getValue in Hl.
      destruct (st !! getStorageKey v) eqn:Ek; [eauto|].
      injection Hl as <-. discriminate E.
    + unfold saveBookmarks, GM_setValue. rewrite lookup_insert_eq. eauto.
  - unfold deleteBookmark.
    destruct (getBookmarks_well_kept st v Hst) as (l & -> & _).
    unfold saveBookmarks, GM_setValue. rewrite lookup_insert_eq. eauto.
Qed.

(** C9.  From the empty store of a new installation, after every history
    of [addBookmark] and [deleteBookmark] each entry of the store is the
    JSON text of a list of bookmarks that reads back as that list, sorted
    by time with no time twice; after each action the entry of its video
    is there; and [addBookmark] at a time that is bookmarked already
    leaves the store as it is. *)
Theorem bookmark_store_invariant (history : list action) :
  (forall key text, after history !! key = Some text -> well_kept text)
  /\ (forall a, is_Some (after (history ++ [a]) !! getStorageKey (video_of a)))
  /\ (forall videoId now bookmarks,
        getBookmarks (after history) videoId = Some bookmarks ->
        In now (List.map time bookmarks) ->
        addBookmark (after history) videoId now = after history).
Proof.
  repeat split.
  - apply after_well_kept.
  - intros a. unfold after. rewrite fold_left_app. simpl.
    apply step_entry, after_well_kept.
  - intros v now l Hl Hin. unfold addBookmark. rewrite Hl.
    apply existsb_time in Hin. rewrite Hin. reflexivity.
Qed.

Lemma bookmark_store_invariant_witness :
  well_kept (JSON_stringify [Bookmark 10 ""; Bookmark 30 ""])
  /\ addBookmark (after [Add (Some "dQw4") 30; Add (Some "dQw4") 10])
                 (Some "dQw4") 30
     = after [Add (Some "dQw4") 30; Add (Some "dQw4") 10].
Proof.
  destruct (bookmark_store_invariant
              [Add (Some "dQw4") 30%Z; Add (Some "dQw4") 10%Z])
    as (Hkept & _ & Hsame).
  split.
  - apply (Hkept "bookmarks_dQw4"). reflexivity.
  - apply (Hsame (Some "dQw4") 30%Z [Bookmark 10 ""; Bookmark 30 ""]).
    + reflexivity.
    + simpl. auto.
Defined.

End BookmarkFacts.

(** ** More on the validator *)

Module ValidatorMore.
Import Text Regex Shell Validator ValidatorLogic.

Lemma match_here_Void s : match_here Void s = false.
Proof. induction s as [|c s IH]; simpl; [reflexivity|exact IH]. Qed.

Lemma cat_Eps r : cat Eps r = r.
Proof. destruct r; reflexivity. Qed.

Lemma deriv_lit_cons b a p :
  deriv b (Cat (Chr a) (lit p)) = if Ascii.eqb a b then lit p else Void.
Proof.
  simpl. destruct (Ascii.eqb a b); [apply cat_Eps|reflexivity].
Qed.

(** A pattern of plain characters under [^] asks for a prefix. *)
Lemma match_here_lit p : forall s,
  match_here (lit p) s = Generator.starts_with p s.
Proof.
  induction p as [|a p IH]; intros s.
  - destruct s; reflexivity.
  - destruct s as [|b s]; [reflexivity|].
    change (match_here (lit (String a p)) (String b s))
      with (match_here (deriv b (Cat (Chr a) (lit p))) s).
    rewrite deriv_lit_cons. simpl. destruct (Ascii.eqb a b); simpl.
    + apply IH.
    + apply match_here_Void.
Qed.

Lemma existsb_same {A} (f g : A -> bool) l :
  (forall x, f x = g x) -> existsb f l = existsb g l.
Proof.
  intros E. induction l as [|x l IH]; simpl; [reflexivity|].
  rewrite E, IH. reflexivity.
Qed.

Lemma existsb_perm {A} (f : A -> bool) l1 l2 :
  Permutation l1 l2 -> existsb f l1 = existsb f l2.
Proof.
  induction 1 as [|x l1 l2 _ IH|x y l|l1 l2 l3 _ IH1 _ IH2]; simpl.
  - reflexivity.
  - rewrite IH. reflexivity.
  - destruct (f x), (f y); reflexivity.
  - congruence.
Qed.

Lemma filter_length_perm {A} (f : A -> bool) l1 l2 :
  Permutation l1 l2 ->
  List.length (List.filter f l1) = List.length (List.filter f l2).
Proof.
  induction 1 as [|x l1 l2 _ IH|x y l|l1 l2 l3 _ IH1 _ IH2]; simpl.
  - reflexivity.
  - destruct (f x); simpl; rewrite IH; reflexivity.
  - destruct (f x), (f y); reflexivity.
  - congruence.
Qed.

Lemma findings_perm c1 c2 :
  Permutation (lines c1) (lines c2) -> findings c1 = findings c2.
Proof.
  intros H.
  assert (forall p, Regex.grep_q p c1 = Regex.grep_q p c2) as Hq
    by (intros p; apply existsb_perm, H).
  assert (Regex.grep_c p_console_log c1 = Regex.grep_c p_console_log c2) as Hc
    by (unfold Regex.grep_c; f_equal; apply filter_length_perm, H).
  unfold findings.
  rewrite (flat_map_ext (check_field c1) (check_field c2))
    by (intros f; unfold check_field; rewrite Hq; reflexivity).
  rewrite (flat_map_ext (check_grant c1) (check_grant c2))
    by (intros f; unfold check_grant; rewrite !Hq; reflexivity).
  rewrite Hc. repeat rewrite (Hq _). reflexivity.
Qed.

(** X1.  On a file that is there, a text without NUL bytes at a path that
    does not start with a dash, the validator ends with status 0 when no
    check finds anything, be it an error or a warning, and with status 1
    otherwise. *)
Theorem exit_status_law (files : gmap string string) (path content : string) :
  files !! path = Some content -> path <> "" ->
  Scope.names_a_file path = true -> Scope.no_nul content = true ->
  (exit_status files path = 0%Z <-> findings content = [])
  /\ (exit_status files path = 1%Z <-> findings content <> []).
Proof.
  intros Hf Hne _ _.
  pose proof (ValidatorFacts.run_found files path content Hf Hne) as H.
  unfold exit_status. destruct (findings content) as [|f F].
  - destruct H as (s & -> & _). simpl. split; split; try tauto; try discriminate.
  - destruct H as (s & -> & _). simpl. split; split; try discriminate; tauto.
Qed.

Lemma exit_status_law_witness :
  exit_status {[ "tidy.user.js" := Samples.tidy_script ]} "tidy.user.js" = 0%Z
  <-> findings Samples.tidy_script = [].
Proof.
  apply (exit_status_law {[ "tidy.user.js" := Samples.tidy_script ]}
           "tidy.user.js" Samples.tidy_script).
  - reflexivity.
  - discriminate.
  - reflexivity.
  - reflexivity.
Defined.

(** X2.  Of all that the checks find in a file, a text without NUL bytes
    at a path that does not start with a dash, the validator reports the
    first alone and counts it: the two counters never add up to more than
    one when the script ends. *)
Theorem first_finding_only (files : gmap string string) (path content : string) :
  files !! path = Some content -> path <> "" ->
  Scope.names_a_file path = true -> Scope.no_nul content = true ->
  reported files path = List.firstn 1 (findings content)
  /\ (error_count files path + warning_count files path
      = Z.of_nat (List.length (reported files path)))%Z
  /\ (error_count files path + warning_count files path <= 1)%Z.
Proof.
  intros Hf Hne _ _.
  pose proof (ValidatorFacts.run_found files path content Hf Hne) as H.
  unfold reported, output, error_count, warning_count.
  destruct (findings content) as [|f F].
  - destruct H as (s & -> & Hv & _ & Ho). simpl. rewrite Ho, Hv. simpl.
    repeat split; lia.
  - destruct H as (s & -> & Hv & _ & Ho). simpl. rewrite Ho, Hv.
    destruct f as [text|text|text]; simpl; repeat split; try lia.
    (* a line of the other kind is no finding *)
    exfalso.
    assert (In (Info text) (List.filter is_finding (stdout s))) as Hin
      by (rewrite Ho; left; reflexivity).
    apply List.filter_In in Hin as [_ Hin]. discriminate Hin.
Qed.

Lemma first_finding_only_witness :
  reported {[ "headless.user.js" := Samples.headless_script ]} "headless.user.js"
  = List.firstn 1 (findings Samples.headless_script).
Proof.
  apply (first_finding_only {[ "headless.user.js" := Samples.headless_script ]}
           "headless.user.js" Samples.headless_script).
  - reflexivity.
  - discriminate.
  - reflexivity.
  - reflexivity.
Defined.

(** X3.  Without an argument, or with a path at which there is no file,
    the validator ends with status 1 before any check: it reports no
    finding, counts nothing and leaves the files as they are. *)
Theorem no_file_no_check (files : gmap string string) (path : string) :
  path = "" \/ files !! path = None ->
  exit_status files path = 1%Z
  /\ reported files path = []
  /\ error_count files path = 0%Z /\ warning_count files path = 0%Z
  /\ fs (final (run files path)) = files.
Proof.
  intros H.
  destruct (ValidatorFacts.run_no_file files path H) as (s & Hr & Hf & Hv & Ho).
  unfold exit_status, reported, output, error_count, warning_count.
  rewrite Hr. simpl. rewrite Hv, Ho. repeat split; auto.
Qed.

Lemma no_file_no_check_witness :
  exit_status {[ "a.user.js" := Samples.tidy_script ]} "b.user.js" = 1%Z.
Proof.
  apply (no_file_no_check {[ "a.user.js" := Samples.tidy_script ]} "b.user.js").
  right. reflexivity.
Defined.

(** X4.  With the declaration line of a grant at its head, a file at a
    path that does not start with a dash never gets the error about that
    grant, whatever else it holds but NUL bytes. *)
Theorem declared_grant_never_reported (files : gmap string string)
    (path content func : string) :
  In func gm_functions -> path <> "" ->
  Scope.names_a_file path = true -> Scope.no_nul content = true ->
  files !! path = Some (with_line (grant_declaration func) content) ->
  ~ In (Error (nogrant_msg func)) (output files path)
  /\ Regex.grep_q (p_grant func) (with_line (grant_declaration func) content)
     = true.
Proof.
  intros Hf Hne _ _ Hfile. split.
  - apply (ValidatorFacts.grant_declared_no_error files path content func);
      assumption.
  - rewrite ValidatorFacts.grep_q_with_line.
    + simpl in Hf. decompose [or] Hf; subst; try contradiction; reflexivity.
    + simpl in Hf. decompose [or] Hf; subst; try contradiction; reflexivity.
Qed.

Lemma declared_grant_never_reported_witness :
  ~ In (Error (nogrant_msg "GM_getValue"))
       (output {[ "s.user.js" := with_line (grant_declaration "GM_getValue")
                                           Samples.ungranted_script ]}
               "s.user.js").
Proof.
  apply (declared_grant_never_reported
           {[ "s.user.js" := with_line (grant_declaration "GM_getValue")
                                       Samples.ungranted_script ]}
           "s.user.js" Samples.ungranted_script "GM_getValue").
  - simpl. auto.
  - discriminate.
  - reflexivity.
  - reflexivity.
  - reflexivity.
Defined.

(** X5.  In a text without NUL bytes, the check of a required field asks
    for a line that begins with [// ] and the name of the field, and for
    nothing after it: a line that declares [@namespace] passes for a
    declaration of [@name]. *)
Theorem required_field_is_line_prefix (content field : string) :
  In field required_fields -> Scope.no_nul content = true ->
  Regex.grep_q (p_field field) content
  = existsb (Generator.starts_with ("// " +:+ field)) (lines content)
  /\ (forall rest,
        In ("// @namespace" +:+ rest) (lines content) ->
        Regex.grep_q (p_field "@name") content = true).
Proof.
  assert (forall f, Regex.grep_q (p_field f) content
            = existsb (Generator.starts_with ("// " +:+ f)) (lines content)) as E.
  { intros f. unfold Regex.grep_q. apply existsb_same. intros l.
    unfold selects, p_field, bol, body. apply match_here_lit. }
  intros _ _. split; [apply E|].
  intros rest Hin. rewrite E. apply existsb_exists.
  exists ("// @namespace" +:+ rest). split; [exact Hin|reflexivity].
Qed.

Lemma required_field_is_line_prefix_witness :
  Regex.grep_q (p_field "@name") Samples.basic_template = true.
Proof.
  apply (proj2 (required_field_is_line_prefix Samples.basic_template "@name"
                  ltac:(simpl; auto) eq_refl)
               "    http://tampermonkey.net/").
  vm_compute. auto.
Defined.

(** X6.  The verdict depends on which lines a file has and not on where
    they stand: two files with the same lines in another order, texts
    without NUL bytes at a path that does not start with a dash, get the
    same exit status and the same reported finding. *)
Theorem verdict_ignores_line_order (files1 files2 : gmap string string)
    (path content1 content2 : string) :
  files1 !! path = Some content1 -> files2 !! path = Some content2 ->
  path <> "" -> Scope.names_a_file path = true ->
  Scope.no_nul content1 = true -> Scope.no_nul content2 = true ->
  Permutation (lines content1) (lines content2) ->
  exit_status files1 path = exit_status files2 path
  /\ reported files1 path = reported files2 path.
Proof.
  intros H1 H2 Hne _ _ _ Hp. apply findings_perm in Hp.
  pose proof (ValidatorFacts.run_found files1 path content1 H1 Hne) as R1.
  pose proof (ValidatorFacts.run_found files2 path content2 H2 Hne) as R2.
  rewrite Hp in R1. unfold exit_status, reported, output.
  destruct (findings content2) as [|f F].
  - destruct R1 as (s1 & -> & _ & _ & O1). destruct R2 as (s2 & -> & _ & _ & O2).
    simpl. rewrite O1, O2. split; reflexivity.
  - destruct R1 as (s1 & -> & _ & _ & O1). destruct R2 as (s2 & -> & _ & _ & O2).
    simpl. rewrite O1, O2. split; reflexivity.
Qed.

Lemma verdict_ignores_line_order_witness :
  exit_status {[ "a.user.js" := unlines ["// @name x"; "'use strict'"] ]} "a.user.js"
  = exit_status {[ "a.user.js" := unlines ["'use strict'"; "// @name x"] ]} "a.user.js".
Proof.
  apply (verdict_ignores_line_order
           {[ "a.user.js" := unlines ["// @name x"; "'use strict'"] ]}
           {[ "a.user.js" := unlines ["'use strict'"; "// @name x"] ]}
           "a.user.js"
           (unlines ["// @name x"; "'use strict'"])
           (unlines ["'use strict'"; "// @name x"])).
  - reflexivity.
  - reflexivity.
  - discriminate.
  - reflexivity.
  - reflexivity.
  - reflexivity.
  - vm_compute. apply perm_swap.
Defined.

End ValidatorMore.

(** ** More on the generator *)

Module GeneratorMore.
Import Text Shell Generator GeneratorLogic GeneratorCases.

Section Files.
Variable sed : string -> string -> option string.
Variable can_write : string -> bool.















End Files.


(** *** The script, one command after the other *)

Section Steps.
Context {V A B : Type}.
Implicit Types (k : A -> sh V B) (s : shell V).

Lemma step_ret (a : A) k s : (mret a ≫= k) s = k a s.
Proof. reflexivity. Qed.

Lemma step_exit code k s : (exit_ code ≫= k) s = Exited code s.
Proof. reflexivity. Qed.

Lemma step_assoc {C} (c : sh V C) (k1 : C -> sh V A) k s :
  ((c ≫= k1) ≫= k) s = (c ≫= fun x => k1 x ≫= k) s.
Proof. unfold mbind, sh_bind. destruct (c s); reflexivity. Qed.

End Steps.

Lemma step_echo {V B} l (k : unit -> sh V B) s :
  (echo l ≫= k) s = k tt (Shell (vars s) (fs s) (stdout s ++ [l])).
Proof. reflexivity. Qed.

Lemma step_test_f {V B} path (k : bool -> sh V B) s :
  (test_f path ≫= k) s = k (bool_decide (is_Some (fs s !! path))) s.
Proof. reflexivity. Qed.

Lemma step_when_false {V B} body (k : unit -> sh V B) s :
  (when false body ≫= k) s = k tt s.
Proof. reflexivity. Qed.

Lemma step_when_true {V B} body (k : unit -> sh V B) s :
  (when true body ≫= k) s = (body ≫= k) s.
Proof. reflexivity. Qed.

Lemma for_echo {V} (ls : list out_line) (s : shell V) :
  for_ ls echo s = Running tt (Shell (vars s) (fs s) (stdout s ++ ls)).
Proof.
  revert s. induction ls as [|l ls IH]; intros s.
  - simpl. rewrite app_nil_r. destruct s; reflexivity.
  - change (for_ (l :: ls) echo s)
      with (for_ ls echo (Shell (vars s) (fs s) (stdout s ++ [l]))).
    rewrite IH. simpl. rewrite <- app_assoc. reflexivity.
Qed.

Lemma step_for_echo {V B} ls (k : unit -> sh V B) s :
  (for_ ls echo ≫= k) s = k tt (Shell (vars s) (fs s) (stdout s ++ ls)).
Proof. unfold mbind, sh_bind. rewrite for_echo. reflexivity. Qed.

Lemma step_errexit_ret {V B} st (k : unit -> sh V B) s :
  (errexit (mret st) ≫= k) s = if (st =? 0)%Z then k tt s else Exited st s.
Proof.
  unfold errexit, mbind, sh_bind, mret, sh_ret, exit_.
  destruct (st =? 0)%Z; reflexivity.
Qed.

Lemma step_read_end {B} (k : Z * string -> sh input B) s :
  vars s = "" -> (read_n1 ≫= k) s = k (1%Z, "") s.
Proof.
  intros E. unfold read_n1, mbind, sh_bind, get, put, mret, sh_ret.
  rewrite E. reflexivity.
Qed.

Lemma step_read_char {B} (k : Z * string -> sh input B) s c rest :
  vars s = String c rest ->
  (read_n1 ≫= k) s
  = k (0%Z, if Ascii.eqb c nl then "" else String c "")
      (Shell rest (fs s) (stdout s)).
Proof.
  intros E. unfold read_n1, mbind, sh_bind, get, put, mret, sh_ret.
  rewrite E. reflexivity.
Qed.

Ltac steps :=
  repeat first
    [ rewrite step_ret | rewrite step_exit | rewrite step_echo
    | rewrite step_test_f | rewrite step_when_false
    | rewrite step_when_true | rewrite step_assoc ];
  cbn [fs vars stdout negb].

Section Script.
Variable sed : string -> string -> option string.
Variable can_write : string -> bool.

Lemma step_cp {B} src dst (k : unit -> sh input B) s :
  (errexit (cp can_write src dst) ≫= k) s
  = match fs s !! src with
    | Some content =>
        if can_write dst && negb (String.eqb src dst)
        then k tt (Shell (vars s) (<[dst := content]> (fs s)) (stdout s))
        else Exited 1 s
    | None => Exited 1 s
    end.
Proof.
  unfold errexit, cp, mbind, sh_bind, mret, sh_ret, exit_.
  destruct (fs s !! src); [|reflexivity].
  destruct (can_write dst && negb (String.eqb src dst)); reflexivity.
Qed.

Lemma run_sed_i script path s text :
  fs s !! path = Some text ->
  errexit (sed_i sed script path) s
  = match sed script text with
    | Some text' =>
        Running tt (Shell (vars s) (<[path := text']> (fs s)) (stdout s))
    | None => Exited 1 s
    end.
Proof.
  intros E. unfold errexit, sed_i, mbind, sh_bind, mret, sh_ret, exit_.
  rewrite E. destruct (sed script text); reflexivity.
Qed.

(** The six commands make of the file what sed makes of its text under the
    six scripts in turn, and end the script where sed fails. *)
Lemma substitutions_run title url domain path s text :
  fs s !! path = Some text ->
  match sed_each sed (sed_scripts title url domain) text with
  | Some text' =>
      substitutions sed title url domain path s
      = Running tt (Shell (vars s) (<[path := text']> (fs s)) (stdout s))
  | None => exists s', substitutions sed title url domain path s = Exited 1 s'
  end.
Proof.
  intros E. unfold substitutions, sed_scripts. cbn [sed_each].
  repeat match goal with
  | |- context [(errexit (sed_i sed ?script path) ≫= ?k) ?s0] =>
      change ((errexit (sed_i sed script path) ≫= k) s0)
        with (match errexit (sed_i sed script path) s0 with
              | Running a s' => k a s'
              | Exited code s' => Exited code s'
              end);
      erewrite (run_sed_i script path s0)
        by (first [exact E | apply lookup_insert_eq]);
      destruct (sed script _); [|eexists; reflexivity]
  end.
  erewrite run_sed_i by (first [exact E | apply lookup_insert_eq]).
  destruct (sed _ _); [|eexists; reflexivity].
  cbn [fs vars stdout]. rewrite !insert_insert_eq. reflexivity.
Qed.

Lemma is_file_Some (files : gmap string string) path text :
  files !! path = Some text -> bool_decide (is_Some (files !! path)) = true.
Proof. intros E. apply bool_decide_eq_true_2. rewrite E. eexists. reflexivity. Qed.

Lemma is_file_None (files : gmap string string) path :
  files !! path = None -> bool_decide (is_Some (files !! path)) = false.
Proof. intros E. apply bool_decide_eq_false_2. rewrite E. apply is_Some_None. Qed.

Lemma reply_yes c :
  (String.eqb (if Ascii.eqb c nl then "" else String c "") "y"
   || String.eqb (if Ascii.eqb c nl then "" else String c "") "Y")
  = Ascii.eqb c "y" || Ascii.eqb c "Y".
Proof.
  destruct (Ascii.eqb_spec c nl) as [->|_]; [reflexivity|].
  simpl. destruct (Ascii.eqb c "y"), (Ascii.eqb c "Y"); reflexivity.
Qed.

Lemma step_run {A B} (c : sh input A) (k : A -> sh input B) s a s' :
  c s = Running a s' -> (c ≫= k) s = k a s'.
Proof. intros E. unfold mbind, sh_bind. rewrite E. reflexivity. Qed.

Lemma step_stop {A B} (c : sh input A) (k : A -> sh input B) s code s' :
  c s = Exited code s' -> (c ≫= k) s = Exited code s'.
Proof. intros E. unfold mbind, sh_bind. rewrite E. reflexivity. Qed.

Lemma quiet_echo l : quiet (echo l).
Proof. intros s. eexists. reflexivity. Qed.

Lemma quiet_bind (c : sh input unit) (k : unit -> sh input unit) :
  quiet c -> quiet (k tt) -> quiet (c ≫= k).
Proof.
  intros Hc Hk s. destruct (Hc s) as [out E].
  rewrite (step_run _ _ _ _ _ E).
  destruct (Hk (Shell (vars s) (fs s) out)) as [out' E']. exists out'. exact E'.
Qed.

Lemma if_same {A} (b : bool) (x : A) : (if b then x else x) = x.
Proof. destruct b; reflexivity. Qed.

Lemma run_refused (env : environment) (files : gmap string string)
    (name url kind : string) :
  name = "" \/ url = "" \/ template_file env kind = None
  \/ (exists t, template_file env kind = Some t /\ files !! t = None) ->
  exists out, run sed can_write env files name url kind
              = Exited 1 (Shell (stdin env) files out).
Proof.
  intros H. unfold run, generate_userscript.
  destruct (String.eqb name "" || String.eqb url "") eqn:E.
  { steps. rewrite step_for_echo. eexists. reflexivity. }
  assert (name <> "" /\ url <> "") as [Hn Hu].
  { apply orb_false_elim in E as [E1 E2].
    split; intros ->; discriminate. }
  destruct H as [H|[H|H]]; [contradiction|contradiction|].
  unfold template_file in H.
  set (TEMPLATE := if String.eqb kind "" then "basic" else kind) in *.
  destruct (String.eqb TEMPLATE "basic");
    [|destruct (String.eqb TEMPLATE "advanced");
      [|destruct (String.eqb TEMPLATE "spa")]].
  4: { steps. eexists. reflexivity. }
  all: destruct H as [H|(t & [= <-] & Hf)]; [discriminate|].
  all: steps; rewrite (is_file_None _ _ Hf); steps.
  all: eexists; reflexivity.
Qed.

(** The script from the question about the output file on. *)
Lemma run_template (env : environment) (files : gmap string string)
    (name url kind t content : string) :
  name <> "" -> url <> "" ->
  template_file env kind = Some t -> files !! t = Some content ->
  if confirmed env files name then
    match (if can_write (name +:+ ".user.js")
              && negb (String.eqb t (name +:+ ".user.js"))
           then sed_each sed (sed_scripts (SCRIPT_TITLE name) url (DOMAIN url))
                         content
           else None) with
    | Some text =>
        exists v out, run sed can_write env files name url kind
                      = Running tt (Shell v (<[name +:+ ".user.js" := text]> files) out)
    | None =>
        exists s, run sed can_write env files name url kind = Exited 1 s
    end
  else
    exists out,
      run sed can_write env files name url kind
      = match stdin env with
        | String _ rest => Exited 0 (Shell rest files out)
        | EmptyString => Exited 1 (Shell "" files out)
        end.
Proof.
  intros Hn Hu Ht Hc. unfold run, generate_userscript.
  replace (String.eqb name "" || String.eqb url "") with false
    by (symmetry; apply orb_false_intro; apply String.eqb_neq; assumption).
  unfold template_file in Ht.
  set (TEMPLATE := if String.eqb kind "" then "basic" else kind) in *.
  unfold confirmed.
  destruct (String.eqb TEMPLATE "basic");
    [|destruct (String.eqb TEMPLATE "advanced");
      [|destruct (String.eqb TEMPLATE "spa")]];
    try discriminate Ht; injection Ht as <-.
  all: steps; rewrite (is_file_Some _ _ _ Hc); steps.
  all: destruct (files !! (name +:+ ".user.js")) as [old|] eqn:Ho.
  all: try (rewrite (is_file_Some _ _ _ Ho)); try (rewrite (is_file_None _ _ Ho)).
  all: steps.
  all: try (destruct (stdin env) as [|c rest] eqn:Hin;
       [ rewrite step_read_end by reflexivity; cbv beta; cbn [fst snd]; steps;
         rewrite step_errexit_ret; cbn [Z.eqb]; eexists; reflexivity
       | rewrite (step_read_char _ _ c rest) by reflexivity;
         cbv beta; cbn [fst snd]; steps;
         rewrite step_errexit_ret; cbn [Z.eqb]; steps;
         rewrite reply_yes;
         destruct (Ascii.eqb c "y" || Ascii.eqb c "Y"); cbn [negb]; steps;
         [|eexists; reflexivity] ]).
  all: rewrite step_cp; cbn [fs]; rewrite Hc.
  all: destruct (can_write _ && negb _); [|eexists; reflexivity].
  all: match goal with
       | |- context [substitutions sed ?ti ?u ?d ?p] =>
           match goal with
           | |- context [(_ ≫= _) ?st] =>
               pose proof (substitutions_run ti u d p st content
                             ltac:(apply lookup_insert_eq)) as Hs
           end
       end.
  all: rewrite if_same.
  all: destruct (sed_each sed _ content) as [text|];
       [|destruct Hs as [s' Hs]; exists s'; apply (step_stop _ _ _ _ _ Hs)].
  all: rewrite (step_run _ _ _ _ _ Hs).
  all: match goal with
       | |- exists v out, ?c ?st = _ =>
           assert (quiet c) as Hq
             by (repeat (apply quiet_bind; [apply quiet_echo|]);
                 apply quiet_echo);
           destruct (Hq st) as [out ->]
       end.
  all: eexists _, _; cbn [fs vars]; rewrite insert_insert_eq; reflexivity.
Qed.

(** X8.  The script refuses to go on, with status 1, when an argument is
    missing, when the template is none of basic, advanced and spa, and when
    the file of the template is not there; it then has written no file and
    has read nothing from its input. *)
Theorem refusals (env : environment) (files : gmap string string)
    (name url kind : string) :
  name = "" \/ url = "" \/ template_file env kind = None
  \/ (exists t, template_file env kind = Some t /\ files !! t = None) ->
  status (run sed can_write env files name url kind) = 1%Z
  /\ fs (final (run sed can_write env files name url kind)) = files
  /\ vars (final (run sed can_write env files name url kind)) = stdin env.
Proof.
  intros H. destruct (run_refused env files name url kind H) as [out ->].
  repeat split.
Qed.

(** X9.  When the output file is there already, the script reads one
    character.  For a call that the model stands for, so with a byte of
    ASCII other than NUL at the head of the input: on any character other
    than [y] and [Y], a newline included, it ends with status 0, and at
    the end of the input with status 1; in both cases every file is as it
    was, the output file too. *)
Theorem overwrite_needs_yes (env : environment) (files : gmap string string)
    (name url kind t content old : string) :
  Scope.plain_call env name url = true ->
  name <> "" -> url <> "" ->
  template_file env kind = Some t -> files !! t = Some content ->
  files !! (name +:+ ".user.js") = Some old ->
  (stdin env = "" ->
     status (run sed can_write env files name url kind) = 1%Z
     /\ fs (final (run sed can_write env files name url kind)) = files)
  /\ (forall c rest,
        stdin env = String c rest -> c <> "y"%char -> c <> "Y"%char ->
        status (run sed can_write env files name url kind) = 0%Z
        /\ fs (final (run sed can_write env files name url kind)) = files
        /\ vars (final (run sed can_write env files name url kind)) = rest).
Proof.
  intros _ Hn Hu Ht Hc Ho.
  pose proof (run_template env files name url kind t content Hn Hu Ht Hc) as H.
  unfold confirmed in H. rewrite Ho in H. split.
  - intros E. rewrite E in H. destruct H as [out ->]. split; reflexivity.
  - intros c rest E Hy HY. rewrite E in H.
    apply Ascii.eqb_neq in Hy, HY. rewrite Hy, HY in H.
    destruct H as [out ->]. repeat split.
Qed.



End Script.

Lemma refusals_witness :
  status (run MiniSed.sed (fun _ => true) Samples.linux Samples.skill_files
              "dark-mode" "https://github.com/*" "fancy") = 1%Z.
Proof.
  apply (refusals MiniSed.sed (fun _ => true) Samples.linux Samples.skill_files
           "dark-mode" "https://github.com/*" "fancy").
  right. right. left. reflexivity.
Defined.

Lemma overwrite_needs_yes_witness :
  let env := Environment "/skill/templates" "linux-gnu" ("n" +:+ String nl "") in
  let files := <["dark-mode.user.js" := "mine"]> Samples.skill_files in
  status (run MiniSed.sed (fun _ => true) env files
              "dark-mode" "https://github.com/*" "basic") = 0%Z
  /\ fs (final (run MiniSed.sed (fun _ => true) env files
                    "dark-mode" "https://github.com/*" "basic")) = files
  /\ vars (final (run MiniSed.sed (fun _ => true) env files
                      "dark-mode" "https://github.com/*" "basic"))
     = String nl "".
Proof.
  intros env files.
  apply (proj2 (overwrite_needs_yes MiniSed.sed (fun _ => true) env files
                  "dark-mode" "https://github.com/*" "basic"
                  "/skill/templates/basic-template.user.js"
                  Samples.basic_template "mine"
                  eq_refl ltac:(discriminate) ltac:(discriminate)
                  eq_refl eq_refl eq_refl) "n"%char (String nl "")).
  - reflexivity.
  - discriminate.
  - discriminate.
Defined.



End GeneratorMore.

(** ** More on waitForElement *)

Module WaitMore.
Import Wait.

Lemma wait_run_app w ns more : run w (ns ++ more) = run (run w ns) more.
Proof. apply fold_left_app. Qed.

(** The three shapes of a call at any time: waiting with the observer
    connected, fulfilled, or rejected by the timeout branch, the last two
    with the observer disconnected. *)
Lemma run_shapes t sel tmo start present ns :
  let w := run (waitForElement t sel tmo start present) ns in
  w = Waiter t sel tmo start true Pending 0
  \/ (exists e, w = Waiter t sel tmo start false (Fulfilled e) 0)
  \/ w = Waiter t sel tmo start false (Rejected (timeout_message t sel)) 1.
Proof.
  induction ns as [|n ns IH] using rev_ind; simpl.
  - destruct present as [e|]; [right; left; exists e|left]; reflexivity.
  - rewrite wait_run_app. simpl in IH. destruct IH as [->|[[e ->]| ->]].
    + simpl. unfold deliver, callback. simpl.
      destruct (found n) as [e|]; [right; left; exists e; reflexivity|].
      destruct (tmo <? now n - start)%Z; [right; right|left]; reflexivity.
    + right. left. exists e. reflexivity.
    + right. right. reflexivity.
Qed.

(** X12.  At any time of any call, the observer is connected exactly while
    the promise is pending; the timeout branch has run at most once, and
    once exactly when the promise is rejected, with the message of the
    template.  A settled promise is final: once it is fulfilled or
    rejected, no later notification changes anything of the call. *)
Theorem observer_follows_promise (t : template) (sel : string)
    (tmo start : Z) (present : option element) (ns : list notification) :
  let w := run (waitForElement t sel tmo start present) ns in
  (observing w = true <-> state w = Pending)
  /\ timeouts w <= 1
  /\ (timeouts w = 1 <-> state w = Rejected (timeout_message t sel))
  /\ (forall m, state w = Rejected m -> m = timeout_message t sel)
  /\ (forall more,
        state w <> Pending ->
        run (waitForElement t sel tmo start present) (ns ++ more) = w).
Proof.
  assert (forall more,
            state (run (waitForElement t sel tmo start present) ns) <> Pending ->
            run (waitForElement t sel tmo start present) (ns ++ more)
            = run (waitForElement t sel tmo start present) ns) as Hfinal.
  { intros more H. rewrite wait_run_app. apply WaitFacts.run_disconnected.
    destruct (run_shapes t sel tmo start present ns) as [E|[[e E]|E]];
      simpl in *; rewrite E in *; simpl in *; [contradiction| |]; reflexivity. }
  revert Hfinal.
  destruct (run_shapes t sel tmo start present ns) as [H|[[e H]|H]];
    simpl in *; rewrite H; simpl; intros Hfinal;
    repeat split; intros; try discriminate; try lia; try congruence;
    try (apply Hfinal; assumption).
Qed.

Lemma observer_follows_promise_witness :
  run (waitForElement SpaCompatible "#app" 10000 0 None)
      ([Notification 12000 None] ++ [Notification 13000 (Some 7)])
  = run (waitForElement SpaCompatible "#app" 10000 0 None)
        [Notification 12000 None].
Proof.
  apply (observer_follows_promise SpaCompatible "#app" 10000 0 None
           [Notification 12000 None]).
  discriminate.
Defined.

(** X13.  The promise is fulfilled with the element of the first
    notification that finds one, when the selector was absent at the call
    and no notification before that one came after the timeout; this
    holds also when that notification itself comes after the timeout.
    With the element present at the call the promise is fulfilled at once
    and the observer is never connected. *)
Theorem first_match_fulfils (t : template) (sel : string) (tmo start : Z)
    (before after : list notification) (n : notification) (e : element) :
  Forall (fun m => found m = None /\ ~ late tmo start m) before ->
  found n = Some e ->
  run (waitForElement t sel tmo start None) (before ++ n :: after)
  = Waiter t sel tmo start false (Fulfilled e) 0
  /\ run (waitForElement t sel tmo start (Some e)) (before ++ n :: after)
     = Waiter t sel tmo start false (Fulfilled e) 0.
Proof.
  intros Hb Hn. split.
  - rewrite wait_run_app.
    assert (run (waitForElement t sel tmo start None) before
            = Waiter t sel tmo start true Pending 0) as ->.
    { induction before as [|m before IH] using rev_ind; [reflexivity|].
      apply Forall_app in Hb as [Hb Hm]. inversion Hm as [|? ? [Hf Hl] _]; subst.
      rewrite wait_run_app, (IH Hb). simpl. unfold deliver, callback. simpl.
      rewrite Hf. unfold late in Hl.
      destruct (Z.ltb_spec tmo (now m - start)); [contradiction|reflexivity]. }
    change (run ?w (n :: after)) with (run (deliver w n) after).
    unfold deliver, callback. simpl. rewrite Hn. simpl.
    apply WaitFacts.run_disconnected. reflexivity.
  - apply WaitFacts.run_disconnected. reflexivity.
Qed.

Lemma first_match_fulfils_witness :
  run (waitForElement AdvancedTemplate "#app" 10000 0 None)
      ([Notification 4000 None] ++ Notification 12000 (Some 7)
         :: [Notification 13000 None])
  = Waiter AdvancedTemplate "#app" 10000 0 false (Fulfilled 7) 0.
Proof.
  apply (first_match_fulfils AdvancedTemplate "#app" 10000 0
           [Notification 4000 None] [Notification 13000 None]
           (Notification 12000 (Some 7)) 7).
  - repeat constructor. unfold late. simpl. lia.
  - reflexivity.
Defined.

End WaitMore.

(** ** More on the route table *)

Module RouteMore.
Import Text Routes Page.

Section Host.
Context {engine : Engine}.
Variable Handler : Type.
Implicit Types (r : route Handler) (routes : list (route Handler)).

Lemma match_miss r rest url :
  misses r url -> match_ (r :: rest) url = match_ rest url.
Proof. intros (regex & Hr & Hm). simpl. rewrite Hr, Hm. reflexivity. Qed.

Lemma match_misses pre rest url :
  Forall (fun r => misses r url) pre ->
  match_ (pre ++ rest) url = match_ rest url.
Proof.
  induction 1 as [|r pre Hr _ IH]; [reflexivity|].
  simpl app. rewrite (match_miss _ _ _ Hr). exact IH.
Qed.

(** X14.  With any number of routes, the first in the order of
    registration whose pattern matches wins: the routes before it have
    missed, and the routes after it are not looked at, be they matching
    or malformed.  [initPage] then calls that handler and does not run
    the default logic. *)
Theorem first_matching_route_wins (pre rest : list (route Handler))
    (r : route Handler) (url : string) (regex : RegExp) (m : list value) :
  Forall (fun r' => misses r' url) pre ->
  regex_of (pattern r) = Some regex ->
  String_match url regex = Some m ->
  match_ (pre ++ r :: rest) url
  = Return (Some (Matched (handler r) (slice1 m)))
  /\ initPage (pre ++ r :: rest) url
     = [Logged ["Initializing page:"; url];
        Routed (Log "Route matched:" url);
        Routed (Call (handler r) (slice1 m))].
Proof.
  intros Hpre Hr Hm.
  assert (match_ (pre ++ r :: rest) url
          = Return (Some (Matched (handler r) (slice1 m)))) as E.
  { rewrite (match_misses _ _ _ Hpre).
    apply (RouteFacts.match_head Handler r rest url regex m Hr Hm). }
  split; [exact E|].
  unfold initPage, handle. rewrite E. reflexivity.
Qed.

(** X15.  [match] returns [null] exactly when the pattern of every route
    is well formed and none matches; [handle] then returns [false]
    without a call, and [initPage] runs the default logic. *)
Theorem no_route_matches (routes : list (route Handler)) (url : string) :
  (match_ routes url = Return None
   <-> Forall (fun r => misses r url) routes)
  /\ (Forall (fun r => misses r url) routes ->
      handle routes url = Return (false, [])
      /\ initPage routes url
         = [Logged ["Initializing page:"; url];
            Logged ["No specific route handler, running default logic"];
            Logged ["Default page logic executed"]]).
Proof.
  assert (Forall (fun r => misses r url) routes -> match_ routes url = Return None)
    as Hnone.
  { intros H. rewrite <- (app_nil_r routes). apply (match_misses _ [] _ H). }
  split; [split; [|exact Hnone]|].
  - induction routes as [|r routes IH]; intros H; [constructor|].
    simpl in H.
    destruct (regex_of (pattern r)) as [regex|] eqn:Hr; [|discriminate].
    destruct (String_match url regex) as [m|] eqn:Hm; [discriminate|].
    constructor.
    + exists regex. split; assumption.
    + apply IH; [|exact H].
      intros Hall. rewrite <- (app_nil_r routes).
      apply (match_misses _ [] _ Hall).
  - intros H. unfold initPage, handle. rewrite (Hnone H). split; reflexivity.
Qed.

(** X16.  A pattern given as a string that yields no regular expression
    makes [match] and [handle] throw when the search reaches it, that is
    when every route before it has missed; [initPage] catches the error,
    calls no handler and does not run the default logic. *)
Theorem malformed_pattern_throws (pre rest : list (route Handler))
    (r : route Handler) (url : string) :
  Forall (fun r' => misses r' url) pre ->
  malformed r ->
  match_ (pre ++ r :: rest) url = Throw
  /\ handle (pre ++ r :: rest) url = Throw
  /\ initPage (pre ++ r :: rest) url
     = [Logged ["Initializing page:"; url];
        ConsoleError ["Error initializing page:"]].
Proof.
  intros Hpre Hr.
  assert (match_ (pre ++ r :: rest) url = Throw) as E.
  { rewrite (match_misses _ _ _ Hpre). simpl.
    unfold malformed in Hr. rewrite Hr. reflexivity. }
  unfold initPage, handle. rewrite E. repeat split.
Qed.

(** X17.  Registering one more route changes nothing for a URL on which
    the table matched or threw before; the new route is looked at only
    when all the others have missed. *)
Theorem add_keeps_earlier_routes (routes : list (route Handler))
    (p : route_pattern) (h : Handler) (url : string) :
  match_ (add p h routes) url
  = match match_ routes url with
    | Return None => match_ (add p h new_RouteHandler) url
    | outcome => outcome
    end.
Proof.
  unfold add, new_RouteHandler. simpl app.
  induction routes as [|r routes IH]; [reflexivity|].
  simpl app. cbn [match_].
  destruct (regex_of (pattern r)) as [regex|]; [|reflexivity].
  destruct (String_match url regex); [reflexivity|exact IH].
Qed.

End Host.

Lemma replace_params_plain text :
  Generator.has_char ":" text = false -> replace_params false text = text.
Proof.
  induction text as [|c text IH]; [reflexivity|].
  cbn [Generator.has_char replace_params andb]. intros H.
  apply orb_false_elim in H as [Hc Ht].
  rewrite (Ascii.eqb_sym c), Hc. cbn [andb]. rewrite (IH Ht). reflexivity.
Qed.

Lemma replace_stars_plain text :
  Generator.has_char "*" text = false -> replace_stars text = text.
Proof.
  induction text as [|c text IH]; [reflexivity|].
  cbn [Generator.has_char replace_stars]. intros H.
  apply orb_false_elim in H as [Hc Ht].
  rewrite (Ascii.eqb_sym c), Hc. rewrite (IH Ht). reflexivity.
Qed.

(** X18.  A pattern given as a string with no colon and no star is taken
    as the source of the regular expression as it stands, between [^] and
    [$]: the characters that are special in a regular expression are not
    quoted. *)
Theorem plain_pattern_is_verbatim (text : string) :
  Generator.has_char ":" text = false ->
  Generator.has_char "*" text = false ->
  regex_source text = "^" +:+ text +:+ "$".
Proof.
  intros Hc Hs. unfold regex_source.
  rewrite (replace_params_plain _ Hc), (replace_stars_plain _ Hs). reflexivity.
Qed.

Lemma plain_pattern_is_verbatim_witness :
  regex_source "/search?q=.+" = "^/search?q=.+$".
Proof.
  apply (plain_pattern_is_verbatim "/search?q=.+"); reflexivity.
Defined.

Import MiniRegExp.

Lemma first_matching_route_wins_witness :
  initPage [Route (PString "/home") HomePage;
            Route (PString "/user/:id") UserPage;
            Route (PString "/posts/(") PostComments] "/user/42"
  = [Logged ["Initializing page:"; "/user/42"];
     Routed (Log "Route matched:" "/user/42");
     Routed (Call UserPage [Str "42"])].
Proof.
  apply (first_matching_route_wins (engine := rx_engine) template_handler
           [Route (PString "/home") HomePage]
           [Route (PString "/posts/(") PostComments]
           (Route (PString "/user/:id") UserPage) "/user/42"
           (MkRegExp (engine := rx_engine) (default RxEmpty (rx_compile "^/user/([^/]+)$")) false)
           [Str "/user/42"; Str "42"]).
  - repeat constructor.
    exists (MkRegExp (engine := rx_engine) (default RxEmpty (rx_compile "^/home$")) false).
    split; reflexivity.
  - reflexivity.
  - reflexivity.
Defined.

Lemma no_route_matches_witness :
  initPage router "/about"
  = [Logged ["Initializing page:"; "/about"];
     Logged ["No specific route handler, running default logic"];
     Logged ["Default page logic executed"]].
Proof.
  apply (proj2 (no_route_matches (engine := rx_engine) template_handler router "/about")).
  apply (proj1 (no_route_matches (engine := rx_engine) template_handler router "/about")).
  reflexivity.
Defined.

Lemma malformed_pattern_throws_witness :
  initPage [Route (PString "/home") HomePage;
            Route (PString "/posts/(") PostComments;
            Route (PString "/user/:id") UserPage] "/user/42"
  = [Logged ["Initializing page:"; "/user/42"];
     ConsoleError ["Error initializing page:"]].
Proof.
  apply (malformed_pattern_throws (engine := rx_engine) template_handler
           [Route (PString "/home") HomePage]
           [Route (PString "/user/:id") UserPage]
           (Route (PString "/posts/(") PostComments) "/user/42").
  - repeat constructor.
    exists (MkRegExp (engine := rx_engine) (default RxEmpty (rx_compile "^/home$")) false).
    split; reflexivity.
  - reflexivity.
Defined.

End RouteMore.

(** ** The navigation detector *)

Module NavigationFacts.
Import Navigation NavigationLogic.

Lemma callbacks_app d l :
  callbacks (Detector (lastUrl d) (effects d ++ l))
  = callbacks d
    ++ flat_map (fun e => match e with Callback url => [url] | Log _ _ => [] end) l.
Proof. unfold callbacks. simpl. apply flat_map_app. Qed.

Lemma on_event_spec d e :
  lastUrl (on_event d e) = href_of e
  /\ callbacks (on_event d e)
     = callbacks d ++ changes (lastUrl d) [href_of e].
Proof.
  destruct e as [u|u]; simpl;
    destruct (String.eqb_spec u (lastUrl d)) as [->|Hne]; simpl;
    (split; [reflexivity|]);
    try (rewrite app_nil_r; reflexivity);
    unfold callbacks; simpl; rewrite flat_map_app; reflexivity.
Qed.

Lemma last_cons (u : string) l prev : List.last (u :: l) prev = List.last l u.
Proof.
  revert u prev. induction l as [|v l IH]; intros u prev; [reflexivity|].
  change (List.last (u :: v :: l) prev) with (List.last (v :: l) prev).
  rewrite !IH. reflexivity.
Qed.

Lemma changes_app prev l1 l2 :
  changes prev (l1 ++ l2) = changes prev l1 ++ changes (List.last l1 prev) l2.
Proof.
  revert prev. induction l1 as [|u l1 IH]; intros prev; [reflexivity|].
  rewrite last_cons. simpl app. cbn [changes].
  destruct (String.eqb u prev); [apply IH|]. simpl. rewrite IH. reflexivity.
Qed.

Lemma run_spec es : forall d,
  lastUrl (run d es) = List.last (List.map href_of es) (lastUrl d)
  /\ callbacks (run d es)
     = callbacks d ++ changes (lastUrl d) (List.map href_of es).
Proof.
  induction es as [|e es IH] using rev_ind; intros d.
  - simpl. rewrite app_nil_r. split; reflexivity.
  - unfold run. rewrite fold_left_app. simpl.
    fold (run d es). destruct (IH d) as [Hl Hc].
    destruct (on_event_spec (run d es) e) as [Hl' Hc'].
    rewrite Hl', Hc', Hc, Hl. rewrite List.map_app.
    change (List.map href_of [e]) with [href_of e].
    rewrite List.last_last, changes_app, app_assoc. split; reflexivity.
Qed.

Lemma changes_differ prev urls : adjacent_differ prev (changes prev urls).
Proof.
  revert prev. induction urls as [|u urls IH]; intros prev; [exact I|].
  simpl. destruct (String.eqb_spec u prev) as [->|Hne]; [apply IH|].
  simpl. split; [exact Hne|apply IH].
Qed.

Lemma changes_length prev urls :
  List.length (changes prev urls) <= List.length urls.
Proof.
  revert prev. induction urls as [|u urls IH]; intros prev; [reflexivity|].
  simpl. specialize (IH u). destruct (String.eqb u prev); simpl; lia.
Qed.

Lemma changes_last prev urls :
  List.last (changes prev urls) prev = List.last urls prev.
Proof.
  revert prev. induction urls as [|u urls IH]; intros prev; [reflexivity|].
  rewrite last_cons. cbn [changes].
  destruct (String.eqb_spec u prev) as [->|Hne]; [apply IH|].
  rewrite last_cons. apply IH.
Qed.

(** X19.  After any notifications and [popstate] events, [lastUrl] is the
    location of the last of them.  The callback has been called with the
    locations that differ from the one before, in order, whichever of the
    two listeners saw them: never twice in a row with one URL, never first
    with the URL of the start, at most once for an event, and last with
    the location of now. *)
Theorem callbacks_follow_changes (href : string) (es : list event) :
  let d := run (start href) es in
  lastUrl d = List.last (List.map href_of es) href
  /\ callbacks d = changes href (List.map href_of es)
  /\ adjacent_differ href (callbacks d)
  /\ List.length (callbacks d) <= List.length es
  /\ List.last (callbacks d) href = lastUrl d.
Proof.
  destruct (run_spec es (start href)) as [Hl Hc]. simpl in *.
  rewrite Hl, Hc. split; [reflexivity|]. split; [reflexivity|].
  split; [apply changes_differ|]. split.
  - rewrite <- (List.length_map href_of es). apply changes_length.
  - apply changes_last.
Qed.

End NavigationFacts.

(** ** More on the bookmarks *)

Module BookmarkMore.
Import Bookmarks BookmarkLogic.

Lemma get_after_save st v l : getBookmarks (saveBookmarks st v l) v = Some l.
Proof.
  unfold getBookmarks, saveBookmarks, GM_getValue, GM_setValue.
  rewrite lookup_insert_eq. apply BookmarkFacts.parse_stringify.
Qed.

Lemma sort_of_sorted l :
  Sorted Z.le (List.map time l) -> sort_by_time l = l.
Proof.
  induction l as [|x l IH]; [reflexivity|].
  intros Hs. inversion Hs as [|? ? Hs' Hhd]; subst.
  simpl. rewrite (IH Hs'). destruct l as [|y l]; [reflexivity|].
  simpl. inversion Hhd as [|? ? Hle]; subst.
  apply Z.leb_le in Hle. rewrite Hle. reflexivity.
Qed.

Lemma filter_insert_out (p : bookmark -> bool) x l :
  p x = false -> List.filter p (insert_by_time x l) = List.filter p l.
Proof.
  intros Hx. induction l as [|y l IH]; simpl; [rewrite Hx; reflexivity|].
  destruct (time x <=? time y)%Z; simpl; [rewrite Hx; reflexivity|].
  rewrite IH. reflexivity.
Qed.

Lemma hdrel_filter (p : bookmark -> bool) x l :
  Forall (fun y => (time x <= time y)%Z) l ->
  insert_by_time x (List.filter p l) = x :: List.filter p l.
Proof.
  intros H. induction H as [|y l Hy _ IH]; [reflexivity|].
  simpl. destruct (p y); [|exact IH].
  simpl. apply Z.leb_le in Hy. rewrite Hy. reflexivity.
Qed.

Lemma filter_insert_in (p : bookmark -> bool) x l :
  StronglySorted Z.le (List.map time l) -> p x = true ->
  List.filter p (insert_by_time x l) = insert_by_time x (List.filter p l).
Proof.
  intros Hs Hx. induction l as [|y l IH]; simpl; [rewrite Hx; reflexivity|].
  inversion Hs as [|? ? Hs' Hall]; subst.
  destruct (Z.leb_spec (time x) (time y)) as [Hle|Hgt].
  - simpl. rewrite Hx.
    change (if p y then y :: List.filter p l else List.filter p l)
      with (List.filter p (y :: l)).
    symmetry. apply hdrel_filter. constructor; [exact Hle|].
    apply List.Forall_forall. intros z Hz.
    rewrite List.Forall_forall in Hall.
    specialize (Hall (time z) (in_map time _ _ Hz)). lia.
  - simpl. rewrite (IH Hs'). destruct (p y); [|reflexivity].
    simpl. apply Z.leb_gt in Hgt. rewrite Hgt. reflexivity.
Qed.

Lemma sort_strongly_sorted l :
  StronglySorted Z.le (List.map time (sort_by_time l)).
Proof.
  apply Sorted_StronglySorted; [|apply BookmarkFacts.sort_sorted].
  intros a b c. apply Z.le_trans.
Qed.

(** Filtering and sorting by time can be done in either order. *)
Lemma filter_sort (p : bookmark -> bool) l :
  List.filter p (sort_by_time l) = sort_by_time (List.filter p l).
Proof.
  induction l as [|x l IH]; [reflexivity|].
  simpl. destruct (p x) eqn:Hx.
  - rewrite filter_insert_in by (apply sort_strongly_sorted || exact Hx).
    simpl. rewrite IH. reflexivity.
  - rewrite (filter_insert_out _ _ _ Hx). exact IH.
Qed.

Lemma filter_all (p : bookmark -> bool) l :
  Forall (fun b => p b = true) l -> List.filter p l = l.
Proof.
  induction 1 as [|x l Hx _ IH]; [reflexivity|].
  simpl. rewrite Hx, IH. reflexivity.
Qed.

Lemma filter_sublist (p : bookmark -> bool) l : sublist (List.filter p l) l.
Proof.
  induction l as [|x l IH]; simpl; [constructor|].
  destruct (p x); [apply sublist_skip|apply sublist_cons]; exact IH.
Qed.

Lemma key_injective x y : getStorageKey (Some x) = getStorageKey (Some y) -> x = y.
Proof. unfold getStorageKey. intros H. injection H as H. exact H. Qed.

(** X20.  What [saveBookmarks] stores for a video, [getBookmarks] reads
    back on the page of that video as it was given: every list of
    bookmarks, whatever its times and notes, goes through [JSON.stringify],
    the store and [JSON.parse] unchanged; and it replaces what was there. *)
Theorem saved_bookmarks_read_back (st : storage) (v : option string)
    (l l' : list bookmark) :
  getBookmarks (saveBookmarks st v l) v = Some l
  /\ saveBookmarks (saveBookmarks st v l') v l = saveBookmarks st v l.
Proof.
  split; [apply get_after_save|].
  unfold saveBookmarks, GM_setValue. apply insert_insert_eq.
Qed.

(** What is listed after an addition at a new time. *)
Lemma added_listing st v now old :
  getBookmarks st v = Some old ->
  ~ In now (List.map time old) ->
  getBookmarks (addBookmark st v now) v
  = Some (sort_by_time (old ++ [Bookmark now ""]))
  /\ List.filter (fun b => negb (time b =? now)%Z)
       (sort_by_time (old ++ [Bookmark now ""]))
     = sort_by_time old.
Proof.
  intros Hold Hnew.
  assert (existsb (fun b => (time b =? now)%Z) old = false) as E.
  { destruct (existsb _ old) eqn:E; [|reflexivity].
    apply BookmarkFacts.existsb_time in E. contradiction. }
  split.
  - unfold addBookmark. rewrite Hold, E. apply get_after_save.
  - rewrite filter_sort, List.filter_app. simpl. rewrite Z.eqb_refl. simpl.
    rewrite app_nil_r. f_equal. apply filter_all.
    apply List.Forall_forall. intros b Hb.
    destruct (Z.eqb_spec (time b) now) as [Hb'|]; [|reflexivity].
    exfalso. apply Hnew. rewrite <- Hb'. apply in_map, Hb.
Qed.

(** X21.  Adding at a time that has no bookmark yet lists one bookmark
    more, with that time and an empty note; the list is in the order of
    the times, and the bookmarks that were there are all kept: in the
    order they had, when that was the order of their times. *)
Theorem add_lists_new_bookmark (st : storage) (v : option string) (now : Z)
    (old : list bookmark) :
  getBookmarks st v = Some old ->
  ~ In now (List.map time old) ->
  exists new,
    getBookmarks (addBookmark st v now) v = Some new
    /\ Permutation new (Bookmark now "" :: old)
    /\ Sorted Z.le (List.map time new)
    /\ List.filter (fun b => negb (time b =? now)%Z) new
       = sort_by_time old
    /\ (Sorted Z.le (List.map time old) ->
        List.filter (fun b => negb (time b =? now)%Z) new = old).
Proof.
  intros Hold Hnew.
  exists (sort_by_time (old ++ [Bookmark now ""])).
  destruct (added_listing st v now old Hold Hnew) as [G F].
  repeat split.
  - exact G.
  - rewrite <- BookmarkFacts.sort_perm.
    rewrite Permutation_app_comm. reflexivity.
  - apply BookmarkFacts.sort_sorted.
  - exact F.
  - intros Hs. rewrite F. apply sort_of_sorted, Hs.
Qed.

Lemma add_lists_new_bookmark_witness :
  exists new,
    getBookmarks (addBookmark (after [Add (Some "dQw4") 30; Add (Some "dQw4") 10])
                              (Some "dQw4") 20) (Some "dQw4")
    = Some new
    /\ Permutation new [Bookmark 20 ""; Bookmark 10 ""; Bookmark 30 ""].
Proof.
  destruct (add_lists_new_bookmark
              (after [Add (Some "dQw4") 30%Z; Add (Some "dQw4") 10%Z])
              (Some "dQw4") 20%Z [Bookmark 10 ""; Bookmark 30 ""])
    as (new & H1 & H2 & _).
  - reflexivity.
  - simpl. intros [H|[H|[]]]; discriminate H.
  - exists new. split; assumption.
Defined.

(** X22.  Deleting at a time leaves no bookmark with that time and keeps
    every other bookmark, in the order they had; deleting at a time that
    has no bookmark changes nothing of the list. *)
Theorem delete_removes_time (st : storage) (v : option string) (t : Z)
    (old : list bookmark) :
  getBookmarks st v = Some old ->
  exists new,
    getBookmarks (deleteBookmark st v t) v = Some new
    /\ ~ In t (List.map time new)
    /\ (forall b, In b new <-> In b old /\ time b <> t)
    /\ sublist new old
    /\ (exists gone, Permutation old (new ++ gone)
                     /\ Forall (fun b => time b = t) gone)
    /\ (~ In t (List.map time old) -> new = old).
Proof.
  intros Hold.
  exists (List.filter (fun b => negb (time b =? t)%Z) old).
  split; [unfold deleteBookmark; rewrite Hold; apply get_after_save|].
  split; [|split; [|split; [apply filter_sublist|split]]].
  - intros Hin. apply in_map_iff in Hin as (b & Hb & Hin).
    apply List.filter_In in Hin as [_ Hin]. rewrite Hb, Z.eqb_refl in Hin.
    discriminate Hin.
  - intros b. rewrite List.filter_In. split; intros [Hin Hb]; split; auto.
    + intros E. rewrite E, Z.eqb_refl in Hb. discriminate Hb.
    + apply Z.eqb_neq in Hb. rewrite Hb. reflexivity.
  - exists (List.filter (fun b => (time b =? t)%Z) old). split.
    + clear Hold. induction old as [|b old IH]; simpl; [reflexivity|].
      destruct (time b =? t)%Z; simpl.
      * rewrite <- Permutation_middle. constructor. exact IH.
      * constructor. exact IH.
    + apply List.Forall_forall. intros b Hb.
      apply List.filter_In in Hb as [_ Hb]. apply Z.eqb_eq, Hb.
  - intros Hno. apply filter_all. apply List.Forall_forall. intros b Hb.
    destruct (Z.eqb_spec (time b) t) as [E|]; [|reflexivity].
    exfalso. apply Hno. rewrite <- E. apply in_map, Hb.
Qed.

Lemma delete_removes_time_witness :
  exists new,
    getBookmarks (deleteBookmark (after [Add (Some "dQw4") 30; Add (Some "dQw4") 10])
                                 (Some "dQw4") 30) (Some "dQw4")
    = Some new
    /\ ~ In 30%Z (List.map time new).
Proof.
  destruct (delete_removes_time
              (after [Add (Some "dQw4") 30%Z; Add (Some "dQw4") 10%Z])
              (Some "dQw4") 30%Z [Bookmark 10 ""; Bookmark 30 ""])
    as (new & H1 & H2 & _).
  - reflexivity.
  - exists new. split; assumption.
Defined.

(** X23.  After any history of additions and deletions, adding at a time
    that has no bookmark and deleting at that time again gives back the
    list of before. *)
Theorem add_then_delete_restores (history : list action) (v : option string)
    (now : Z) :
  forall old, getBookmarks (after history) v = Some old ->
  ~ In now (List.map time old) ->
  getBookmarks (deleteBookmark (addBookmark (after history) v now) v now) v
  = Some old.
Proof.
  intros old Hold Hnew.
  destruct (BookmarkFacts.getBookmarks_well_kept (after history) v
              (BookmarkFacts.after_well_kept history)) as (l & Hl & Hs & _).
  rewrite Hold in Hl. injection Hl as <-.
  destruct (added_listing _ v now old Hold Hnew) as [Hget Hf].
  unfold deleteBookmark.
  rewrite Hget, get_after_save, Hf, (sort_of_sorted _ Hs). reflexivity.
Qed.

Lemma add_then_delete_restores_witness :
  getBookmarks
    (deleteBookmark
       (addBookmark (after [Add (Some "dQw4") 30; Add (Some "dQw4") 10])
                    (Some "dQw4") 20) (Some "dQw4") 20) (Some "dQw4")
  = Some [Bookmark 10 ""; Bookmark 30 ""].
Proof.
  apply (add_then_delete_restores
           [Add (Some "dQw4") 30%Z; Add (Some "dQw4") 10%Z]
           (Some "dQw4") 20%Z [Bookmark 10 ""; Bookmark 30 ""]).
  - reflexivity.
  - simpl. intros [H|[H|[]]]; discriminate H.
Defined.

(** X24.  The bookmarks of a video are its own: what is added or deleted
    on the page of one video changes nothing of what is listed on the page
    of a video with another id. *)
Theorem videos_do_not_interfere (st : storage) (a : action) (x y : string) :
  video_of a = Some x -> x <> y ->
  getBookmarks (step st a) (Some y) = getBookmarks st (Some y).
Proof.
  intros Hv Hne.
  assert (forall l, getBookmarks (saveBookmarks st (Some x) l) (Some y)
                    = getBookmarks st (Some y)) as Hsave.
  { intros l. unfold getBookmarks, saveBookmarks, GM_getValue, GM_setValue.
    rewrite lookup_insert_ne; [reflexivity|].
    intros E. apply Hne, key_injective, E. }
  destruct a as [v now|v t]; simpl in Hv; subst v; simpl.
  - unfold addBookmark. destruct (getBookmarks st (Some x)); [|reflexivity].
    destruct (existsb _ _); [reflexivity|apply Hsave].
  - unfold deleteBookmark. destruct (getBookmarks st (Some x)); [|reflexivity].
    apply Hsave.
Qed.

Lemma videos_do_not_interfere_witness :
  getBookmarks (step (after [Add (Some "dQw4") 30]) (Add (Some "abcd") 5))
               (Some "dQw4")
  = getBookmarks (after [Add (Some "dQw4") 30]) (Some "dQw4").
Proof.
  apply (videos_do_not_interfere (after [Add (Some "dQw4") 30%Z])
           (Add (Some "abcd") 5%Z) "abcd" "dQw4").
  - reflexivity.
  - discriminate.
Defined.

End BookmarkMore.

(** ** The labels of the bookmarks *)

Module TimeLabelFacts.
Import Bookmarks BookmarkLogic TimeLabel.

Local Arguments String.append !_ _ /.

Lemma pad_two_digits (n : nat) :
  (n < 60)%nat ->
  two_digits (padStart 2 "0" (number (Z.of_nat n))) = Some (Z.of_nat n).
Proof.
  intros H.
  do 60 (destruct n as [|n]; [vm_compute; reflexivity|]).
  lia.
Qed.

Lemma two_digits_length s z : two_digits s = Some z -> String.length s = 2.
Proof.
  destruct s as [|a [|b [|c s]]]; try discriminate. reflexivity.
Qed.

Lemma seconds_field (s : Z) :
  (0 <= s)%Z ->
  two_digits (padStart 2 "0" (number (Z.rem s 60))) = Some (s mod 60)%Z.
Proof.
  intros H. rewrite Z.rem_mod_nonneg by lia.
  pose proof (Z.mod_pos_bound s 60 ltac:(lia)) as Hb.
  rewrite <- (Z2Nat.id (s mod 60)) by lia.
  apply pad_two_digits. lia.
Qed.

Lemma label_parse (s : Z) :
  (0 <= s)%Z ->
  parse_number (formatTime s)
  = Some ((s / 60)%Z, ":" +:+ padStart 2 "0" (number (Z.rem s 60))).
Proof.
  intros H. unfold formatTime. cbv zeta.
  apply BookmarkFacts.parse_number_number. reflexivity.
Qed.

(** X25.  The label of a time of zero or more whole seconds, up to the
    largest safe whole number, is the minutes, a colon and the seconds
    left in two digits, the minutes not being cut at sixty; and two such
    times with one label are one time, so that the labels of a list of
    bookmarks tell its bookmarks apart. *)
Theorem labels_tell_times_apart (a b : Z) :
  (0 <= a <= MAX_SAFE_INTEGER)%Z -> (0 <= b <= MAX_SAFE_INTEGER)%Z ->
  (exists field,
     formatTime a = number (a / 60) +:+ ":" +:+ field
     /\ String.length field = 2
     /\ two_digits field = Some (a mod 60)%Z)
  /\ (formatTime a = formatTime b -> a = b).
Proof.
  intros [Ha _] [Hb _]. split.
  - exists (padStart 2 "0" (number (Z.rem a 60))).
    pose proof (seconds_field a Ha) as Hf.
    split; [reflexivity|]. split; [|exact Hf].
    apply (two_digits_length _ _ Hf).
  - intros E.
    pose proof (label_parse a Ha) as Pa. pose proof (label_parse b Hb) as Pb.
    rewrite E, Pb in Pa. injection Pa as Hm Hs.
    pose proof (seconds_field a Ha) as Fa. pose proof (seconds_field b Hb) as Fb.
    rewrite <- Hs, Fb in Fa. injection Fa as Hr.
    rewrite (Z.div_mod a 60), (Z.div_mod b 60) by lia.
    rewrite <- Hm, Hr. reflexivity.
Qed.

Lemma labels_tell_times_apart_witness :
  exists field,
    formatTime 3725 = number (3725 / 60) +:+ ":" +:+ field
    /\ String.length field = 2
    /\ two_digits field = Some (3725 mod 60)%Z.
Proof.
  apply (labels_tell_times_apart 3725 3725); unfold MAX_SAFE_INTEGER; lia.
Defined.

End TimeLabelFacts.

(** ** The wait for the video player *)

Module VideoPollFacts.
Import VideoPoll.

Lemma run_stopped p ticks : interval p = false -> run p ticks = p.
Proof.
  intros H. induction ticks as [|t ticks IH]; [reflexivity|].
  change (run p (t :: ticks)) with (run (tick p t) ticks).
  unfold tick. rewrite H. exact IH.
Qed.

Lemma run_polling p ticks :
  interval p = true ->
  (~ In true ticks /\ run p ticks = p)
  \/ (In true ticks
      /\ run p ticks = Poller false (S (setups p)) (logged p ++ [["Ready!"]])).
Proof.
  intros H. induction ticks as [|t ticks IH].
  - left. split; [intros []|reflexivity].
  - change (run p (t :: ticks)) with (run (tick p t) ticks).
    unfold tick. rewrite H. destruct t; simpl.
    + right. split; [left; reflexivity|]. apply run_stopped. reflexivity.
    + destruct IH as [[Hno E]|[Hyes E]].
      * left. split; [|exact E]. intros [F|F]; [discriminate F|contradiction].
      * right. split; [right; exact Hyes|exact E].
Qed.

(** X26.  [init] sets the user interface up at most once: once when the
    page is the page of a video and some run of the callback of the
    interval finds the video player, at the first such run, which also
    ends the interval; otherwise not at all, and on a page that is not the
    page of a video no interval is ever started. *)
Theorem interface_set_up_once (videoId : option string) (ticks : list bool) :
  let p := run (init videoId) ticks in
  setups p <= 1
  /\ (setups p = 1 <-> on_video_page videoId /\ In true ticks)
  /\ (interval p = true <-> on_video_page videoId /\ ~ In true ticks)
  /\ (~ on_video_page videoId -> p = init videoId /\ interval p = false).
Proof.
  assert (on_video_page videoId
          -> exists v, init videoId
                       = Poller true 0 [["Initializing for video:"; v]]) as Hyes.
  { intros (v & -> & Hv). exists v. simpl.
    apply String.eqb_neq in Hv. rewrite Hv. reflexivity. }
  assert (~ on_video_page videoId
          -> init videoId = Poller false 0 [["Not on a video page"]]) as Hno.
  { intros H. destruct videoId as [v|]; [|reflexivity]. simpl.
    destruct (String.eqb_spec v "") as [->|Hv]; [reflexivity|].
    exfalso. apply H. exists v. auto. }
  assert (on_video_page videoId \/ ~ on_video_page videoId) as [Hv|Hv].
  { destruct videoId as [v|].
    - destruct (String.eqb_spec v "") as [->|Hv].
      + right. intros (w & [= <-] & Hw). contradiction.
      + left. exists v. auto.
    - right. intros (w & Hw & _). discriminate Hw. }
  - destruct (Hyes Hv) as [v E]. simpl. rewrite E.
    destruct (run_polling (Poller true 0 [["Initializing for video:"; v]])
                ticks eq_refl) as [[Hn R]|[Hy R]]; rewrite R; simpl.
    + repeat split; try lia; try tauto; try discriminate.
    + repeat split; try lia; try tauto; try discriminate.
  - simpl. rewrite (Hno Hv), run_stopped by reflexivity. simpl.
    repeat split; try lia; try tauto; try discriminate.
Qed.

Lemma interface_set_up_once_witness :
  setups (run (init (Some "dQw4")) [false; true; true]) = 1.
Proof.
  apply (proj1 (proj2 (interface_set_up_once (Some "dQw4") [false; true; true]))).
  split.
  - exists "dQw4". split; [reflexivity|discriminate].
  - simpl. auto.
Defined.

End VideoPollFacts.

(** ** The panel under the pointer *)

Module DraggableFacts.
Import Draggable.

Lemma drag_run_app d es more : run d (es ++ more) = run (run d es) more.
Proof. apply fold_left_app. Qed.

Lemma run_moves_released d moves :
  isDragging d = false -> Forall (fun e => is_move e = true) moves ->
  run d moves = d.
Proof.
  intros Hd H. induction H as [|e moves He _ IH]; [reflexivity|].
  unfold run. simpl. destruct e; try discriminate He.
  simpl. rewrite Hd. exact IH.
Qed.

Lemma run_moves_dragging d moves :
  isDragging d = true -> Forall (fun e => is_move e = true) moves ->
  isDragging (run d moves) = true
  /\ initialX (run d moves) = initialX d
  /\ initialY (run d moves) = initialY d.
Proof.
  intros Hd H. revert d Hd.
  induction H as [|e moves He _ IH]; intros d Hd; [auto|].
  unfold run. simpl. destruct e; try discriminate He.
  simpl. rewrite Hd.
  destruct (IH (Dragger true (initialX d) (initialY d)
                        (Some (clientX - initialX d)%Z)
                        (Some (clientY - initialY d)%Z) true
                        (S (prevented d))) eq_refl) as (H1 & H2 & H3).
  auto.
Qed.

(** X27.  While the button is held after a [mousedown] on the handle, the
    element follows the pointer: after each move its left and top are
    what [offsetLeft] and [offsetTop] were at the [mousedown], shifted by
    as much as the pointer has moved since, whatever happened before.
    While the button is not held the element stays where it is: the moves
    of the pointer before the first [mousedown] and after a [mouseup]
    change nothing of the element. *)
Theorem element_follows_pointer (pre moves : list event) :
  Forall (fun e => is_move e = true) moves ->
  (forall x0 y0 offsetLeft offsetTop x y,
     let d := run makeDraggable
                (pre ++ Mousedown x0 y0 offsetLeft offsetTop
                     :: moves ++ [Mousemove x y]) in
     left d = Some (offsetLeft + (x - x0))%Z
     /\ top d = Some (offsetTop + (y - y0))%Z
     /\ right_auto d = true
     /\ isDragging d = true)
  /\ run makeDraggable moves = makeDraggable
  /\ run makeDraggable (pre ++ Mouseup :: moves)
     = run makeDraggable (pre ++ [Mouseup]).
Proof.
  intros Hm. split; [|split].
  - intros x0 y0 offsetLeft offsetTop x y. simpl.
    rewrite drag_run_app.
    change (run ?d (Mousedown x0 y0 offsetLeft offsetTop :: ?l))
      with (run (on_event d (Mousedown x0 y0 offsetLeft offsetTop)) l).
    rewrite drag_run_app.
    set (d0 := on_event (run makeDraggable pre)
                        (Mousedown x0 y0 offsetLeft offsetTop)).
    destruct (run_moves_dragging d0 moves eq_refl Hm) as (Hd & Hx & Hy).
    unfold run at 1. simpl. rewrite Hd, Hx, Hy. simpl.
    repeat split; f_equal; lia.
  - apply run_moves_released; [reflexivity|exact Hm].
  - rewrite !drag_run_app.
    change (run ?d (Mouseup :: moves)) with (run (run d [Mouseup]) moves).
    apply run_moves_released; [reflexivity|exact Hm].
Qed.

Lemma element_follows_pointer_witness :
  left (run makeDraggable
            ([Mousemove 1 1] ++ Mousedown 100 50 20 20
               :: [Mousemove 110 50] ++ [Mousemove 130 70]))
  = Some 50%Z.
Proof.
  apply (proj1 (element_follows_pointer [Mousemove 1 1] [Mousemove 110 50]
                  ltac:(repeat constructor))
               100%Z 50%Z 20%Z 20%Z 130%Z 70%Z).
Defined.

End DraggableFacts.

(** ** The settings *)

Module SettingsFacts.
Import Settings.

Section Values.
Variable V : Type.
Variable inherited : string -> option V.

(** X28.  [getAll] lists the keys of the defaults and no other: each with
    the stored value when there is one and the default otherwise, never
    [undefined].  A value stored under a key that has no default is
    returned by [get] and missing from [getAll]; and [set] changes what
    [get] returns for its key alone. *)
Theorem getAll_lists_the_defaults (defaults st : gmap string V)
    (key : string) (value : V) :
  (forall k,
     getAll V inherited defaults st !! k
     = match defaults !! k with
       | Some d => Some (Some (default d (st !! k)))
       | None => None
       end)
  /\ (defaults !! key = None ->
      get V inherited defaults (set V st key value) key = Some value
      /\ getAll V inherited defaults (set V st key value) !! key = None
      /\ getAll V inherited defaults (set V st key value)
         = getAll V inherited defaults st)
  /\ get V inherited defaults (set V st key value) key = Some value
  /\ (forall k, k <> key ->
        get V inherited defaults (set V st key value) k
        = get V inherited defaults st k).
Proof.
  assert (forall s k,
     getAll V inherited defaults s !! k
     = match defaults !! k with
       | Some d => Some (Some (default d (s !! k)))
       | None => None
       end) as Hall.
  { intros s k. unfold getAll. rewrite map_lookup_imap.
    destruct (defaults !! k) as [d|] eqn:E; [|reflexivity]. simpl.
    unfold get, GM_getValue, default_of. rewrite E.
    destruct (s !! k); reflexivity. }
  assert (get V inherited defaults (set V st key value) key = Some value) as Hget.
  { unfold get, set, GM_getValue. rewrite lookup_insert_eq. reflexivity. }
  split; [apply Hall|]. split; [|split; [exact Hget|]].
  - intros Hnone. split; [exact Hget|]. split.
    + rewrite Hall, Hnone. reflexivity.
    + apply map_eq. intros k. rewrite !Hall.
      destruct (defaults !! k) as [d|] eqn:E; [|reflexivity].
      unfold set. rewrite lookup_insert_ne; [reflexivity|].
      intros ->. rewrite Hnone in E. discriminate E.
  - intros k Hk. unfold get, set, GM_getValue.
    rewrite lookup_insert_ne by congruence. reflexivity.
Qed.

End Values.

Lemma getAll_lists_the_defaults_witness :
  get string (fun _ => None)
      {[ "theme" := "dark" ]} (set string ∅ "volume" "11") "volume" = Some "11"
  /\ getAll string (fun _ => None)
       {[ "theme" := "dark" ]} (set string ∅ "volume" "11") !! "volume" = None
  /\ getAll string (fun _ => None)
       {[ "theme" := "dark" ]} (set string ∅ "volume" "11")
     = getAll string (fun _ => None) {[ "theme" := "dark" ]} ∅.
Proof.
  apply (proj1 (proj2 (getAll_lists_the_defaults string (fun _ => None)
                         {[ "theme" := "dark" ]} ∅ "volume" "11"))).
  reflexivity.
Defined.

End SettingsFacts.

(** ** The debounced function *)

Module DebounceFacts.
Import Debounce DebounceLogic.

Section Args.
Variable A : Type.
Variable wait : Z.

Implicit Types (d : debounced A) (es : list (event A)).

Lemma debounce_run_app d es more :
  run wait d (es ++ more) = run wait (run wait d es) more.
Proof. apply fold_left_app. Qed.

Lemma cleared d :
  (forall id x, timers d !! id = Some x -> timeout d = Some id) ->
  clearTimeout A (timeout d) (timers d) = ∅.
Proof.
  intros H. apply map_empty. intros i.
  destruct (clearTimeout A (timeout d) (timers d) !! i) as [x|] eqn:E;
    [|reflexivity].
  exfalso. unfold clearTimeout in E.
  destruct (timeout d) as [j|] eqn:T.
  - destruct (decide (i = j)) as [->|Hne].
    + rewrite lookup_delete_eq in E. discriminate E.
    + rewrite lookup_delete_ne in E by congruence.
      specialize (H i x E). congruence.
  - specialize (H i x E). discriminate H.
Qed.

Lemma kept_step es d e :
  kept wait es d -> kept wait (es ++ [e]) (on_event wait d e).
Proof.
  intros (H1 & H2 & H3).
  assert (Forall (fun '(t, a) =>
            exists c, In (Call c a) (es ++ [e]) /\ (c + wait <= t)%Z)
            (invoked d)) as H3'.
  { eapply List.Forall_impl; [|exact H3]. intros [t a] (c & Hin & Hle).
    exists c. split; [apply in_or_app; left; exact Hin|exact Hle]. }
  destruct e as [now args|now id]; simpl.
  - rewrite (cleared d H1). repeat split; simpl.
    + intros id x Hx. destruct (decide (id = next_id d)) as [->|Hne];
        [reflexivity|].
      rewrite lookup_insert_ne, lookup_empty in Hx by congruence. discriminate Hx.
    + intros id due a Hx. destruct (decide (id = next_id d)) as [->|Hne].
      * rewrite lookup_insert_eq in Hx. injection Hx as <- <-.
        exists now. split; [apply in_or_app; right; left; reflexivity|reflexivity].
      * rewrite lookup_insert_ne, lookup_empty in Hx by congruence.
        discriminate Hx.
    + exact H3'.
  - destruct (timers d !! id) as [[due args]|] eqn:E.
    2: { repeat split; [exact H1| |exact H3'].
         intros i due a Hx. destruct (H2 i due a Hx) as (c & Hin & Hd).
         exists c. split; [apply in_or_app; left; exact Hin|exact Hd]. }
    destruct (Z.leb_spec due now) as [Hdue|Hearly].
    2: { repeat split; [exact H1| |exact H3'].
         intros i due' a Hx. destruct (H2 i due' a Hx) as (c & Hin & Hd).
         exists c. split; [apply in_or_app; left; exact Hin|exact Hd]. }
    repeat split; simpl.
    + intros i x Hx. destruct (decide (i = id)) as [->|Hne].
      * rewrite lookup_delete_eq in Hx. discriminate Hx.
      * rewrite lookup_delete_ne in Hx by congruence. apply (H1 i x Hx).
    + intros i due' a Hx. destruct (decide (i = id)) as [->|Hne].
      * rewrite lookup_delete_eq in Hx. discriminate Hx.
      * rewrite lookup_delete_ne in Hx by congruence.
        destruct (H2 i due' a Hx) as (c & Hin & Hd).
        exists c. split; [apply in_or_app; left; exact Hin|exact Hd].
    + apply Forall_app. split; [exact H3'|].
      constructor; [|constructor].
      destruct (H2 id due args E) as (c & Hin & Hd).
      exists c. split; [apply in_or_app; left; exact Hin|lia].
Qed.

Lemma kept_run es : kept wait es (run wait debounce es).
Proof.
  induction es as [|e es IH] using rev_ind.
  - split; [|split]; simpl.
    + intros id x Hx. rewrite lookup_empty in Hx. discriminate Hx.
    + intros id due a Hx. rewrite lookup_empty in Hx. discriminate Hx.
    + constructor.
  - rewrite debounce_run_app. apply (kept_step es _ e IH).
Qed.

(** After a call one timer is live, the timer of that call. *)
Lemma after_call d now args :
  (forall id x, timers d !! id = Some x -> timeout d = Some id) ->
  on_event wait d (Call now args)
  = Debounced (Some (next_id d)) {[ next_id d := ((now + wait)%Z, args) ]}
              (S (next_id d)) (invoked d).
Proof. intros H. simpl. rewrite (cleared d H). reflexivity. Qed.

Lemma run_fires_idle d fires :
  timers d = ∅ -> Forall (fun e => is_fire e = true) fires ->
  run wait d fires = d.
Proof.
  intros Hd H. induction H as [|e fires He _ IH]; [reflexivity|].
  change (run wait d (e :: fires)) with (run wait (on_event wait d e) fires).
  destruct e as [|now id]; [discriminate He|].
  simpl. rewrite Hd, lookup_empty. exact IH.
Qed.

Lemma run_fires_one t n due (args : A) i (l : list (Z * A)) fires :
  Forall (fun e => is_fire e = true) fires ->
  let d := Debounced t {[ i := (due, args) ]} n l in
  run wait d fires = d
  \/ exists now, (due <= now)%Z
       /\ run wait d fires = Debounced t ∅ n (l ++ [(now, args)]).
Proof.
  intros H. induction H as [|e fires He Hrest IH]; [left; reflexivity|].
  simpl.
  change (run wait ?d (e :: fires)) with (run wait (on_event wait d e) fires).
  destruct e as [|now id]; [discriminate He|]. simpl.
  destruct (decide (id = i)) as [->|Hne].
  - rewrite lookup_singleton_eq.
    destruct (Z.leb_spec due now) as [Hdue|Hearly]; [|exact IH].
    right. exists now. split; [exact Hdue|].
    rewrite delete_singleton_eq. apply run_fires_idle; [reflexivity|exact Hrest].
  - rewrite lookup_singleton_ne by congruence. exact IH.
Qed.

(** X29.  For a delay that [setTimeout] takes as it is, from 0 to
    [MAX_DELAY]: at any time at most one timer of the closure is live,
    the one of the last call.  [func] is called only with the arguments
    of a call of the debounced function, and no sooner than [wait] after
    that call. *)
Theorem debounce_is_safe (es : list (event A)) :
  (0 <= wait <= MAX_DELAY)%Z ->
  let d := run wait debounce es in
  (forall i j x y, timers d !! i = Some x -> timers d !! j = Some y -> i = j)
  /\ (forall i x, timers d !! i = Some x -> timeout d = Some i)
  /\ Forall (fun '(t, a) => exists c, In (Call c a) es /\ (c + wait <= t)%Z)
            (invoked d).
Proof.
  intros _. destruct (kept_run es) as (H1 & _ & H3). simpl.
  split; [|split; [exact H1|exact H3]].
  intros i j x y Hi Hj.
  pose proof (H1 i x Hi) as Ei. pose proof (H1 j y Hj) as Ej. congruence.
Qed.

(** X30.  For a delay that [setTimeout] takes as it is, from 0 to
    [MAX_DELAY]: of a burst of calls that no run of a timer comes between,
    only the last reaches [func]: whatever happened before and however the
    host runs timers after the burst, [func] is called at most once more,
    with the arguments of the last call of the burst and [wait] or more
    after it; the calls before the last, and a call left waiting from
    before the burst, are dropped. *)
Theorem burst_calls_once (pre : list (event A)) (calls : list (Z * A))
    (last_now : Z) (last_args : A) (fires : list (event A)) :
  (0 <= wait <= MAX_DELAY)%Z ->
  Forall (fun e => is_fire e = true) fires ->
  let before := run wait debounce pre in
  let d := run wait debounce
             (pre ++ List.map (fun c => Call (fst c) (snd c)) calls
                  ++ Call last_now last_args :: fires) in
  invoked d = invoked before
  \/ exists now, (last_now + wait <= now)%Z
       /\ invoked d = invoked before ++ [(now, last_args)].
Proof.
  intros _ Hf. simpl.
  rewrite debounce_run_app, debounce_run_app.
  set (before := run wait debounce pre).
  assert (forall cs d,
            (forall id x, timers d !! id = Some x -> timeout d = Some id) ->
            let d' := run wait d (List.map (fun c => Call (fst c) (snd c)) cs) in
            (forall id x, timers d' !! id = Some x -> timeout d' = Some id)
            /\ invoked d' = invoked d) as Hcalls.
  { induction cs as [|c cs IH]; intros d Hd; [split; [exact Hd|reflexivity]|].
    simpl map.
    change (run wait d (?e :: ?l)) with (run wait (on_event wait d e) l).
    rewrite (after_call d _ _ Hd).
    destruct (IH (Debounced (Some (next_id d))
                            {[ next_id d := ((c.1 + wait)%Z, c.2) ]}
                            (S (next_id d)) (invoked d))) as [I1 I2].
    { simpl. intros id x Hx. destruct (decide (id = next_id d)) as [->|Hne];
        [reflexivity|].
      rewrite lookup_singleton_ne in Hx by congruence. discriminate Hx. }
    split; [exact I1|exact I2]. }
  destruct (kept_run pre) as (H1 & _).
  destruct (Hcalls calls before H1) as [I1 I2].
  set (d1 := run wait before (List.map (fun c => Call (fst c) (snd c)) calls)) in *.
  change (run wait d1 (Call last_now last_args :: fires))
    with (run wait (on_event wait d1 (Call last_now last_args)) fires).
  rewrite (after_call d1 _ _ I1).
  destruct (run_fires_one (Some (next_id d1)) (S (next_id d1))
              (last_now + wait)%Z last_args (next_id d1) (invoked d1)
              fires Hf) as [E|(now & Hnow & E)]; simpl in E; rewrite E; simpl.
  - left. exact I2.
  - right. exists now. split; [exact Hnow|]. rewrite I2. reflexivity.
Qed.

End Args.

Lemma debounce_is_safe_witness :
  Forall (fun '(t, a) =>
            exists c, In (Call c a) [Call 0 "a"; Call 100 "b"; Fire 400 1]
                      /\ (c + 250 <= t)%Z)
         (invoked (run 250 debounce [Call 0 "a"; Call 100 "b"; Fire 400 1])).
Proof.
  apply (debounce_is_safe string 250 [Call 0 "a"; Call 100 "b"; Fire 400 1]).
  unfold MAX_DELAY. lia.
Defined.

Lemma burst_calls_once_witness :
  let d := run 250 debounce
             ([] ++ List.map (fun c => Call (fst c) (snd c)) [(0%Z, "a")]
                 ++ Call 100 "b" :: [Fire 200 0; Fire 400 1]) in
  invoked d = invoked (run 250 (debounce (A := string)) [])
  \/ exists now, (100 + 250 <= now)%Z
       /\ invoked d = invoked (run 250 (debounce (A := string)) [])
                      ++ [(now, "b")].
Proof.
  apply (burst_calls_once string 250 [] [(0%Z, "a")] 100 "b"
           [Fire 200 0; Fire 400 1]).
  - unfold MAX_DELAY. lia.
  - repeat constructor.
Defined.

End DebounceFacts.
